(** * MDL AST builder: a shallow embedding of [mdl_elements_ast_builder.cpp]

    The builder turns neuray expressions (calls over typed constants and
    parameters, stored in the database) into MDL syntax trees, upgrading
    calls of older standard-library signatures on the way.

    Conventions of the embedding:
    - a [Handle<T>] is an [option T], the invalid handle being [None];
    - a [DB::Tag] is an [N], tag 0 being the invalid tag;
    - an [ISymbol] is the string it interns;
    - the mutable members of the builder, the diagnostic sink [LOG::mod_log]
      and the trace of violated [ASSERT]s are threaded through a state
      monad; after a violated [ASSERT] the code continues as a release
      build does (it returns [create_invalid()] or falls through);
    - dereferencing an invalid handle and opening a [DB::Access] on a record
      of another class are undefined behaviour and end a run in [Fault];
    - [transform_expr] follows database tags and the argument list, so it
      is not structurally recursive: it takes a recursion budget and ends
      in [OutOfFuel] when the budget is used up;
    - names are C strings without embedded NUL. *)

From Stdlib Require Import ZArith NArith List String Ascii Bool Lia.
From Stdlib Require Import SpecFloat.
From stdpp Require Import base gmap strings list pretty.

Open Scope string_scope.

#[local] Set Warnings "-register-all".

(** ** C and C++ string primitives used by the builder *)

Module Cstr.

(** [s.substr(n)] for [n <= s.size()]; also pointer arithmetic [p + n]. *)
Fixpoint drop (n : nat) (s : string) : string :=
  match n, s with
  | O, _ => s
  | S n', String _ r => drop n' r
  | S _, EmptyString => EmptyString
  end.

(** [s.erase(n)]: keep the first [n] characters. *)
Fixpoint take (n : nat) (s : string) : string :=
  match n, s with
  | O, _ => EmptyString
  | S n', String a r => String a (take n' r)
  | S _, EmptyString => EmptyString
  end.

(** [strchr(s, c)]: the suffix of [s] that starts at the first [c]. *)
Fixpoint strchr (s : string) (c : ascii) : option string :=
  match s with
  | EmptyString => None
  | String a r => if Ascii.eqb a c then Some s else strchr r c
  end.

(** [strstr(s, sub)]: the suffix of [s] that starts at the first
    occurrence of [sub]. *)
Fixpoint strstr (s sub : string) : option string :=
  if String.prefix sub s then Some s
  else match s with
       | EmptyString => None
       | String _ r => strstr r sub
       end.

(** [s.find(c)]: index of the first [c]. *)
Fixpoint find (s : string) (c : ascii) : option nat :=
  match s with
  | EmptyString => None
  | String a r => if Ascii.eqb a c then Some O else S <$> find r c
  end.

(** [s.rfind(c)]: index of the last [c]. *)
Fixpoint rfind (s : string) (c : ascii) : option nat :=
  match s with
  | EmptyString => None
  | String a r =>
      match rfind r c with
      | Some i => Some (S i)
      | None => if Ascii.eqb a c then Some O else None
      end
  end.

(** The pieces of [s] between successive leftmost occurrences of the
    scope separator, as the loop
    [for (;;) { p = name.find("::", pos); ...; pos = p + 2; }]
    visits them; [cur] is the piece read so far.  The last element is
    the piece after the last separator. *)
Fixpoint split_scope (cur s : string) : list string :=
  match s with
  | EmptyString => [cur]
  | String a r =>
      match r with
      | String b r' =>
          if Ascii.eqb a ":" && Ascii.eqb b ":"
          then cur :: split_scope EmptyString r'
          else split_scope (cur +:+ String a EmptyString) r
      | EmptyString => [cur +:+ String a EmptyString]
      end
  end.

End Cstr.

(** [dag_unmangle]: cut a DAG mangled name at its first opening
    parenthesis. *)
Definition dag_unmangle (name : string) : string :=
  match Cstr.find name "(" with
  | Some pos => Cstr.take pos name
  | None => name
  end.

(** [remove_deprecated]: cut a name at its last dollar sign. *)
Definition remove_deprecated (name : string) : string :=
  match Cstr.rfind name "$" with
  | Some pos => Cstr.take pos name
  | None => name
  end.

(** ** Numbers *)

(** The conversion [int(x)] of an unsigned size to a 32-bit [int]. *)
Definition to_int (z : Z) : Z :=
  ((z + 2 ^ 31) mod 2 ^ 32 - 2 ^ 31)%Z.

(** The conversion [unsigned(x)] to a 32-bit [unsigned]. *)
Definition to_unsigned (n : N) : N := (n mod 2 ^ 32)%N.

(** [mi::Float32] and [mi::Float64] values, as IEEE 754 data. *)
Definition Float32 := spec_float.
Definition Float64 := spec_float.

Module F32.
(** [1.0f] = 0x3F800000. *)
Definition one : Float32 := S754_finite false 8388608 (-23).
(** [2.2f] = 0x400CCCCD, the binary32 number nearest to 2.2. *)
Definition two_point_two : Float32 := S754_finite false 9227469 (-22).
(** [0.0f]. *)
Definition zero : Float32 := S754_zero false.
(** [float(M_PI)] = 0x40490FDB. *)
Definition pi : Float32 := S754_finite false 13176795 (-22).
(** 0x3F800001, the binary32 number nearest to 1.0000001. *)
Definition one_plus_ulp : Float32 := S754_finite false 8388609 (-23).
End F32.

(** ** The neuray side: types, values, expressions *)

Abbreviation Tag := N.

Definition tag_is_invalid (t : Tag) : bool := (t =? 0)%N.

Inductive Texture_shape := TS_2D | TS_3D | TS_CUBE | TS_PTEX.

Inductive Struct_id :=
| SID_USER
| SID_MATERIAL_EMISSION
| SID_MATERIAL_SURFACE
| SID_MATERIAL_VOLUME
| SID_MATERIAL_GEOMETRY
| SID_MATERIAL.

Inductive Enum_id := EID_USER | EID_TEX_GAMMA_MODE | EID_INTENSITY_MODE.

(** The bits of [IType::Modifier]. *)
Record Modifiers := { MK_UNIFORM : bool; MK_VARYING : bool }.

Definition no_modifiers : Modifiers :=
  {| MK_UNIFORM := false; MK_VARYING := false |}.

Definition or_modifiers (a b : Modifiers) : Modifiers :=
  {| MK_UNIFORM := MK_UNIFORM a || MK_UNIFORM b;
     MK_VARYING := MK_VARYING a || MK_VARYING b |}.

(** [IType_enum]: predefined id, symbol, and the (name, code) pairs. *)
Record IType_enum := {
  e_predefined_id : Enum_id;
  e_symbol : string;
  e_values : list (string * Z)
}.

(** [IType_struct]: predefined id and symbol. *)
Record IType_struct := {
  s_predefined_id : Struct_id;
  s_symbol : string
}.

Inductive Array_size :=
| Immediate_size (size : N)
| Deferred_size (name : string).

(** [IType].  A matrix type is given by the element type and size of its
    column vectors and by its number of columns. *)
Inductive IType :=
| TK_ALIAS (aliased : IType) (modifiers : Modifiers)
| TK_BOOL
| TK_INT
| TK_ENUM (e_tp : IType_enum)
| TK_FLOAT
| TK_DOUBLE
| TK_STRING
| TK_LIGHT_PROFILE
| TK_BSDF
| TK_EDF
| TK_VDF
| TK_VECTOR (element : IType) (size : N)
| TK_MATRIX (element : IType) (rows : N) (cols : N)
| TK_COLOR
| TK_STRUCT (s_tp : IType_struct)
| TK_TEXTURE (shape : Texture_shape)
| TK_BSDF_MEASUREMENT
| TK_ARRAY (element : IType) (size : Array_size).

(** Modelled from the spec: [IType::skip_all_type_aliases] and
    [IType::get_all_type_modifiers] are declared outside the sources at
    hand; an alias is a base type with a uniform/varying modifier. *)
Fixpoint skip_all_type_aliases (t : IType) : IType :=
  match t with
  | TK_ALIAS a _ => skip_all_type_aliases a
  | _ => t
  end.

Fixpoint get_all_type_modifiers (t : IType) : Modifiers :=
  match t with
  | TK_ALIAS a m => or_modifiers m (get_all_type_modifiers a)
  | _ => no_modifiers
  end.

(** [IValue].  Resource values hold the tag of their database record. *)
Inductive Compound_kind := VK_VECTOR | VK_MATRIX | VK_COLOR | VK_STRUCT.

Inductive IValue :=
| VK_BOOL (b : bool)
| VK_INT (i : Z)
| VK_ENUM (e_tp : IType_enum) (index : nat)
| VK_FLOAT (f : Float32)
| VK_DOUBLE (d : Float64)
| VK_STRING (s : string)
| VK_COMPOUND (k : Compound_kind) (c_tp : IType) (elements : list IValue)
| VK_ARRAY (element_type : IType) (size : Array_size) (elements : list IValue)
| VK_INVALID_DF (r_tp : IType)
| VK_TEXTURE (shape : Texture_shape) (tag : Tag)
| VK_LIGHT_PROFILE (tag : Tag)
| VK_BSDF_MEASUREMENT (tag : Tag).

Definition value_type (v : IValue) : IType :=
  match v with
  | VK_BOOL _ => TK_BOOL
  | VK_INT _ => TK_INT
  | VK_ENUM e _ => TK_ENUM e
  | VK_FLOAT _ => TK_FLOAT
  | VK_DOUBLE _ => TK_DOUBLE
  | VK_STRING _ => TK_STRING
  | VK_COMPOUND _ t _ => t
  | VK_ARRAY e n _ => TK_ARRAY e n
  | VK_INVALID_DF t => t
  | VK_TEXTURE sh _ => TK_TEXTURE sh
  | VK_LIGHT_PROFILE _ => TK_LIGHT_PROFILE
  | VK_BSDF_MEASUREMENT _ => TK_BSDF_MEASUREMENT
  end.

(** Modelled from the spec: the operator enumeration and
    [is_unary_operator], [is_binary_operator] live in the MDL core headers.
    An operator is unary, binary or the ternary operator: these are the
    kinds [transform_call] tests for, in this order; it names the select
    and the array-index operator.  An operator of another kind, should the
    enumeration have one, would pass the three tests and reach the
    conversions below; it is not modelled. *)
Inductive Unary_operator := OK_UNARY (code : N).

Inductive Binary_operator :=
| OK_SELECT
| OK_ARRAY_INDEX
| OK_BINARY (code : N).

Inductive Operator :=
| Op_unary (u : Unary_operator)
| Op_binary (b : Binary_operator)
| OK_TERNARY.

Definition is_unary_operator (op : Operator) : bool :=
  match op with Op_unary _ => true | _ => false end.

Definition is_binary_operator (op : Operator) : bool :=
  match op with Op_binary _ => true | _ => false end.

(** [mi::mdl::IDefinition::Semantics]: the operator range, the semantics
    the builder names, and all the others. *)
Inductive Semantics :=
| DS_UNKNOWN
| DS_OP (op : Operator)
| DS_INTRINSIC_DF_MEASURED_EDF
| DS_INTRINSIC_DF_FRESNEL_LAYER
| DS_INTRINSIC_DF_SPOT_EDF
| DS_INTRINSIC_STATE_ROUNDED_CORNER_NORMAL
| DS_INTRINSIC_TEX_WIDTH
| DS_INTRINSIC_TEX_HEIGHT
| DS_INTRINSIC_TEX_TEXEL_FLOAT
| DS_INTRINSIC_TEX_TEXEL_FLOAT2
| DS_INTRINSIC_TEX_TEXEL_FLOAT3
| DS_INTRINSIC_TEX_TEXEL_FLOAT4
| DS_INTRINSIC_TEX_TEXEL_COLOR
| DS_INTRINSIC_DAG_FIELD_ACCESS
| DS_INTRINSIC_DAG_INDEX_ACCESS
| DS_INTRINSIC_DAG_ARRAY_CONSTRUCTOR
| DS_INTRINSIC_DAG_ARRAY_LENGTH
| DS_INTRINSIC_DAG_SET_OBJECT_ID
| DS_INTRINSIC_DAG_SET_TRANSFORMS
| DS_OTHER (code : N).

Definition semantic_is_operator (sema : Semantics) : bool :=
  match sema with DS_OP _ => true | _ => false end.

(** [IExpression].  Every node has an identity [addr] (the address its
    handle points to), the key of the parameter map.  An
    [IExpression_list] is a list of named expressions. *)
Inductive IExpression :=
| EK_CONSTANT (addr : N) (value : IValue)
| EK_CALL (addr : N) (type : IType) (call : Tag)
| EK_DIRECT_CALL (addr : N) (type : IType) (definition : Tag)
    (arguments : list (string * IExpression))
| EK_PARAMETER (addr : N) (type : IType) (index : nat)
| EK_TEMPORARY (addr : N) (type : IType) (index : nat).

Definition IExpression_list := list (string * IExpression).

Definition expr_addr (e : IExpression) : N :=
  match e with
  | EK_CONSTANT a _ | EK_CALL a _ _ | EK_DIRECT_CALL a _ _ _
  | EK_PARAMETER a _ _ | EK_TEMPORARY a _ _ => a
  end.

Definition expr_type (e : IExpression) : IType :=
  match e with
  | EK_CONSTANT _ v => value_type v
  | EK_CALL _ t _ | EK_DIRECT_CALL _ t _ _
  | EK_PARAMETER _ t _ | EK_TEMPORARY _ t _ => t
  end.

(** [args->get_expression(i)] and [args->get_name(i)]: invalid out of
    range. *)
Definition get_expression (args : IExpression_list) (i : nat)
  : option IExpression := snd <$> args !! i.

Definition get_name (args : IExpression_list) (i : nat) : option string :=
  fst <$> args !! i.

(** ** The MDL side: names, types, values, expressions *)

(** [IQualified_name]: components and the absolute flag. *)
Record IQualified_name := {
  qn_components : list string;
  qn_absolute : bool
}.

Definition add_component (q : IQualified_name) (sname : string)
  : IQualified_name :=
  {| qn_components := qn_components q ++ [sname];
     qn_absolute := qn_absolute q |}.

Definition set_absolute (q : IQualified_name) : IQualified_name :=
  {| qn_components := qn_components q; qn_absolute := true |}.

Definition empty_qualified_name : IQualified_name :=
  {| qn_components := []; qn_absolute := false |}.

Inductive Qualifier := FQ_NONE | FQ_UNIFORM | FQ_VARYING.

(** [mi::mdl::IType], as far as the builder creates it. *)
Inductive mdl_IType :=
| T_error
| T_bool
| T_int
| T_float
| T_double
| T_string
| T_vector (element : mdl_IType) (size : Z)
| T_matrix (element : mdl_IType) (columns : Z)
| T_color
| T_texture (shape : Texture_shape)
| T_light_profile
| T_bsdf_measurement
| T_bsdf
| T_edf
| T_vdf
| T_enum (sym : string) (values : list (string * Z))
| T_predefined_enum (id : Enum_id).

(** The array size of a type name: an integer literal, or a reference to
    the name of a deferred size. *)
Inductive Array_size_expr :=
| Size_literal (size : Z)
| Size_reference (qname : IQualified_name).

(** [IType_name]. *)
Record IType_name := {
  tn_qname : IQualified_name;
  tn_qualifier : Qualifier;
  tn_array_size : option Array_size_expr;
  tn_incomplete_array : bool;
  tn_type : option mdl_IType
}.

Definition create_type_name_of (q : IQualified_name) : IType_name :=
  {| tn_qname := q; tn_qualifier := FQ_NONE; tn_array_size := None;
     tn_incomplete_array := false; tn_type := None |}.

Definition set_qualifier (tn : IType_name) (q : Qualifier) : IType_name :=
  {| tn_qname := tn_qname tn; tn_qualifier := q;
     tn_array_size := tn_array_size tn;
     tn_incomplete_array := tn_incomplete_array tn; tn_type := tn_type tn |}.

Definition set_array_size (tn : IType_name) (a : Array_size_expr)
  : IType_name :=
  {| tn_qname := tn_qname tn; tn_qualifier := tn_qualifier tn;
     tn_array_size := Some a;
     tn_incomplete_array := tn_incomplete_array tn; tn_type := tn_type tn |}.

Definition set_incomplete_array (tn : IType_name) : IType_name :=
  {| tn_qname := tn_qname tn; tn_qualifier := tn_qualifier tn;
     tn_array_size := tn_array_size tn;
     tn_incomplete_array := true; tn_type := tn_type tn |}.

Definition set_type (tn : IType_name) (t : mdl_IType) : IType_name :=
  {| tn_qname := tn_qname tn; tn_qualifier := tn_qualifier tn;
     tn_array_size := tn_array_size tn;
     tn_incomplete_array := tn_incomplete_array tn; tn_type := Some t |}.

Inductive Gamma_mode := gamma_default | gamma_linear | gamma_srgb.

(** Modelled from the spec: [DB::Tag_version] is a per-tag version
    counter of the store. *)
Abbreviation Tag_version := N.

(** Modelled from the spec: [get_hash] is defined outside the sources at
    hand; a content hash is derived from its arguments and is represented
    by them. *)
Inductive Resource_hash :=
| get_hash_texture (mdl_file_path : option string) (gamma : Float32)
    (tag_version image_tag_version : Tag_version)
| get_hash_resource (mdl_file_path : option string)
    (tag_version : Tag_version).

(** [mi::mdl::IValue], as far as the builder creates it.  The type of an
    invalid reference is the result of a pointer cast and may be null. *)
Inductive mdl_IValue :=
| V_bool (b : bool)
| V_int (i : Z)
| V_float (f : Float32)
| V_double (d : Float64)
| V_string (s : string)
| V_vector (t : mdl_IType) (elements : list mdl_IValue)
| V_invalid_ref (r_tp : option mdl_IType)
| V_texture (t_tp : option mdl_IType) (url : string) (gamma : Gamma_mode)
    (tag_value : N) (hash : Resource_hash)
| V_light_profile (lp_tp : option mdl_IType) (url : string) (tag_value : N)
    (hash : Resource_hash)
| V_bsdf_measurement (bm_tp : option mdl_IType) (url : string)
    (tag_value : N) (hash : Resource_hash).

(** Modelled from the spec: [create_int2_zero] is defined in the MDL core;
    it is the literal integer pair (0,0). *)
Definition create_int2_zero : mdl_IValue :=
  V_vector (T_vector T_int 2) [V_int 0; V_int 0].

Inductive IArgument (E : Type) :=
| positional_argument (e : E)
| named_argument (name : string) (e : E).
Arguments positional_argument {E} e.
Arguments named_argument {E} name e.

(** [mi::mdl::IExpression]. *)
Inductive mdl_IExpression :=
| E_invalid
| E_literal (v : mdl_IValue)
| E_reference (tn : IType_name)
| E_unary (op : Unary_operator) (arg : mdl_IExpression)
| E_binary (op : Binary_operator) (l r : mdl_IExpression)
| E_conditional (cond true_res false_res : mdl_IExpression)
| E_call (callee : mdl_IExpression)
    (arguments : list (IArgument mdl_IExpression)).

Definition add_argument (call : mdl_IExpression)
    (arg : IArgument mdl_IExpression) : mdl_IExpression :=
  match call with
  | E_call ref args => E_call ref (args ++ [arg])
  | e => e
  end.

Definition create_call (ref : mdl_IExpression) : mdl_IExpression :=
  E_call ref [].

(** The type an MDL value carries. *)
Definition mdl_value_type (v : mdl_IValue) : option mdl_IType :=
  match v with
  | V_bool _ => Some T_bool
  | V_int _ => Some T_int
  | V_float _ => Some T_float
  | V_double _ => Some T_double
  | V_string _ => Some T_string
  | V_vector t _ => Some t
  | V_invalid_ref t => t
  | V_texture t _ _ _ _ => t
  | V_light_profile t _ _ _ => t
  | V_bsdf_measurement t _ _ _ => t
  end.

(** [expr->get_type()] on the MDL side: a literal has the type of its
    value, a reference the type given to [to_reference]; the builder sets
    no type on the other expressions. *)
Definition mdl_get_type (e : mdl_IExpression) : option mdl_IType :=
  match e with
  | E_literal v => mdl_value_type v
  | E_reference tn => tn_type tn
  | _ => None
  end.

(** Modelled from the spec: [mi::mdl::is_tex_2d] is defined in the MDL
    core; it holds when the type is the 2-D texture type. *)
Definition is_tex_2d (t : option mdl_IType) : bool :=
  match t with
  | Some (T_texture TS_2D) => true
  | _ => false
  end.

(** ** The database, seen through the transaction *)

Inductive Class_id :=
| ID_NONE
| ID_MDL_FUNCTION_CALL
| ID_MDL_FUNCTION_DEFINITION
| ID_MDL_MATERIAL_INSTANCE
| ID_MDL_MATERIAL_DEFINITION
| ID_TEXTURE
| ID_IMAGE
| ID_LIGHTPROFILE
| ID_BSDF_MEASUREMENT
| ID_OTHER (id : N).

Inductive DB_element :=
| Mdl_function_call (function_definition : Tag)
    (arguments : IExpression_list) (parameter_count : nat)
| Mdl_function_definition (mdl_name : string)
    (mdl_original_name : option string) (mdl_semantic : Semantics)
    (parameter_count : nat)
| Mdl_material_instance (material_definition : Tag)
    (arguments : IExpression_list)
| Mdl_material_definition (mdl_name : string)
    (mdl_original_name : option string) (parameter_count : nat)
| Texture (image : Tag) (gamma : Float32)
| Image (original_filename : string)
| Lightprofile (original_filename : string)
| Bsdf_measurement (original_filename : string)
| Other_element (id : N).

Definition class_of (el : DB_element) : Class_id :=
  match el with
  | Mdl_function_call _ _ _ => ID_MDL_FUNCTION_CALL
  | Mdl_function_definition _ _ _ _ => ID_MDL_FUNCTION_DEFINITION
  | Mdl_material_instance _ _ => ID_MDL_MATERIAL_INSTANCE
  | Mdl_material_definition _ _ _ => ID_MDL_MATERIAL_DEFINITION
  | Texture _ _ => ID_TEXTURE
  | Image _ => ID_IMAGE
  | Lightprofile _ => ID_LIGHTPROFILE
  | Bsdf_measurement _ => ID_BSDF_MEASUREMENT
  | Other_element id => ID_OTHER id
  end.

#[global] Instance Class_id_eq_dec : EqDecision Class_id.
Proof. solve_decision. Defined.

(** [DB::Transaction]: the records, their names and their versions. *)
Record Transaction := {
  db_elements : gmap N DB_element;
  db_names : gmap N string;
  db_versions : gmap N Tag_version
}.

Definition get_class_id (trans : Transaction) (tag : Tag) : Class_id :=
  match db_elements trans !! tag with
  | Some el => class_of el
  | None => ID_NONE
  end.

Definition tag_to_name (trans : Transaction) (tag : Tag) : option string :=
  db_names trans !! tag.

Definition get_tag_version (trans : Transaction) (tag : Tag) : Tag_version :=
  default 0%N (db_versions trans !! tag).

(** ** The builder and its monad *)

(** A message of [LOG::mod_log->error(M_SCENE, C_DATABASE, format, name)]:
    the text of the format and the name printed in it. *)
Inductive Log_message := log_error (text : string) (name : string).

(** [Mdl_ast_builder]: the members the transformation reads or writes,
    followed by the diagnostic sink and the trace of violated assertions. *)
Record Mdl_ast_builder := {
  m_trans : Transaction;
  m_tmp_idx : N;
  m_param_map : gmap N string;
  m_args : IExpression_list;
  m_used_user_types : list string;
  mod_log : list Log_message;
  failed_asserts : list string
}.

Inductive Outcome (A : Type) :=
| Ok (a : A)
| OutOfFuel
| Fault.
Arguments Ok {A} a.
Arguments OutOfFuel {A}.
Arguments Fault {A}.

Definition M (A : Type) : Type :=
  Mdl_ast_builder -> Outcome (A * Mdl_ast_builder).

#[global] Instance M_ret : MRet M := fun A a s => Ok (a, s).

#[global] Instance M_bind : MBind M := fun A B f m s =>
  match m s with
  | Ok (a, s') => f a s'
  | OutOfFuel => OutOfFuel
  | Fault => Fault
  end.

Definition fault {A} : M A := fun _ => Fault.

Definition out_of_fuel {A} : M A := fun _ => OutOfFuel.

Definition gets {A} (f : Mdl_ast_builder -> A) : M A := fun s => Ok (f s, s).

(** [*h] for a handle or pointer [h]. *)
Definition deref {A} (h : option A) : M A :=
  match h with
  | Some a => mret a
  | None => fault
  end.

(** The builder after a violated assertion, a logged message, a pushed
    user type symbol. *)
Definition assert_failed (text : string) (s : Mdl_ast_builder)
  : Mdl_ast_builder :=
  {| m_trans := m_trans s; m_tmp_idx := m_tmp_idx s;
     m_param_map := m_param_map s; m_args := m_args s;
     m_used_user_types := m_used_user_types s;
     mod_log := mod_log s;
     failed_asserts := failed_asserts s ++ [text] |}.

Definition logged (msg : Log_message) (s : Mdl_ast_builder)
  : Mdl_ast_builder :=
  {| m_trans := m_trans s; m_tmp_idx := m_tmp_idx s;
     m_param_map := m_param_map s; m_args := m_args s;
     m_used_user_types := m_used_user_types s;
     mod_log := mod_log s ++ [msg];
     failed_asserts := failed_asserts s |}.

Definition pushed (sym : string) (s : Mdl_ast_builder) : Mdl_ast_builder :=
  {| m_trans := m_trans s; m_tmp_idx := m_tmp_idx s;
     m_param_map := m_param_map s; m_args := m_args s;
     m_used_user_types := m_used_user_types s ++ [sym];
     mod_log := mod_log s;
     failed_asserts := failed_asserts s |}.

(** [ASSERT(M_SCENE, cond)], [text] naming the assertion. *)
Definition ASSERT (cond : bool) (text : string) : M unit := fun s =>
  if cond then Ok (tt, s) else Ok (tt, assert_failed text s).

Definition mod_log_error (text name : string) : M unit := fun s =>
  Ok (tt, logged (log_error text name) s).

(** [m_used_user_types.push_back(sym)]. *)
Definition push_used_user_type (sym : string) : M unit := fun s =>
  Ok (tt, pushed sym s).

(** [declare_parameter]: [m_param_map[init] = sym]. *)
Definition declare_parameter (sym : string) (init : IExpression)
    (s : Mdl_ast_builder) : Mdl_ast_builder :=
  {| m_trans := m_trans s; m_tmp_idx := m_tmp_idx s;
     m_param_map := <[expr_addr init := sym]> (m_param_map s);
     m_args := m_args s;
     m_used_user_types := m_used_user_types s;
     mod_log := mod_log s;
     failed_asserts := failed_asserts s |}.

(** [remove_parameters]: [m_param_map.clear()]. *)
Definition remove_parameters (s : Mdl_ast_builder) : Mdl_ast_builder :=
  {| m_trans := m_trans s; m_tmp_idx := m_tmp_idx s;
     m_param_map := ∅;
     m_args := m_args s;
     m_used_user_types := m_used_user_types s;
     mod_log := mod_log s;
     failed_asserts := failed_asserts s |}.

(** The constructor: a fresh builder on a transaction and an argument
    list. *)
Definition new_builder (trans : Transaction) (args : IExpression_list)
  : Mdl_ast_builder :=
  {| m_trans := trans; m_tmp_idx := 0; m_param_map := ∅; m_args := args;
     m_used_user_types := []; mod_log := []; failed_asserts := [] |}.

(** [get_temporary_symbol]: the name "tmp" followed by the counter, which
    is incremented (an [unsigned]). *)
Definition get_temporary_symbol : M string := fun s =>
  Ok ("tmp" +:+ pretty (m_tmp_idx s),
      {| m_trans := m_trans s;
         m_tmp_idx := to_unsigned (m_tmp_idx s + 1);
         m_param_map := m_param_map s; m_args := m_args s;
         m_used_user_types := m_used_user_types s;
         mod_log := mod_log s;
         failed_asserts := failed_asserts s |}).

(** ** Names *)

Definition has_scope_separator (name : string) : bool :=
  match Cstr.strstr name "::" with
  | Some _ => true
  | None => false
  end.

(** [create_simple_name]. *)
Definition create_simple_name (name : string) : M string :=
  ASSERT (negb (has_scope_separator name)) "strstr(name, ::) == NULL" ;;
  mret name.

(** The leading scope marker, taken off only when something follows it:
    [name.size() > 2 && name[0] == ':' && name[1] == ':']. *)
Definition strip_absolute (name : string) : bool * string :=
  match name with
  | String a (String b (String c r)) =>
      if Ascii.eqb a ":" && Ascii.eqb b ":"
      then (true, String c r) else (false, name)
  | _ => (false, name)
  end.

Fixpoint add_simple_names (q : IQualified_name) (names : list string)
  : M IQualified_name :=
  match names with
  | [] => mret q
  | n :: rest =>
      sname ← create_simple_name n;
      add_simple_names (add_component q sname) rest
  end.

(** [create_qualified_name]. *)
Definition create_qualified_name (name : string) : M IQualified_name :=
  let '(abs, rest) := strip_absolute name in
  let qname := if abs then set_absolute empty_qualified_name
               else empty_qualified_name in
  add_simple_names qname (Cstr.split_scope "" rest).

(** [create_scope_name]: as [create_qualified_name], without the piece
    after the last separator. *)
Definition create_scope_name (name : string) : M IQualified_name :=
  let '(abs, rest) := strip_absolute name in
  let qname := if abs then set_absolute empty_qualified_name
               else empty_qualified_name in
  add_simple_names qname (removelast (Cstr.split_scope "" rest)).

(** [to_simple_name]. *)
Definition to_simple_name (name : string) : string := name.

(** [to_reference(qname, type)]. *)
Definition to_reference (qname : IQualified_name) (type : option mdl_IType)
  : mdl_IExpression :=
  E_reference
    (match type with
     | Some t => set_type (create_type_name_of qname) t
     | None => create_type_name_of qname
     end).

(** [to_reference(sym)]. *)
Definition to_reference_sym (sym : string) : mdl_IExpression :=
  to_reference (add_component empty_qualified_name (to_simple_name sym)) None.

(** [get_field_sym]: the field symbol of a [DS_INTRINSIC_DAG_FIELD_ACCESS]
    callee name. *)
Definition get_field_sym (def : string) : option string :=
  let p := Cstr.strstr def ".mdle::" in
  let dot := Cstr.strchr (match p with
                          | Some p' => Cstr.drop 7 p'
                          | None => def
                          end) "." in
  match dot with
  | Some d => Some (Cstr.drop 1 d)
  | None => None
  end.

(** ** Types *)

(** [get_type_name]: the name of a neuray type. *)
Fixpoint get_type_name (type : IType) : M string :=
  match type with
  | TK_ALIAS _ _ => ASSERT false "unexpected type kind" ;; mret ""
  | TK_BOOL => mret "bool"
  | TK_INT => mret "int"
  | TK_ENUM e_tp => mret (e_symbol e_tp)
  | TK_FLOAT => mret "float"
  | TK_DOUBLE => mret "double"
  | TK_STRING => mret "string"
  | TK_LIGHT_PROFILE => mret "light_profile"
  | TK_BSDF => mret "bsdf"
  | TK_EDF => mret "edf"
  | TK_VDF => mret "vdf"
  | TK_VECTOR a_tp size =>
      res ← get_type_name a_tp;
      mret (res +:+ pretty (to_unsigned size))
  | TK_MATRIX a_tp rows cols =>
      res ← get_type_name a_tp;
      mret (res +:+ pretty (to_unsigned cols) +:+ "x"
                +:+ pretty (to_unsigned rows))
  | TK_COLOR => mret "color"
  | TK_STRUCT s_tp =>
      mret (match s_predefined_id s_tp with
            | SID_USER => s_symbol s_tp
            | SID_MATERIAL_EMISSION => "material_emission"
            | SID_MATERIAL_SURFACE => "material_surface"
            | SID_MATERIAL_VOLUME => "material_volume"
            | SID_MATERIAL_GEOMETRY => "material_geometry"
            | SID_MATERIAL => "material"
            end)
  | TK_TEXTURE shape =>
      mret (match shape with
            | TS_2D => "texture_2d"
            | TS_3D => "texture_3d"
            | TS_CUBE => "texture_cube"
            | TS_PTEX => "texture_ptex"
            end)
  | TK_BSDF_MEASUREMENT => mret "bsdf_measurement"
  | TK_ARRAY e_tp size =>
      res ← get_type_name e_tp;
      mret (res +:+ "["
                +:+ match size with
                    | Immediate_size n => pretty (to_unsigned n)
                    | Deferred_size d => d
                    end
                +:+ "]")
  end.

Definition apply_modifiers (modifiers : Modifiers) (tn : IType_name)
  : IType_name :=
  if MK_UNIFORM modifiers then set_qualifier tn FQ_UNIFORM
  else if MK_VARYING modifiers then set_qualifier tn FQ_VARYING
  else tn.

(** [create_type_name], walking the alias chain while collecting its
    modifiers: [modifiers] are those of the aliases already skipped. *)
Fixpoint create_type_name_with (modifiers : Modifiers) (t : IType)
  : M IType_name :=
  match t with
  | TK_ALIAS a m => create_type_name_with (or_modifiers modifiers m) a
  | TK_ARRAY e_tp size =>
      tn ← create_type_name_with no_modifiers e_tp;
      let tn := apply_modifiers modifiers tn in
      match size with
      | Immediate_size n =>
          mret (set_array_size tn (Size_literal (to_int (Z.of_N n))))
      | Deferred_size d =>
          mret (set_array_size tn
                  (Size_reference (add_component empty_qualified_name d)))
      end
  | _ =>
      name ← get_type_name t;
      qname ← create_qualified_name name;
      mret (apply_modifiers modifiers (create_type_name_of qname))
  end.

Definition create_type_name (t : IType) : M IType_name :=
  create_type_name_with no_modifiers t.

(** [transform_type]: a neuray type that is not user defined to an MDL
    type; the null pointer for a user defined one. *)
Fixpoint transform_type (type : IType) : M (option mdl_IType) :=
  match type with
  | TK_ALIAS _ _ | TK_ENUM _ | TK_ARRAY _ _ | TK_STRUCT _ =>
      ASSERT false "user defined types not allowed here" ;; mret None
  | TK_BOOL => mret (Some T_bool)
  | TK_INT => mret (Some T_int)
  | TK_FLOAT => mret (Some T_float)
  | TK_DOUBLE => mret (Some T_double)
  | TK_STRING => mret (Some T_string)
  | TK_VECTOR e_tp size =>
      a ← transform_type e_tp;
      a_tp ← deref a;
      mret (Some (T_vector a_tp (to_int (Z.of_N size))))
  | TK_MATRIX e_tp rows cols =>
      a ← transform_type e_tp;
      a_tp ← deref a;
      mret (Some (T_matrix (T_vector a_tp (to_int (Z.of_N rows)))
                    (to_int (Z.of_N cols))))
  | TK_COLOR => mret (Some T_color)
  | TK_TEXTURE shape => mret (Some (T_texture shape))
  | TK_LIGHT_PROFILE => mret (Some T_light_profile)
  | TK_BSDF_MEASUREMENT => mret (Some T_bsdf_measurement)
  | TK_BSDF => mret (Some T_bsdf)
  | TK_EDF => mret (Some T_edf)
  | TK_VDF => mret (Some T_vdf)
  end.

(** [convert_enum_type]. *)
Definition convert_enum_type (e_tp : IType_enum) : mdl_IType :=
  match e_predefined_id e_tp with
  | EID_USER => T_enum (e_symbol e_tp) (e_values e_tp)
  | EID_TEX_GAMMA_MODE => T_predefined_enum EID_TEX_GAMMA_MODE
  | EID_INTENSITY_MODE => T_predefined_enum EID_INTENSITY_MODE
  end.

(** ** Resources *)

Definition access_texture (trans : Transaction) (tag : Tag)
  : M (Tag * Float32) :=
  match db_elements trans !! tag with
  | Some (Texture image_tag gamma) => mret (image_tag, gamma)
  | _ => fault
  end.

Definition access_original_filename (trans : Transaction) (tag : Tag)
  : M string :=
  match db_elements trans !! tag with
  | Some (Image f) | Some (Lightprofile f) | Some (Bsdf_measurement f) =>
      mret f
  | _ => fault
  end.

(** The gamma value of a texture as an MDL gamma mode. *)
Definition classify_gamma (gamma_override : Float32) : Gamma_mode :=
  if SFeqb gamma_override F32.one then gamma_linear
  else if SFeqb gamma_override F32.two_point_two then gamma_srgb
  else gamma_default.

(** [get_texture_resource_name_and_gamma]: the resource name and, through
    the reference parameter, the gamma mode. *)
Definition get_texture_resource_name_and_gamma (trans : Transaction)
    (tag : Tag) : M (string * Gamma_mode) :=
  if decide (get_class_id trans tag ≠ ID_TEXTURE) then
    mod_log_error "Incorrect type for texture resource"
                  (default "" (tag_to_name trans tag)) ;;
    mret ("", gamma_default)
  else
    texture ← access_texture trans tag;
    let image_tag := texture.1 in
    if tag_is_invalid image_tag then mret ("", gamma_default)
    else if decide (get_class_id trans image_tag ≠ ID_IMAGE) then
      mod_log_error "Incorrect type for image resource"
                    (default "" (tag_to_name trans image_tag)) ;;
      mret ("", gamma_default)
    else
      let gamma_mode := classify_gamma texture.2 in
      name ← access_original_filename trans image_tag;
      mret (name, gamma_mode).

(** [get_light_profile_resource_name]. *)
Definition get_light_profile_resource_name (trans : Transaction)
    (tag : Tag) : M string :=
  if decide (get_class_id trans tag ≠ ID_LIGHTPROFILE) then
    mod_log_error "Incorrect type for light profile resource"
                  (default "" (tag_to_name trans tag)) ;;
    mret ""
  else access_original_filename trans tag.

(** [get_bsdf_measurement_resource_name]. *)
Definition get_bsdf_measurement_resource_name (trans : Transaction)
    (tag : Tag) : M string :=
  if decide (get_class_id trans tag ≠ ID_BSDF_MEASUREMENT) then
    mod_log_error "Incorrect type for BSDF measurement resource"
                  (default "" (tag_to_name trans tag)) ;;
    mret ""
  else access_original_filename trans tag.

Definition string_empty (s : string) : bool :=
  match s with EmptyString => true | _ => false end.

(** ** Values *)

(** The reference to one of the enumerators [::tex::gamma_*]. *)
Definition gamma_mode_reference (gamma : Gamma_mode) : mdl_IExpression :=
  let sym := match gamma with
             | gamma_default => "gamma_default"
             | gamma_linear => "gamma_linear"
             | gamma_srgb => "gamma_srgb"
             end in
  let qname := set_absolute
                 (add_component (add_component empty_qualified_name "tex")
                    sym) in
  to_reference qname (Some (T_predefined_enum EID_TEX_GAMMA_MODE)).

(** [transform_value]. *)
Fixpoint transform_value (value : IValue) : M mdl_IExpression :=
  let fix transform_elements (call : mdl_IExpression) (vs : list IValue)
      : M mdl_IExpression :=
    match vs with
    | [] => mret call
    | e_v :: rest =>
        e ← transform_value e_v;
        transform_elements (add_argument call (positional_argument e)) rest
    end in
  match value with
  | VK_BOOL b => mret (E_literal (V_bool b))
  | VK_INT i => mret (E_literal (V_int i))
  | VK_ENUM e_tp index =>
      v_name ← deref (fst <$> e_values e_tp !! index);
      sname ← create_simple_name v_name;
      qname ← create_scope_name (e_symbol e_tp);
      let qname := add_component qname sname in
      mret (to_reference qname (Some (convert_enum_type e_tp)))
  | VK_FLOAT f => mret (E_literal (V_float f))
  | VK_DOUBLE d => mret (E_literal (V_double d))
  | VK_STRING s => mret (E_literal (V_string s))
  | VK_COMPOUND _ c_tp elements =>
      tn ← create_type_name c_tp;
      transform_elements (create_call (E_reference tn)) elements
  | VK_ARRAY e_tp _ elements =>
      tn ← create_type_name e_tp;
      transform_elements
        (create_call (E_reference (set_incomplete_array tn))) elements
  | VK_INVALID_DF type =>
      r_tp ← transform_type type;
      mret (E_literal (V_invalid_ref r_tp))
  | VK_TEXTURE shape tag =>
      let type := TK_TEXTURE shape in
      tn ← create_type_name type;
      let call := create_call (E_reference tn) in
      trans ← gets m_trans;
      let class_id := if tag_is_invalid tag then ID_NONE
                      else get_class_id trans tag in
      if tag_is_invalid tag || bool_decide (class_id ≠ ID_TEXTURE) then
        r_tp ← transform_type type;
        mret (E_literal (V_invalid_ref r_tp))
      else
        res ← get_texture_resource_name_and_gamma trans tag;
        let url := res.1 in
        let gamma := res.2 in
        if string_empty url then
          texture ← access_texture trans tag;
          let image_tag := texture.1 in
          let image_tag_version := get_tag_version trans image_tag in
          t_tp ← transform_type type;
          let tag_version := get_tag_version trans tag in
          mret (E_literal
                  (V_texture t_tp "" gamma tag
                     (get_hash_texture None F32.zero tag_version
                        image_tag_version)))
        else
          let call :=
            add_argument call (positional_argument (E_literal (V_string url)))
          in
          mret (add_argument call
                  (positional_argument (gamma_mode_reference gamma)))
  | VK_LIGHT_PROFILE tag =>
      let type := TK_LIGHT_PROFILE in
      tn ← create_type_name type;
      let call := create_call (E_reference tn) in
      if tag_is_invalid tag then
        r_tp ← transform_type type;
        mret (E_literal (V_invalid_ref r_tp))
      else
        trans ← gets m_trans;
        url ← get_light_profile_resource_name trans tag;
        if string_empty url then
          let tag_version := get_tag_version trans tag in
          lp_tp ← transform_type type;
          mret (E_literal
                  (V_light_profile lp_tp "" tag
                     (get_hash_resource None tag_version)))
        else
          mret (add_argument call
                  (positional_argument (E_literal (V_string url))))
  | VK_BSDF_MEASUREMENT tag =>
      let type := TK_BSDF_MEASUREMENT in
      tn ← create_type_name type;
      let call := create_call (E_reference tn) in
      if tag_is_invalid tag then
        r_tp ← transform_type type;
        mret (E_literal (V_invalid_ref r_tp))
      else
        trans ← gets m_trans;
        url ← get_bsdf_measurement_resource_name trans tag;
        if string_empty url then
          let tag_version := get_tag_version trans tag in
          bm_tp ← transform_type type;
          mret (E_literal
                  (V_bsdf_measurement bm_tp "" tag
                     (get_hash_resource None tag_version)))
        else
          mret (add_argument call
                  (positional_argument (E_literal (V_string url))))
  end.

(** ** Calls *)

(** [for (i = start; i < start + count; ++i) acc = body(i, acc);] *)
Fixpoint for_loop {A} (count : nat) (i : nat) (body : nat -> A -> M A)
    (acc : A) : M A :=
  match count with
  | O => mret acc
  | S count' => acc' ← body i acc; for_loop count' (S i) body acc'
  end.

(** The first lines of [transform_call]: remember the symbol of a user
    defined return type. *)
Definition record_used_user_type (ret_type : IType) : M unit :=
  match skip_all_type_aliases ret_type with
  | TK_STRUCT s_tp =>
      match s_predefined_id s_tp with
      | SID_USER => push_used_user_type (s_symbol s_tp)
      | _ => mret tt
      end
  | TK_ENUM e_tp =>
      match e_predefined_id e_tp with
      | EID_INTENSITY_MODE => mret tt
      | _ => push_used_user_type (e_symbol e_tp)
      end
  | _ => mret tt
  end.

(** An argument of the given name, named or positional as the call is. *)
Definition wrap_argument (named_args : bool) (name : string)
    (expr : mdl_IExpression) : IArgument mdl_IExpression :=
  if named_args then named_argument (to_simple_name name) expr
  else positional_argument expr.

Section Transform_call.

(** The recursive call to [transform_expr]. *)
Variable transform_expr : IExpression -> M mdl_IExpression.

(** [transform_expr(args->get_expression(i))]. *)
Definition transform_argument (args : IExpression_list) (i : nat)
  : M mdl_IExpression :=
  nr_arg ← deref (get_expression args i);
  transform_expr nr_arg.

(** A supplied argument, named [args->get_name(i)] or positional. *)
Definition supplied_argument (named_args : bool) (args : IExpression_list)
    (i : nat) (expr : mdl_IExpression) : M (IArgument mdl_IExpression) :=
  if named_args then
    name ← deref (get_name args i);
    mret (named_argument (to_simple_name name) expr)
  else mret (positional_argument expr).

(** [state::texture_tangent_u(0)]. *)
Definition tangent_u_call : M mdl_IExpression :=
  tu_qname ← create_qualified_name "state::texture_tangent_u";
  mret (add_argument (create_call (to_reference tu_qname None))
          (positional_argument (E_literal (V_int 0)))).

(** Operator semantics. *)
Definition transform_operator (op : Operator) (args : IExpression_list)
  : M mdl_IExpression :=
  match op with
  | Op_unary u =>
      arg ← transform_argument args 0;
      mret (E_unary u arg)
  | Op_binary bop =>
      l ← transform_argument args 0;
      r ← transform_argument args 1;
      mret (E_binary bop l r)
  | OK_TERNARY =>
      cond ← transform_argument args 0;
      true_res ← transform_argument args 1;
      false_res ← transform_argument args 2;
      mret (E_conditional cond true_res false_res)
  end.

(** The MDL 1.X to MDL 1.LATEST conversions; [None] when the first
    [switch] is left by [break]. *)
Definition convert_to_latest (sema : Semantics) (callee_name : string)
    (n_params : nat) (args : IExpression_list) (named_args : bool)
  : M (option mdl_IExpression) :=
  match sema with
  | DS_INTRINSIC_DF_MEASURED_EDF =>
      if decide (n_params = 4) then
        tu_call ← tangent_u_call;
        qname ← create_qualified_name (remove_deprecated callee_name);
        let call := create_call (to_reference qname None) in
        res ← for_loop n_params 0
                (fun i (st : nat * mdl_IExpression) =>
                   let st :=
                     if decide (st.1 = 1) then
                       (S st.1,
                        add_argument st.2
                          (wrap_argument named_args "multiplier"
                             (E_literal (V_float F32.one))))
                     else if decide (st.1 = 4) then
                       (S st.1,
                        add_argument st.2
                          (wrap_argument named_args "tangent_u"
                             tu_call))
                     else st in
                   expr ← transform_argument args i;
                   arg ← supplied_argument named_args args i expr;
                   mret (S st.1, add_argument st.2 arg))
                (0, call);
        mret (Some res.2)
      else if decide (n_params = 5) then
        tu_call ← tangent_u_call;
        qname ← create_qualified_name (remove_deprecated callee_name);
        let call := create_call (to_reference qname None) in
        res ← for_loop n_params 0
                (fun i (st : nat * mdl_IExpression) =>
                   let st :=
                     if decide (st.1 = 4) then
                       (S st.1,
                        add_argument st.2
                          (wrap_argument named_args "tangent_u"
                             tu_call))
                     else st in
                   expr ← transform_argument args i;
                   arg ← supplied_argument named_args args i expr;
                   mret (S st.1, add_argument st.2 arg))
                (0, call);
        mret (Some res.2)
      else mret None
  | DS_INTRINSIC_DF_FRESNEL_LAYER =>
      match Cstr.rfind callee_name "$" with
      | Some _ =>
          qname ← create_qualified_name "::df::color_fresnel_layer";
          let call := create_call (to_reference qname None) in
          res ← for_loop n_params 0
                  (fun i call =>
                     expr ← transform_argument args i;
                     expr ← (if decide (i = 1) then
                               qname ← create_qualified_name "color";
                               mret (add_argument
                                       (create_call
                                          (to_reference qname None))
                                       (positional_argument expr))
                             else mret expr);
                     arg ← supplied_argument named_args args i expr;
                     mret (add_argument call arg))
                  call;
          mret (Some res)
      | None => mret None
      end
  | DS_INTRINSIC_DF_SPOT_EDF =>
      if decide (n_params = 4) then
        qname ← create_qualified_name (remove_deprecated callee_name);
        let call := create_call (to_reference qname None) in
        res ← for_loop n_params 0
                (fun i call =>
                   let call :=
                     if decide (i = 1) then
                       add_argument call
                         (wrap_argument named_args "spread"
                            (E_literal (V_float F32.pi)))
                     else call in
                   expr ← transform_argument args i;
                   arg ← supplied_argument named_args args i expr;
                   mret (add_argument call arg))
                call;
        mret (Some res)
      else mret None
  | DS_INTRINSIC_STATE_ROUNDED_CORNER_NORMAL =>
      if decide (n_params = 2) then
        qname ← create_qualified_name (remove_deprecated callee_name);
        let call := create_call (to_reference qname None) in
        res ← for_loop n_params 0
                (fun i call =>
                   expr ← transform_argument args i;
                   arg ← supplied_argument named_args args i expr;
                   mret (add_argument call arg))
                call;
        mret (Some (add_argument res
                      (wrap_argument named_args "roundness"
                         (E_literal (V_float F32.one)))))
      else mret None
  | DS_INTRINSIC_TEX_WIDTH | DS_INTRINSIC_TEX_HEIGHT =>
      if decide (n_params = 1) then
        qname ← create_qualified_name (remove_deprecated callee_name);
        let call := create_call (to_reference qname None) in
        expr ← transform_argument args 0;
        arg ← supplied_argument named_args args 0 expr;
        let call := add_argument call arg in
        if is_tex_2d (mdl_get_type expr) then
          mret (Some (add_argument call
                        (wrap_argument named_args "uv_tile"
                           (E_literal create_int2_zero))))
        else mret (Some call)
      else mret None
  | DS_INTRINSIC_TEX_TEXEL_FLOAT | DS_INTRINSIC_TEX_TEXEL_FLOAT2
  | DS_INTRINSIC_TEX_TEXEL_FLOAT3 | DS_INTRINSIC_TEX_TEXEL_FLOAT4
  | DS_INTRINSIC_TEX_TEXEL_COLOR =>
      if decide (n_params = 2) then
        qname ← create_qualified_name (remove_deprecated callee_name);
        let call := create_call (to_reference qname None) in
        tex_expr ← transform_argument args 0;
        arg ← supplied_argument named_args args 0 tex_expr;
        let call := add_argument call arg in
        expr ← transform_argument args 1;
        arg ← supplied_argument named_args args 1 expr;
        let call := add_argument call arg in
        if is_tex_2d (mdl_get_type tex_expr) then
          mret (Some (add_argument call
                        (wrap_argument named_args "uv_tile"
                           (E_literal create_int2_zero))))
        else mret (Some call)
      else mret None
  | _ => mret None
  end.

(** The second [switch] of [transform_call]: the DAG intrinsics and the
    plain call. *)
Definition transform_structural (ret_type : IType) (sema : Semantics)
    (callee_name : string) (n_params : nat) (args : IExpression_list)
    (named_args : bool) : M mdl_IExpression :=
  match sema with
  | DS_INTRINSIC_DAG_FIELD_ACCESS =>
      compound ← transform_argument args 0;
      match get_field_sym callee_name with
      | Some f_sym =>
          mret (E_binary OK_SELECT compound (to_reference_sym f_sym))
      | None =>
          ASSERT false
            "could not retrieve the field from a DAG_FIELD_ACCESS" ;;
          mret E_invalid
      end
  | DS_INTRINSIC_DAG_INDEX_ACCESS =>
      comp ← transform_argument args 0;
      index ← transform_argument args 1;
      mret (E_binary OK_ARRAY_INDEX comp index)
  | DS_INTRINSIC_DAG_ARRAY_CONSTRUCTOR =>
      match ret_type with
      | TK_ARRAY e_tp _ =>
          tn ← create_type_name e_tp;
          for_loop n_params 0
            (fun i call =>
               expr ← transform_argument args i;
               mret (add_argument call (positional_argument expr)))
            (create_call (E_reference tn))
      | _ => fault
      end
  | DS_INTRINSIC_DAG_ARRAY_LENGTH =>
      arg ← deref (get_expression args 0);
      match expr_type arg with
      | TK_ARRAY _ (Immediate_size size) =>
          mret (E_literal (V_int (to_int (Z.of_N size))))
      | TK_ARRAY _ (Deferred_size d) =>
          qname ← create_qualified_name d;
          mret (to_reference qname None)
      | _ =>
          ASSERT false "false" ;;
          mret E_invalid
      end
  | DS_INTRINSIC_DAG_SET_OBJECT_ID | DS_INTRINSIC_DAG_SET_TRANSFORMS =>
      ASSERT false "unexpected DAG intrinsic" ;;
      mret E_invalid
  | _ =>
      qname ← create_qualified_name callee_name;
      for_loop n_params 0
        (fun i call =>
           expr ← transform_argument args i;
           arg ← supplied_argument named_args args i expr;
           mret (add_argument call arg))
        (create_call (to_reference qname None))
  end.

(** [transform_call] after its first lines: operators, conversions,
    structural cases. *)
Definition transform_call_dispatch (ret_type : IType) (sema : Semantics)
    (callee_name : string) (n_params : nat) (args : IExpression_list)
    (named_args : bool) : M mdl_IExpression :=
  match sema with
  | DS_OP op => transform_operator op args
  | _ =>
      converted ← convert_to_latest sema callee_name n_params args
                    named_args;
      match converted with
      | Some call => mret call
      | None =>
          transform_structural ret_type sema callee_name n_params args
            named_args
      end
  end.

(** [transform_call]. *)
Definition transform_call (ret_type : IType) (sema : Semantics)
    (callee_name : string) (n_params : nat) (args : IExpression_list)
    (named_args : bool) : M mdl_IExpression :=
  record_used_user_type ret_type ;;
  transform_call_dispatch ret_type sema callee_name n_params args
    named_args.

End Transform_call.

(** ** Expressions *)

(** [transform_expr], with a budget [fuel] on the depth of the recursion
    through [transform_call] and through the argument list. *)
Fixpoint transform_expr (fuel : nat) (expr : IExpression)
  : M mdl_IExpression :=
  match fuel with
  | O => out_of_fuel
  | S fuel' =>
      param_map ← gets m_param_map;
      match param_map !! expr_addr expr with
      | Some sym => mret (to_reference_sym sym)
      | None =>
          match expr with
          | EK_CONSTANT _ v => transform_value v
          | EK_CALL _ type tag =>
              trans ← gets m_trans;
              match db_elements trans !! tag with
              | Some (Mdl_function_call def_tag args n_params) =>
                  match db_elements trans !! def_tag with
                  | Some (Mdl_function_definition name orig_sig sema _) =>
                      let def := dag_unmangle (default name orig_sig) in
                      transform_call (transform_expr fuel') type sema def
                        n_params args false
                  | _ => fault
                  end
              | Some (Mdl_material_instance def_tag args) =>
                  match db_elements trans !! def_tag with
                  | Some (Mdl_material_definition name orig_sig n_params) =>
                      let def := dag_unmangle (default name orig_sig) in
                      transform_call (transform_expr fuel') type DS_UNKNOWN
                        def n_params args true
                  | _ => fault
                  end
              | _ =>
                  ASSERT false "unsupported callee kind" ;;
                  mret E_invalid
              end
          | EK_DIRECT_CALL _ type tag args =>
              trans ← gets m_trans;
              match db_elements trans !! tag with
              | Some (Mdl_function_definition name orig_sig sema n_params) =>
                  let def := dag_unmangle (default name orig_sig) in
                  transform_call (transform_expr fuel') type sema def
                    n_params args false
              | Some (Mdl_material_definition name orig_sig n_params) =>
                  let def := dag_unmangle (default name orig_sig) in
                  transform_call (transform_expr fuel') type DS_UNKNOWN def
                    n_params args true
              | _ =>
                  ASSERT false "unsupported callee kind" ;;
                  mret E_invalid
              end
          | EK_PARAMETER _ _ index =>
              m_args ← gets m_args;
              match get_expression m_args index with
              | Some arg => transform_expr fuel' arg
              | None =>
                  ASSERT false "parameter has no argument" ;;
                  ASSERT false "unexpected expression kind" ;;
                  mret E_invalid
              end
          | EK_TEMPORARY _ _ _ =>
              ASSERT false "unexpected temporary" ;;
              ASSERT false "unexpected expression kind" ;;
              mret E_invalid
          end
      end
  end.

(** * Notions used in the statements *)

(** The last, respectively first, character is a colon. *)
Fixpoint ends_colon (s : string) : bool :=
  match s with
  | EmptyString => false
  | String a EmptyString => Ascii.eqb a ":"
  | String _ r => ends_colon r
  end.

Definition starts_colon (s : string) : bool :=
  match s with
  | String b _ => Ascii.eqb b ":"
  | EmptyString => false
  end.

(** The qualified name [create_qualified_name] builds. *)
Definition qualified_name_of (name : string) : IQualified_name :=
  {| qn_components := Cstr.split_scope "" (strip_absolute name).2;
     qn_absolute := (strip_absolute name).1 |}.

(** A computation that leaves [m_used_user_types] as it is whenever it
    returns. *)
Definition keeps_user_types {A} (m : M A) : Prop :=
  forall s a s',
    m s = Ok (a, s') -> m_used_user_types s' = m_used_user_types s.

(** A computation that only appends to [m_used_user_types] whenever it
    returns. *)
Definition grows_user_types {A} (m : M A) : Prop :=
  forall s a s',
    m s = Ok (a, s') ->
    exists added,
      m_used_user_types s' = (m_used_user_types s ++ added)%list.

(** Every result of the first computation is a result of the second. *)
Definition refines {A} (m1 m2 : M A) : Prop :=
  forall s a s', m1 s = Ok (a, s') -> m2 s = Ok (a, s').

(** Sample data: a transaction without records, integer constants. *)
Definition empty_transaction : Transaction :=
  {| db_elements := ∅; db_names := ∅; db_versions := ∅ |}.

Definition int_constant (addr : N) (i : Z) : IExpression :=
  EK_CONSTANT addr (VK_INT i).

(** A user defined struct type [::mod::surface_info]. *)
Definition user_struct : IType :=
  TK_STRUCT
    {| s_predefined_id := SID_USER; s_symbol := "::mod::surface_info" |}.

(** The part of a callee name in which the field is looked for: what
    follows the first module-path marker, or the whole name. *)
Definition after_mdle_marker (def : string) : string :=
  match Cstr.strstr def ".mdle::" with
  | Some p => Cstr.drop 7 p
  | None => def
  end.

(** [transformed_in_order rec exprs s results s']: transforming [exprs]
    from left to right, starting in [s], yields [results] and ends in
    [s']. *)
Fixpoint transformed_in_order (rec : IExpression -> M mdl_IExpression)
    (exprs : list IExpression) (s : Mdl_ast_builder)
    (results : list mdl_IExpression) (s' : Mdl_ast_builder) : Prop :=
  match exprs, results with
  | [], [] => s' = s
  | a :: exprs', e :: results' =>
      exists s1, rec a s = Ok (e, s1) /\
                 transformed_in_order rec exprs' s1 results' s'
  | _, _ => False
  end.

(** The number of operands of an operator and the expression it is
    lowered to. *)
Definition operand_count (op : Operator) : nat :=
  match op with
  | Op_unary _ => 1
  | Op_binary _ => 2
  | OK_TERNARY => 3
  end.

Definition operator_expression (op : Operator)
    (operands : list mdl_IExpression) : mdl_IExpression :=
  match op, operands with
  | Op_unary u, [arg] => E_unary u arg
  | Op_binary bop, [l; r] => E_binary bop l r
  | OK_TERNARY, [cond; true_res; false_res] =>
      E_conditional cond true_res false_res
  | _, _ => E_invalid
  end.

(** The reference expression on a qualified name: a type name without
    qualifier and array size on that name, with the given type. *)
Definition reference_of (qname : IQualified_name) (type : option mdl_IType)
  : mdl_IExpression :=
  E_reference
    {| tn_qname := qname; tn_qualifier := FQ_NONE; tn_array_size := None;
       tn_incomplete_array := false; tn_type := type |}.

(** The reference expression on a symbol: the relative name whose only
    component is the symbol, without type. *)
Definition symbol_reference (sym : string) : mdl_IExpression :=
  E_reference
    {| tn_qname := {| qn_components := [sym]; qn_absolute := false |};
       tn_qualifier := FQ_NONE; tn_array_size := None;
       tn_incomplete_array := false; tn_type := None |}.

(** [state::texture_tangent_u(0)]. *)
Definition texture_tangent_u_0 : mdl_IExpression :=
  E_call
    (E_reference
       {| tn_qname := {| qn_components := ["state"; "texture_tangent_u"];
                         qn_absolute := false |};
          tn_qualifier := FQ_NONE; tn_array_size := None;
          tn_incomplete_array := false; tn_type := None |})
    [positional_argument (E_literal (V_int 0))].

Definition measured_edf_arguments : IExpression_list :=
  [("profile", EK_CONSTANT 1 (VK_LIGHT_PROFILE 0%N));
   ("global_distribution", EK_CONSTANT 2 (VK_BOOL true));
   ("global_frame", int_constant 3 0);
   ("handle", EK_CONSTANT 4 (VK_STRING "glow"))].

(** A database with a texture without image (tag 7), a texture (tag 8) on
    the image "wood.png" (tag 9), and a record of another class (tag 5)
    under the name "lights". *)
Definition sample_transaction : Transaction :=
  {| db_elements :=
       <[7%N := Texture 0%N F32.two_point_two]>
         (<[8%N := Texture 9%N F32.two_point_two]>
            (<[9%N := Image "wood.png"]>
               (<[5%N := Other_element 42%N]> ∅)));
     db_names := <[5%N := "lights"]> ∅;
     db_versions := <[7%N := 3%N]> ∅ |}.

(** The field access of the scenario, as the database holds it: a
    function definition (tag 11) under the mangled name
    "....mdle::base.surface.scattering(...)", called directly on one
    argument. *)
Definition scattering_transaction : Transaction :=
  {| db_elements :=
       <[11%N := Mdl_function_definition
                   "....mdle::base.surface.scattering(...)" None
                   DS_INTRINSIC_DAG_FIELD_ACCESS 1]> ∅;
     db_names := ∅;
     db_versions := ∅ |}.

Definition scattering_access : IExpression :=
  EK_DIRECT_CALL 20 TK_BSDF 11 [("s", int_constant 1 7)].

(** Four integer arguments "a" to "d". *)
Definition four_arguments : IExpression_list :=
  [("a", int_constant 1 10); ("b", int_constant 2 20);
   ("c", int_constant 3 30); ("d", int_constant 4 40)].

(** The reference to a name given by its components. *)
Definition reference_to (absolute : bool) (components : list string)
  : mdl_IExpression :=
  E_reference
    {| tn_qname := {| qn_components := components;
                      qn_absolute := absolute |};
       tn_qualifier := FQ_NONE; tn_array_size := None;
       tn_incomplete_array := false; tn_type := None |}.

(** The builder on another transaction. *)
Definition with_transaction (trans : Transaction) (s : Mdl_ast_builder)
  : Mdl_ast_builder :=
  {| m_trans := trans; m_tmp_idx := m_tmp_idx s;
     m_param_map := m_param_map s; m_args := m_args s;
     m_used_user_types := m_used_user_types s;
     mod_log := mod_log s;
     failed_asserts := failed_asserts s |}.

(** ** Notions used in the further properties *)

(** The second builder is the first one with messages, violated assertions
    and user type symbols appended: the transaction, the counter of
    temporaries, the parameter map and the arguments are the same. *)
Definition only_appends (s s' : Mdl_ast_builder) : Prop :=
  m_trans s' = m_trans s /\
  m_tmp_idx s' = m_tmp_idx s /\
  m_param_map s' = m_param_map s /\
  m_args s' = m_args s /\
  (exists types, m_used_user_types s' = (m_used_user_types s ++ types)%list) /\
  (exists msgs, mod_log s' = (mod_log s ++ msgs)%list) /\
  (exists texts, failed_asserts s' = (failed_asserts s ++ texts)%list).

(** A computation that only appends, whenever it returns. *)
Definition appends {A} (m : M A) : Prop :=
  forall s a s', m s = Ok (a, s') -> only_appends s s'.

(** The pieces of a qualified name joined by the scope separator, and the
    name a qualified name stands for. *)
Fixpoint join_scope (pieces : list string) : string :=
  match pieces with
  | [] => ""
  | [p] => p
  | p :: rest => p +:+ "::" +:+ join_scope rest
  end.

Definition qualified_name_string (q : IQualified_name) : string :=
  (if qn_absolute q then "::" else "") +:+ join_scope (qn_components q).

(** The scope name [create_scope_name] builds: the qualified name without
    its last component. *)
Definition scope_name_of (name : string) : IQualified_name :=
  {| qn_components := removelast (Cstr.split_scope "" (strip_absolute name).2);
     qn_absolute := (strip_absolute name).1 |}.

(** The qualifier the modifiers of a type stand for: uniform before
    varying. *)
Definition qualifier_of (modifiers : Modifiers) : Qualifier :=
  if MK_UNIFORM modifiers then FQ_UNIFORM
  else if MK_VARYING modifiers then FQ_VARYING
  else FQ_NONE.

(** The type is an array type once its aliases are skipped. *)
Definition is_array_type (t : IType) : bool :=
  match skip_all_type_aliases t with
  | TK_ARRAY _ _ => true
  | _ => false
  end.

(** [values_in_order vs s es s']: materializing the values [vs] from left
    to right, starting in [s], yields [es] and ends in [s']. *)
Fixpoint values_in_order (vs : list IValue) (s : Mdl_ast_builder)
    (es : list mdl_IExpression) (s' : Mdl_ast_builder) : Prop :=
  match vs, es with
  | [], [] => s' = s
  | v :: vs', e :: es' =>
      exists s1, transform_value v s = Ok (e, s1) /\
                 values_in_order vs' s1 es' s'
  | _, _ => False
  end.

(** A float3 type and a transaction with a light profile (tag 4) of the
    file "lamp.ies" and a texture (tag 6) whose image tag (2) is that of a
    record of another class under the name "not_an_image". *)
Definition float3 : IType := TK_VECTOR TK_FLOAT 3.

Definition resource_transaction : Transaction :=
  {| db_elements :=
       <[4%N := Lightprofile "lamp.ies"]>
         (<[6%N := Texture 2%N F32.one]>
            (<[2%N := Other_element 17%N]>
               (<[8%N := Texture 9%N F32.one]>
                  (<[9%N := Image "wood.png"]> ∅))));
     db_names := <[2%N := "not_an_image"]> ∅;
     db_versions := <[6%N := 5%N]> (<[2%N := 7%N]> ∅) |}.

(** The arguments a loop over the supplied arguments adds: [w] makes the
    argument from the index, the name and the transformed expression. *)
Fixpoint arguments_from
    (w : nat -> string -> mdl_IExpression -> IArgument mdl_IExpression)
    (i : nat) (names : list string) (es : list mdl_IExpression)
  : list (IArgument mdl_IExpression) :=
  match names, es with
  | name :: names', e :: es' => w i name e :: arguments_from w (S i) names' es'
  | _, _ => []
  end.

(** The calls [transform_call] leaves as they are: the semantics is no
    operator and no DAG intrinsic, and no conversion is made for the number
    of parameters (for the fresnel layer: for the name). *)
Definition is_plain_call (sema : Semantics) (callee_name : string)
    (n_params : nat) : bool :=
  match sema with
  | DS_UNKNOWN | DS_OTHER _ => true
  | DS_INTRINSIC_DF_MEASURED_EDF =>
      negb (Nat.eqb n_params 4) && negb (Nat.eqb n_params 5)
  | DS_INTRINSIC_DF_FRESNEL_LAYER =>
      match Cstr.rfind callee_name "$" with
      | Some _ => false
      | None => true
      end
  | DS_INTRINSIC_DF_SPOT_EDF => negb (Nat.eqb n_params 4)
  | DS_INTRINSIC_STATE_ROUNDED_CORNER_NORMAL => negb (Nat.eqb n_params 2)
  | DS_INTRINSIC_TEX_WIDTH | DS_INTRINSIC_TEX_HEIGHT =>
      negb (Nat.eqb n_params 1)
  | DS_INTRINSIC_TEX_TEXEL_FLOAT | DS_INTRINSIC_TEX_TEXEL_FLOAT2
  | DS_INTRINSIC_TEX_TEXEL_FLOAT3 | DS_INTRINSIC_TEX_TEXEL_FLOAT4
  | DS_INTRINSIC_TEX_TEXEL_COLOR => negb (Nat.eqb n_params 2)
  | _ => false
  end.

(** The argument of the converted fresnel layer: the second one inside a
    call of the color constructor. *)
Definition fresnel_argument (named_args : bool) (i : nat) (name : string)
    (e : mdl_IExpression) : IArgument mdl_IExpression :=
  wrap_argument named_args name
    (if decide (i = 1)
     then E_call (reference_to false ["color"]) [positional_argument e]
     else e).

(** The DAG intrinsics reserved for lambda functions. *)
Definition is_reserved_intrinsic (sema : Semantics) : bool :=
  match sema with
  | DS_INTRINSIC_DAG_SET_OBJECT_ID | DS_INTRINSIC_DAG_SET_TRANSFORMS => true
  | _ => false
  end.

(** [n] successive calls of [get_temporary_symbol]. *)
Fixpoint temporary_symbols (n : nat) : M (list string) :=
  match n with
  | O => mret []
  | S n' =>
      sym ← get_temporary_symbol;
      syms ← temporary_symbols n';
      mret (sym :: syms)
  end.

(** A material instance (tag 30) of the material definition
    "::mod::plastic(color,float)" (tag 31), which is re-exported from
    "::base::plastic(color,float)", with its two arguments. *)
Definition material_transaction : Transaction :=
  {| db_elements :=
       <[30%N := Mdl_material_instance 31%N
                   [("tint", int_constant 1 10);
                    ("roughness", int_constant 2 20)]]>
         (<[31%N := Mdl_material_definition "::mod::plastic(color,float)"
                      (Some "::base::plastic(color,float)") 2]> ∅);
     db_names := ∅;
     db_versions := ∅ |}.

(** A user enum [::mod::Mode] with the values "fast" and "exact". *)
Definition user_enum : IType_enum :=
  {| e_predefined_id := EID_USER; e_symbol := "::mod::Mode";
     e_values := [("fast", 0%Z); ("exact", 1%Z)] |}.

(** * Properties *)

(** ** Running the monad *)

Lemma bind_Ok {A B} (m : M A) (f : A -> M B) s a s' :
  m s = Ok (a, s') -> (m ≫= f) s = f a s'.
Proof. intros H. unfold mbind, M_bind. now rewrite H. Qed.

Lemma bind_Ok_inv {A B} (m : M A) (f : A -> M B) s b s' :
  (m ≫= f) s = Ok (b, s') ->
  exists a s1, m s = Ok (a, s1) /\ f a s1 = Ok (b, s').
Proof.
  unfold mbind, M_bind. destruct (m s) as [[a s1]| |]; try discriminate.
  intros H. now exists a, s1.
Qed.

Lemma ret_Ok {A} (a : A) s : (mret a : M A) s = Ok (a, s).
Proof. reflexivity. Qed.

(** ** Qualified names never violate the assertion of
    [create_simple_name] *)

Lemma prefix_cons a s b r :
  String.prefix (String a s) (String b r) =
  if ascii_dec a b then String.prefix s r else false.
Proof. reflexivity. Qed.

Lemma prefix_empty_l s : String.prefix "" s = true.
Proof. destruct s; reflexivity. Qed.

Lemma ascii_dec_eqb {B} a b (x y : B) :
  (if ascii_dec a b then x else y) = if Ascii.eqb b a then x else y.
Proof.
  destruct (ascii_dec a b) as [->|Hne].
  - now rewrite Ascii.eqb_refl.
  - destruct (Ascii.eqb b a) eqn:E; [|reflexivity].
    apply Ascii.eqb_eq in E. congruence.
Qed.

Lemma prefix_separator s :
  String.prefix "::" s =
  match s with
  | String a r => Ascii.eqb a ":" && starts_colon r
  | EmptyString => false
  end.
Proof.
  destruct s as [|a r]; [reflexivity|].
  rewrite prefix_cons, ascii_dec_eqb.
  destruct (Ascii.eqb a ":"); [|reflexivity].
  destruct r as [|b r']; [reflexivity|].
  rewrite prefix_cons, ascii_dec_eqb, prefix_empty_l.
  unfold starts_colon. now destruct (Ascii.eqb b ":").
Qed.

Lemma has_scope_separator_cons c r :
  has_scope_separator (String c r) =
  (Ascii.eqb c ":" && starts_colon r) || has_scope_separator r.
Proof.
  unfold has_scope_separator.
  change (Cstr.strstr (String c r) "::")
    with (if String.prefix "::" (String c r) then Some (String c r)
          else Cstr.strstr r "::").
  rewrite prefix_separator.
  destruct (Ascii.eqb c ":" && starts_colon r); reflexivity.
Qed.

Lemma has_scope_separator_empty : has_scope_separator "" = false.
Proof. reflexivity. Qed.

Lemma starts_colon_snoc cur a :
  starts_colon (cur +:+ String a "") =
  match cur with
  | EmptyString => Ascii.eqb a ":"
  | _ => starts_colon cur
  end.
Proof. destruct cur; reflexivity. Qed.

Lemma has_scope_separator_snoc cur a :
  has_scope_separator (cur +:+ String a "") =
  has_scope_separator cur || (ends_colon cur && Ascii.eqb a ":").
Proof.
  induction cur as [|c r IH].
  - change ("" +:+ String a "") with (String a "").
    rewrite has_scope_separator_cons. simpl.
    now rewrite andb_false_r.
  - change (String c r +:+ String a "") with (String c (r +:+ String a "")).
    rewrite !has_scope_separator_cons, IH, starts_colon_snoc.
    destruct r as [|d r'].
    + rewrite has_scope_separator_empty. simpl.
      now destruct (Ascii.eqb c ":"), (Ascii.eqb a ":").
    + change (ends_colon (String c (String d r')))
        with (ends_colon (String d r')).
      rewrite orb_assoc. reflexivity.
Qed.

Lemma ends_colon_snoc cur a :
  ends_colon (cur +:+ String a "") = Ascii.eqb a ":".
Proof.
  induction cur as [|c r IH]; [reflexivity|].
  change (String c r +:+ String a "") with (String c (r +:+ String a "")).
  destruct r as [|d r']; [reflexivity|].
  exact IH.
Qed.

(** No piece of a split name holds a separator. *)
Lemma split_scope_pieces s :
  forall cur,
    has_scope_separator cur = false ->
    (ends_colon cur = true -> starts_colon s = false) ->
    Forall (fun p => has_scope_separator p = false)
           (Cstr.split_scope cur s).
Proof.
  assert (Hboth :
    (forall cur,
        has_scope_separator cur = false ->
        (ends_colon cur = true -> starts_colon s = false) ->
        Forall (fun p => has_scope_separator p = false)
               (Cstr.split_scope cur s)) /\
    (forall a cur,
        has_scope_separator cur = false ->
        (ends_colon cur = true -> Ascii.eqb a ":" = false) ->
        Forall (fun p => has_scope_separator p = false)
               (Cstr.split_scope cur (String a s)))).
  { induction s as [|b r IH].
    - split.
      + intros cur Hc _. simpl. constructor; [exact Hc|constructor].
      + intros a cur Hc Hend. simpl. constructor; [|constructor].
        rewrite has_scope_separator_snoc, Hc. simpl.
        destruct (ends_colon cur); [now rewrite Hend|reflexivity].
    - destruct IH as [IH1 IH2]. split.
      + intros cur Hc Hend. apply IH2; [exact Hc|exact Hend].
      + intros a cur Hc Hend.
        change (Cstr.split_scope cur (String a (String b r)))
          with (if Ascii.eqb a ":" && Ascii.eqb b ":"
                then cur :: Cstr.split_scope "" r
                else Cstr.split_scope (cur +:+ String a "") (String b r)).
        destruct (Ascii.eqb a ":" && Ascii.eqb b ":") eqn:Hab.
        * constructor; [exact Hc|]. apply IH1; [reflexivity|discriminate].
        * apply IH2.
          -- rewrite has_scope_separator_snoc, Hc. simpl.
             destruct (ends_colon cur); [now rewrite Hend|reflexivity].
          -- rewrite ends_colon_snoc. intros Ha. rewrite Ha in Hab.
             exact Hab. }
  intros cur. apply Hboth.
Qed.

Lemma add_simple_names_run names :
  forall q s,
    Forall (fun p => has_scope_separator p = false) names ->
    add_simple_names q names s =
    Ok ({| qn_components := qn_components q ++ names;
           qn_absolute := qn_absolute q |}, s).
Proof.
  induction names as [|n rest IH]; intros q s Hall.
  - simpl. rewrite app_nil_r. now destruct q.
  - inversion Hall as [|? ? Hn Hrest]; subst.
    change (add_simple_names q (n :: rest))
      with (create_simple_name n ≫=
              (fun sname => add_simple_names (add_component q sname) rest)).
    rewrite (bind_Ok _ _ s n s).
    + rewrite IH by exact Hrest. simpl. now rewrite <- app_assoc.
    + unfold create_simple_name, ASSERT, mbind, M_bind.
      now rewrite Hn.
Qed.

Lemma create_qualified_name_run name s :
  create_qualified_name name s = Ok (qualified_name_of name, s).
Proof.
  unfold create_qualified_name, qualified_name_of.
  destruct (strip_absolute name) as [abs rest]. simpl.
  rewrite add_simple_names_run.
  - now destruct abs.
  - apply split_scope_pieces; [reflexivity|discriminate].
Qed.

(** ** Computations that leave the used user types alone *)

Lemma keeps_ret {A} (a : A) : keeps_user_types (mret a : M A).
Proof. intros s a' s' H. now inversion H. Qed.

Lemma keeps_bind {A B} (m : M A) (f : A -> M B) :
  keeps_user_types m -> (forall a, keeps_user_types (f a)) ->
  keeps_user_types (m ≫= f).
Proof.
  intros Hm Hf s b s' H.
  apply bind_Ok_inv in H as (a & s1 & H1 & H2).
  rewrite (Hf a _ _ _ H2). exact (Hm _ _ _ H1).
Qed.

Lemma keeps_fault {A} : keeps_user_types (fault : M A).
Proof. intros s a s' H. discriminate. Qed.

Lemma keeps_gets {A} (f : Mdl_ast_builder -> A) : keeps_user_types (gets f).
Proof. intros s a s' H. now inversion H. Qed.

Lemma keeps_deref {A} (h : option A) : keeps_user_types (deref h).
Proof. destruct h; [apply keeps_ret|apply keeps_fault]. Qed.

Lemma keeps_ASSERT cond text : keeps_user_types (ASSERT cond text).
Proof. intros s a s' H. unfold ASSERT in H. destruct cond; now inversion H. Qed.

Lemma keeps_mod_log_error text name :
  keeps_user_types (mod_log_error text name).
Proof. intros s a s' H. now inversion H. Qed.

Lemma keeps_create_qualified_name name :
  keeps_user_types (create_qualified_name name).
Proof.
  intros s a s' H. rewrite create_qualified_name_run in H. now inversion H.
Qed.

Lemma keeps_for_loop {A} (body : nat -> A -> M A) count :
  (forall i acc, keeps_user_types (body i acc)) ->
  forall i acc, keeps_user_types (for_loop count i body acc).
Proof.
  intros Hbody. induction count as [|count IH]; intros i acc.
  - apply keeps_ret.
  - simpl. apply keeps_bind; [apply Hbody|]. intros acc'. apply IH.
Qed.

Lemma keeps_get_type_name t : keeps_user_types (get_type_name t).
Proof.
  induction t; simpl;
    repeat first [ apply keeps_ret
                 | apply keeps_ASSERT
                 | assumption
                 | apply keeps_bind; [|intros] ].
Qed.

Lemma keeps_create_type_name_with t :
  forall mods, keeps_user_types (create_type_name_with mods t).
Proof.
  induction t; intros mods; simpl;
    repeat first [ apply keeps_ret
                 | apply keeps_ASSERT
                 | apply keeps_create_qualified_name
                 | apply keeps_get_type_name
                 | apply keeps_bind; [|intros]
                 | match goal with
                   | IH : forall m, keeps_user_types _ |- _ => apply IH
                   | |- keeps_user_types (match ?x with _ => _ end) =>
                       destruct x
                   end ].
Qed.

Lemma keeps_create_type_name t : keeps_user_types (create_type_name t).
Proof. apply keeps_create_type_name_with. Qed.

Create HintDb keeps.

#[local] Hint Resolve keeps_ret keeps_fault keeps_gets keeps_deref
  keeps_ASSERT keeps_mod_log_error keeps_create_qualified_name
  keeps_create_type_name : keeps.

Section Keeps_call.

Variable rec : IExpression -> M mdl_IExpression.
Variable args : IExpression_list.
Hypothesis Hrec :
  forall i a, get_expression args i = Some a -> keeps_user_types (rec a).

Lemma keeps_transform_argument i :
  keeps_user_types (transform_argument rec args i).
Proof.
  unfold transform_argument.
  destruct (get_expression args i) as [a|] eqn:E; simpl.
  - intros s e s' H. exact (Hrec i a E s e s' H).
  - intros s e s' H. discriminate.
Qed.

Lemma keeps_supplied_argument named_args i expr :
  keeps_user_types (supplied_argument named_args args i expr).
Proof.
  unfold supplied_argument. destruct named_args; [|apply keeps_ret].
  apply keeps_bind; [apply keeps_deref|intros; apply keeps_ret].
Qed.

Lemma keeps_tangent_u_call : keeps_user_types tangent_u_call.
Proof.
  unfold tangent_u_call.
  apply keeps_bind; [apply keeps_create_qualified_name|].
  intros; apply keeps_ret.
Qed.

Ltac keeps_step :=
  first [ apply keeps_ret
        | apply keeps_fault
        | apply keeps_ASSERT
        | apply keeps_deref
        | apply keeps_create_qualified_name
        | apply keeps_create_type_name
        | apply keeps_transform_argument
        | apply keeps_supplied_argument
        | apply keeps_tangent_u_call
        | apply keeps_for_loop; intros
        | apply keeps_bind; [|intros]
        | match goal with
          | |- keeps_user_types (if ?b then _ else _) => destruct b
          | |- keeps_user_types (match ?x with _ => _ end) => destruct x
          end ].

Lemma keeps_transform_operator op :
  keeps_user_types (transform_operator rec op args).
Proof. unfold transform_operator. destruct op; repeat keeps_step. Qed.

Lemma keeps_convert_to_latest sema callee_name n_params named_args :
  keeps_user_types
    (convert_to_latest rec sema callee_name n_params args named_args).
Proof.
  unfold convert_to_latest. destruct sema; repeat keeps_step.
Qed.

Lemma keeps_transform_structural ret_type sema callee_name n_params
    named_args :
  keeps_user_types
    (transform_structural rec ret_type sema callee_name n_params args
       named_args).
Proof.
  unfold transform_structural. destruct sema; repeat keeps_step.
Qed.

(** After the return type is recorded, a call adds nothing of its
    own. *)
Lemma keeps_transform_call_dispatch ret_type sema callee_name n_params
    named_args :
  keeps_user_types
    (transform_call_dispatch rec ret_type sema callee_name n_params args
       named_args).
Proof.
  unfold transform_call_dispatch.
  pose proof keeps_transform_operator.
  pose proof keeps_convert_to_latest.
  pose proof keeps_transform_structural.
  destruct sema; auto; repeat keeps_step; auto.
Qed.

End Keeps_call.

(** ** The used user types only grow *)

Lemma keeps_grows {A} (m : M A) : keeps_user_types m -> grows_user_types m.
Proof.
  intros Hm s a s' H. exists []. rewrite app_nil_r. exact (Hm _ _ _ H).
Qed.

Lemma grows_bind {A B} (m : M A) (f : A -> M B) :
  grows_user_types m -> (forall a, grows_user_types (f a)) ->
  grows_user_types (m ≫= f).
Proof.
  intros Hm Hf s b s' H.
  apply bind_Ok_inv in H as (a & s1 & H1 & H2).
  destruct (Hm _ _ _ H1) as [l1 E1]. destruct (Hf a _ _ _ H2) as [l2 E2].
  exists (l1 ++ l2)%list. rewrite E2, E1. now rewrite <- app_assoc.
Qed.

Lemma grows_for_loop {A} (body : nat -> A -> M A) count :
  (forall i acc, grows_user_types (body i acc)) ->
  forall i acc, grows_user_types (for_loop count i body acc).
Proof.
  intros Hbody. induction count as [|count IH]; intros i acc.
  - apply keeps_grows, keeps_ret.
  - simpl. apply grows_bind; [apply Hbody|]. intros acc'. apply IH.
Qed.

Lemma keeps_add_simple_names names :
  forall q, keeps_user_types (add_simple_names q names).
Proof.
  induction names as [|n rest IH]; intros q; simpl.
  - apply keeps_ret.
  - apply keeps_bind; [|intros; apply IH].
    unfold create_simple_name.
    apply keeps_bind; [apply keeps_ASSERT|intros; apply keeps_ret].
Qed.

Lemma keeps_create_simple_name name :
  keeps_user_types (create_simple_name name).
Proof.
  unfold create_simple_name.
  apply keeps_bind; [apply keeps_ASSERT|intros; apply keeps_ret].
Qed.

Lemma keeps_create_scope_name name :
  keeps_user_types (create_scope_name name).
Proof.
  unfold create_scope_name. destruct (strip_absolute name).
  apply keeps_add_simple_names.
Qed.

Ltac keeps_leaf :=
  repeat first [ apply keeps_ret
               | apply keeps_fault
               | apply keeps_ASSERT
               | apply keeps_deref
               | apply keeps_gets
               | apply keeps_mod_log_error
               | apply keeps_create_qualified_name
               | apply keeps_create_simple_name
               | apply keeps_create_scope_name
               | apply keeps_create_type_name
               | solve [auto with keeps]
               | apply keeps_bind; [|intros]
               | match goal with
                 | |- keeps_user_types (if ?b then _ else _) => destruct b
                 | |- keeps_user_types (match ?x with _ => _ end) =>
                     destruct x
                 end ].

Lemma keeps_transform_type t : keeps_user_types (transform_type t).
Proof. induction t; simpl; keeps_leaf. Qed.

Lemma keeps_access_texture trans tag :
  keeps_user_types (access_texture trans tag).
Proof. unfold access_texture. keeps_leaf. Qed.

Lemma keeps_access_original_filename trans tag :
  keeps_user_types (access_original_filename trans tag).
Proof. unfold access_original_filename. keeps_leaf. Qed.

#[local] Hint Resolve keeps_transform_type keeps_access_texture
  keeps_access_original_filename : keeps.

Lemma keeps_get_texture_resource_name_and_gamma trans tag :
  keeps_user_types (get_texture_resource_name_and_gamma trans tag).
Proof.
  unfold get_texture_resource_name_and_gamma.
  keeps_leaf.
Qed.

Lemma keeps_get_light_profile_resource_name trans tag :
  keeps_user_types (get_light_profile_resource_name trans tag).
Proof.
  unfold get_light_profile_resource_name.
  keeps_leaf.
Qed.

Lemma keeps_get_bsdf_measurement_resource_name trans tag :
  keeps_user_types (get_bsdf_measurement_resource_name trans tag).
Proof.
  unfold get_bsdf_measurement_resource_name.
  keeps_leaf.
Qed.

#[local] Hint Resolve keeps_get_texture_resource_name_and_gamma
  keeps_get_light_profile_resource_name
  keeps_get_bsdf_measurement_resource_name : keeps.

Lemma keeps_transform_value : forall v, keeps_user_types (transform_value v).
Proof.
  fix IH 1. intros v.
  assert (Hel : forall vs call,
             Forall (fun v => keeps_user_types (transform_value v)) vs ->
             keeps_user_types
               ((fix transform_elements (call : mdl_IExpression)
                   (vs : list IValue) {struct vs} : M mdl_IExpression :=
                   match vs with
                   | [] => mret call
                   | e_v :: rest =>
                       e ← transform_value e_v;
                       transform_elements
                         (add_argument call (positional_argument e)) rest
                   end) call vs)).
  { induction vs as [|e_v rest IHvs]; intros call Hall.
    - apply keeps_ret.
    - inversion Hall; subst. apply keeps_bind; [assumption|].
      intros e. now apply IHvs. }
  destruct v as [b|i|e_tp index|f|d|str|k c_tp elements
                |e_tp size elements|r_tp|shape tag|tag|tag];
    cbn [transform_value].
  - apply keeps_ret.
  - apply keeps_ret.
  - clear IH Hel. keeps_leaf.
  - apply keeps_ret.
  - apply keeps_ret.
  - apply keeps_ret.
  - apply keeps_bind; [apply keeps_create_type_name|]. intros tn.
    apply Hel. clear Hel.
    induction elements as [|e_v rest IHel]; constructor;
      [apply IH|exact IHel].
  - apply keeps_bind; [apply keeps_create_type_name|]. intros tn.
    apply Hel. clear Hel.
    induction elements as [|e_v rest IHel]; constructor;
      [apply IH|exact IHel].
  - clear IH Hel. keeps_leaf.
  - clear IH Hel. keeps_leaf.
  - clear IH Hel. keeps_leaf.
  - clear IH Hel. keeps_leaf.
Qed.

Section Grows_call.

Variable rec : IExpression -> M mdl_IExpression.
Variable args : IExpression_list.
Hypothesis Hrec :
  forall i a, get_expression args i = Some a -> grows_user_types (rec a).

Lemma grows_transform_argument i :
  grows_user_types (transform_argument rec args i).
Proof.
  unfold transform_argument.
  destruct (get_expression args i) as [a|] eqn:E; simpl.
  - intros s e s' H. exact (Hrec i a E s e s' H).
  - intros s e s' H. discriminate.
Qed.

Ltac grows_step :=
  first [ apply grows_transform_argument
        | apply keeps_grows;
          first [ apply keeps_ret
                | apply keeps_fault
                | apply keeps_ASSERT
                | apply keeps_deref
                | apply keeps_create_qualified_name
                | apply keeps_create_type_name
                | apply keeps_supplied_argument
                | apply keeps_tangent_u_call ]
        | apply grows_for_loop; intros
        | apply grows_bind; [|intros]
        | match goal with
          | |- grows_user_types (if ?b then _ else _) => destruct b
          | |- grows_user_types (match ?x with _ => _ end) => destruct x
          end ].

Lemma grows_transform_call_dispatch ret_type sema callee_name n_params
    named_args :
  grows_user_types
    (transform_call_dispatch rec ret_type sema callee_name n_params args
       named_args).
Proof.
  unfold transform_call_dispatch, transform_operator, convert_to_latest,
    transform_structural.
  destruct sema; repeat grows_step.
Qed.

Lemma grows_record_used_user_type ret_type :
  grows_user_types (record_used_user_type ret_type).
Proof.
  intros s [] s' H. unfold record_used_user_type in H.
  destruct (skip_all_type_aliases ret_type) as
    [| | |e_tp| | | | | | | | | | |s_tp| | |];
    try (exists []; rewrite app_nil_r; now inversion H).
  - destruct (e_predefined_id e_tp);
      inversion H; subst; simpl; eauto.
    exists []. now rewrite app_nil_r.
  - destruct (s_predefined_id s_tp);
      inversion H; subst; simpl; eauto;
      exists []; now rewrite app_nil_r.
Qed.

Lemma grows_transform_call ret_type sema callee_name n_params named_args :
  grows_user_types
    (transform_call rec ret_type sema callee_name n_params args named_args).
Proof.
  unfold transform_call. apply grows_bind.
  - apply grows_record_used_user_type.
  - intros _. apply grows_transform_call_dispatch.
Qed.

End Grows_call.

(** The list of used user types only grows during a transformation. *)
Lemma used_user_types_only_grow fuel :
  forall expr, grows_user_types (transform_expr fuel expr).
Proof.
  induction fuel as [|fuel IH]; intros expr.
  - intros s e s' H. discriminate.
  - cbn [transform_expr].
    apply grows_bind; [apply keeps_grows, keeps_gets|]. intros param_map.
    destruct (param_map !! expr_addr expr); [apply keeps_grows, keeps_ret|].
    destruct expr as [addr v|addr type tag|addr type tag args
                     |addr type index|addr type index].
    + apply keeps_grows, keeps_transform_value.
    + apply grows_bind; [apply keeps_grows, keeps_gets|]. intros trans.
      repeat match goal with
             | |- grows_user_types (match ?x with _ => _ end) => destruct x
             end;
        try (apply grows_transform_call; intros; apply IH);
        try (apply keeps_grows, keeps_fault);
        apply keeps_grows;
        (apply keeps_bind; [apply keeps_ASSERT|intros; apply keeps_ret]).
    + apply grows_bind; [apply keeps_grows, keeps_gets|]. intros trans.
      repeat match goal with
             | |- grows_user_types (match ?x with _ => _ end) => destruct x
             end;
        try (apply grows_transform_call; intros; apply IH);
        apply keeps_grows;
        (apply keeps_bind; [apply keeps_ASSERT|intros; apply keeps_ret]).
    + apply grows_bind; [apply keeps_grows, keeps_gets|]. intros m_args.
      destruct (get_expression m_args index); [apply IH|].
      apply keeps_grows.
      repeat (apply keeps_bind; [apply keeps_ASSERT|intros]).
      apply keeps_ret.
    + apply keeps_grows.
      repeat (apply keeps_bind; [apply keeps_ASSERT|intros]).
      apply keeps_ret.
Qed.

(** ** The recursion budget *)

Lemma refines_refl {A} (m : M A) : refines m m.
Proof. intros s a s' H. exact H. Qed.

Lemma refines_bind {A B} (m1 m2 : M A) (f1 f2 : A -> M B) :
  refines m1 m2 -> (forall a, refines (f1 a) (f2 a)) ->
  refines (m1 ≫= f1) (m2 ≫= f2).
Proof.
  intros Hm Hf s b s' H.
  apply bind_Ok_inv in H as (a & s1 & H1 & H2).
  rewrite (bind_Ok _ _ _ _ _ (Hm _ _ _ H1)). exact (Hf a _ _ _ H2).
Qed.

Lemma refines_for_loop {A} (body1 body2 : nat -> A -> M A) count :
  (forall i acc, refines (body1 i acc) (body2 i acc)) ->
  forall i acc,
    refines (for_loop count i body1 acc) (for_loop count i body2 acc).
Proof.
  intros Hbody. induction count as [|count IH]; intros i acc.
  - apply refines_refl.
  - simpl. apply refines_bind; [apply Hbody|]. intros acc'. apply IH.
Qed.

Section Refines_call.

Variables rec1 rec2 : IExpression -> M mdl_IExpression.
Hypothesis Hrec : forall a, refines (rec1 a) (rec2 a).

Lemma refines_transform_argument args i :
  refines (transform_argument rec1 args i) (transform_argument rec2 args i).
Proof.
  unfold transform_argument.
  apply refines_bind; [apply refines_refl|]. intros a. apply Hrec.
Qed.

Ltac refines_step :=
  first [ apply refines_transform_argument
        | apply refines_refl
        | apply refines_for_loop; intros
        | apply refines_bind; [|intros]
        | match goal with
          | |- refines (if ?b then _ else _) _ => destruct b
          | |- refines (match ?x with _ => _ end) _ => destruct x
          end ].

Lemma refines_transform_call ret_type sema callee_name n_params args
    named_args :
  refines
    (transform_call rec1 ret_type sema callee_name n_params args named_args)
    (transform_call rec2 ret_type sema callee_name n_params args named_args).
Proof.
  unfold transform_call, transform_call_dispatch, transform_operator,
    convert_to_latest, transform_structural.
  apply refines_bind; [apply refines_refl|]. intros _.
  destruct sema; repeat refines_step.
Qed.

End Refines_call.

Lemma transform_expr_step fuel n :
  (forall expr, refines (transform_expr fuel expr) (transform_expr n expr)) ->
  forall expr,
    refines (transform_expr (S fuel) expr) (transform_expr (S n) expr).
Proof.
  intros IH expr. cbn [transform_expr].
  apply refines_bind; [apply refines_refl|]. intros param_map.
  destruct (param_map !! expr_addr expr); [apply refines_refl|].
  destruct expr as [addr v|addr type tag|addr type tag args
                   |addr type index|addr type index];
    try apply refines_refl.
  - apply refines_bind; [apply refines_refl|]. intros trans.
    repeat match goal with
           | |- refines (match ?x with _ => _ end) _ => destruct x
           end;
      try apply refines_refl;
      apply refines_transform_call; exact IH.
  - apply refines_bind; [apply refines_refl|]. intros trans.
    repeat match goal with
           | |- refines (match ?x with _ => _ end) _ => destruct x
           end;
      try apply refines_refl;
      apply refines_transform_call; exact IH.
  - apply refines_bind; [apply refines_refl|]. intros m_args.
    destruct (get_expression m_args index); [apply IH|apply refines_refl].
Qed.

(** More fuel does not change a result. *)
Lemma transform_expr_more_fuel fuel :
  forall expr,
    refines (transform_expr fuel expr) (transform_expr (S fuel) expr).
Proof.
  induction fuel as [|fuel IH].
  - intros expr s e s' H. discriminate.
  - now apply transform_expr_step.
Qed.

Lemma transform_expr_enough_fuel fuel fuel' expr s e s' :
  fuel <= fuel' ->
  transform_expr fuel expr s = Ok (e, s') ->
  transform_expr fuel' expr s = Ok (e, s').
Proof.
  intros Hle. induction Hle as [|fuel' Hle IH]; intros H; [exact H|].
  apply transform_expr_more_fuel. now apply IH.
Qed.

(** ** Field access *)

Lemma strchr_first_dot t f :
  Cstr.strchr t "." = None ->
  Cstr.strchr (t +:+ "." +:+ f) "." = Some ("." +:+ f).
Proof.
  induction t as [|c r IH]; intros H.
  - reflexivity.
  - simpl in *. destruct (Ascii.eqb c "."); [discriminate|]. now apply IH.
Qed.

Lemma get_field_sym_first_dot def t f :
  after_mdle_marker def = t +:+ "." +:+ f ->
  Cstr.strchr t "." = None ->
  get_field_sym def = Some f.
Proof.
  intros Htail Ht. unfold get_field_sym.
  fold (after_mdle_marker def). rewrite Htail.
  now rewrite (strchr_first_dot t f Ht).
Qed.

Lemma get_field_sym_no_dot def :
  Cstr.strchr (after_mdle_marker def) "." = None ->
  get_field_sym def = None.
Proof.
  intros H. unfold get_field_sym. fold (after_mdle_marker def).
  now rewrite H.
Qed.

(** C1, as the code has it: a field-access call becomes a select of the
    transformed first argument and the field symbol, where the field symbol
    is all that follows the first dot after the module-path marker (after
    the first dot of the name when there is no marker); it is the last
    dot-delimited component when no second dot follows.  Without such a
    dot the assertion is violated and the invalid expression is
    returned. *)
Theorem field_access_selects_after_first_dot
    fuel ret_type callee_name n_params args named_args a0 s s0 compound s1 :
  get_expression args 0 = Some a0 ->
  record_used_user_type ret_type s = Ok (tt, s0) ->
  transform_expr fuel a0 s0 = Ok (compound, s1) ->
  (forall t f,
      after_mdle_marker callee_name = t +:+ "." +:+ f ->
      Cstr.strchr t "." = None ->
      transform_call (transform_expr fuel) ret_type
        DS_INTRINSIC_DAG_FIELD_ACCESS callee_name n_params args named_args s
      = Ok (E_binary OK_SELECT compound (symbol_reference f), s1))
  /\ (Cstr.strchr (after_mdle_marker callee_name) "." = None ->
      transform_call (transform_expr fuel) ret_type
        DS_INTRINSIC_DAG_FIELD_ACCESS callee_name n_params args named_args s
      = Ok (E_invalid,
            assert_failed
              "could not retrieve the field from a DAG_FIELD_ACCESS" s1)).
Proof.
  intros Ha0 Hrecord Hcompound.
  assert (Hrun :
    transform_call (transform_expr fuel) ret_type
        DS_INTRINSIC_DAG_FIELD_ACCESS callee_name n_params args named_args s
    = (match get_field_sym callee_name with
       | Some f_sym =>
           mret (E_binary OK_SELECT compound (to_reference_sym f_sym))
       | None =>
           ASSERT false
             "could not retrieve the field from a DAG_FIELD_ACCESS" ;;
           mret E_invalid
       end) s1).
  { unfold transform_call.
    rewrite (bind_Ok _ _ _ _ _ Hrecord).
    unfold transform_call_dispatch.
    unfold convert_to_latest.
    rewrite (bind_Ok _ _ s0 None s0) by reflexivity.
    unfold transform_structural, transform_argument.
    rewrite Ha0. simpl deref.
    rewrite (bind_Ok _ _ s0 compound s1); [reflexivity|].
    rewrite (bind_Ok _ _ s0 a0 s0) by reflexivity. exact Hcompound. }
  split.
  - intros t f Htail Ht. rewrite Hrun.
    now rewrite (get_field_sym_first_dot _ _ _ Htail Ht).
  - intros Hnone. rewrite Hrun.
    now rewrite (get_field_sym_no_dot _ Hnone).
Qed.

Lemma field_access_selects_after_first_dot_witness :
  transform_call (transform_expr 1) TK_COLOR DS_INTRINSIC_DAG_FIELD_ACCESS
    (dag_unmangle "::/lib/wood.v2.mdle::main.tint(::/lib/wood.v2.mdle::main)")
    1 [("s", int_constant 1 7)] false (new_builder empty_transaction [])
  = Ok (E_binary OK_SELECT (E_literal (V_int 7)) (symbol_reference "tint"),
        new_builder empty_transaction []).
Proof.
  refine (proj1 (field_access_selects_after_first_dot 1 TK_COLOR _ 1
                   [("s", int_constant 1 7)] false (int_constant 1 7)
                   (new_builder empty_transaction [])
                   (new_builder empty_transaction [])
                   (E_literal (V_int 7))
                   (new_builder empty_transaction []) _ _ _) "main" "tint" _ _);
    reflexivity.
Defined.

(** C1, the scenario of the specification: for the callee name
    "....mdle::base.surface.scattering(...)" the field symbol is
    "surface.scattering", not "scattering". *)
Lemma field_access_scattering_counterexample :
  transform_expr 2 scattering_access (new_builder scattering_transaction [])
  = Ok (E_binary OK_SELECT (E_literal (V_int 7))
          (symbol_reference "surface.scattering"),
        new_builder scattering_transaction [])
  /\ get_field_sym (dag_unmangle "....mdle::base.surface.scattering(...)")
     = Some "surface.scattering"
  /\ ~ (exists fuel compound s',
         transform_expr fuel scattering_access
           (new_builder scattering_transaction [])
         = Ok (E_binary OK_SELECT compound (symbol_reference "scattering"),
               s')).
Proof.
  split; [reflexivity|]. split; [reflexivity|].
  intros (fuel & compound & s' & H).
  destruct fuel as [|[|fuel]]; discriminate H.
Qed.

(** ** The used user types *)

Lemma record_used_user_type_run ret_type s :
  exists s0, record_used_user_type ret_type s = Ok (tt, s0).
Proof.
  unfold record_used_user_type.
  destruct (skip_all_type_aliases ret_type) as
    [| | |e_tp| | | | | | | | | | |s_tp| | |]; try (now eexists).
  - destruct (e_predefined_id e_tp); now eexists.
  - destruct (s_predefined_id s_tp); now eexists.
Qed.

(** C2, as the code has it: the symbol of the return type is recorded on
    entry of [transform_call], whatever the semantics of the call, hence on
    every branch.  The list after the call is the list before it, followed
    by what the call itself records, followed by what transforming its
    arguments records (nothing, when these leave the list alone).  The call
    itself records the symbol of a user struct or of a user enum, and
    nothing when the return type is no struct and no enum, a predefined
    struct, or the intensity-mode enum.  Nothing is said here of the
    gamma-mode enum, which [transform_call] records like a user enum while
    [convert_enum_type] takes it for predefined. *)
Theorem used_user_types_recorded_on_every_branch
    fuel ret_type sema callee_name n_params args named_args s e s' :
  transform_call (transform_expr fuel) ret_type sema callee_name n_params
    args named_args s = Ok (e, s') ->
  exists own rest,
    m_used_user_types s' = (m_used_user_types s ++ own ++ rest)%list
    /\ match skip_all_type_aliases ret_type with
       | TK_STRUCT s_tp =>
           match s_predefined_id s_tp with
           | SID_USER => own = [s_symbol s_tp]
           | _ => own = []
           end
       | TK_ENUM e_tp =>
           match e_predefined_id e_tp with
           | EID_USER => own = [e_symbol e_tp]
           | EID_INTENSITY_MODE => own = []
           | EID_TEX_GAMMA_MODE => True
           end
       | _ => own = []
       end
    /\ ((forall i a, get_expression args i = Some a ->
                     keeps_user_types (transform_expr fuel a)) ->
        rest = []).
Proof.
  intros Hrun. unfold transform_call in Hrun.
  apply bind_Ok_inv in Hrun as ([] & s0 & Hrecord & Hdispatch).
  destruct (grows_transform_call_dispatch (transform_expr fuel) args
              (fun i a _ => used_user_types_only_grow fuel a)
              _ _ _ _ _ _ _ _ Hdispatch) as [rest Hrest].
  assert (Hown : exists own,
    m_used_user_types s0 = (m_used_user_types s ++ own)%list
    /\ match skip_all_type_aliases ret_type with
       | TK_STRUCT s_tp =>
           match s_predefined_id s_tp with
           | SID_USER => own = [s_symbol s_tp]
           | _ => own = []
           end
       | TK_ENUM e_tp =>
           match e_predefined_id e_tp with
           | EID_USER => own = [e_symbol e_tp]
           | EID_INTENSITY_MODE => own = []
           | EID_TEX_GAMMA_MODE => True
           end
       | _ => own = []
       end).
  { unfold record_used_user_type in Hrecord.
    destruct (skip_all_type_aliases ret_type) as
      [| | |e_tp| | | | | | | | | | |s_tp| | |];
      try (exists []; rewrite app_nil_r; now inversion Hrecord).
    - destruct (e_predefined_id e_tp); inversion Hrecord; subst; simpl.
      + now exists [e_symbol e_tp].
      + now exists [e_symbol e_tp].
      + exists []. now rewrite app_nil_r.
    - destruct (s_predefined_id s_tp); inversion Hrecord; subst; simpl;
        try (exists []; now rewrite app_nil_r).
      now exists [s_symbol s_tp]. }
  destruct Hown as (own & Hs0 & Hkind).
  exists own, rest. split; [|split].
  - rewrite Hrest, Hs0. now rewrite <- app_assoc.
  - exact Hkind.
  - intros Hargs.
    pose proof (keeps_transform_call_dispatch _ _ Hargs _ _ _ _ _ _ _ _
                  Hdispatch) as Hkeep.
    rewrite Hkeep in Hrest.
    apply (app_inv_head (m_used_user_types s0)).
    now rewrite app_nil_r.
Qed.

(** A ternary operator call that returns a user struct records the
    symbol of the struct. *)
Lemma used_user_types_recorded_on_every_branch_witness :
  exists own rest,
    ["::mod::surface_info"]
    = (m_used_user_types (new_builder empty_transaction []) ++ own ++ rest)%list
    /\ own = ["::mod::surface_info"]
    /\ ((forall i a,
           get_expression
             [("cond", int_constant 1 1); ("true_exp", int_constant 2 5);
              ("false_exp", int_constant 3 6)] i = Some a ->
           keeps_user_types (transform_expr 1 a)) ->
        rest = []).
Proof.
  exact (used_user_types_recorded_on_every_branch 1 user_struct
           (DS_OP OK_TERNARY) "operator?" 3
           [("cond", int_constant 1 1); ("true_exp", int_constant 2 5);
            ("false_exp", int_constant 3 6)] false
           (new_builder empty_transaction [])
           (E_conditional (E_literal (V_int 1)) (E_literal (V_int 5))
              (E_literal (V_int 6)))
           {| m_trans := empty_transaction; m_tmp_idx := 0;
              m_param_map := ∅; m_args := [];
              m_used_user_types := ["::mod::surface_info"];
              mod_log := []; failed_asserts := [] |} eq_refl).
Defined.

(** C2, as the specification states it, fails: operator lowering (here
    the ternary operator, returning a user struct) extends the list. *)
Lemma used_user_types_operator_counterexample :
  exists e s',
    transform_call (transform_expr 1) user_struct (DS_OP OK_TERNARY)
      "operator?" 3
      [("cond", int_constant 1 1); ("true_exp", int_constant 2 5);
       ("false_exp", int_constant 3 6)] false
      (new_builder empty_transaction []) = Ok (e, s')
    /\ m_used_user_types s' <>
       m_used_user_types (new_builder empty_transaction []).
Proof.
  eexists _, _. split; [reflexivity|]. discriminate.
Qed.

(** ** Resources *)

Lemma create_type_name_texture shape s :
  exists tn, create_type_name (TK_TEXTURE shape) s = Ok (tn, s).
Proof.
  unfold create_type_name, create_type_name_with.
  simpl get_type_name.
  eexists. rewrite (bind_Ok _ _ s _ s) by reflexivity.
  rewrite (bind_Ok _ _ s _ s) by apply create_qualified_name_run.
  reflexivity.
Qed.

Lemma create_type_name_light_profile s :
  exists tn, create_type_name TK_LIGHT_PROFILE s = Ok (tn, s).
Proof. now eexists. Qed.

Lemma create_type_name_bsdf_measurement s :
  exists tn, create_type_name TK_BSDF_MEASUREMENT s = Ok (tn, s).
Proof. now eexists. Qed.

(** C3, as the code has it: a texture value with an invalid tag becomes
    an invalid-reference literal of the mapped texture type; the run ends
    normally and the builder is as before, so no diagnostic is emitted and
    no assertion is violated. *)
Theorem invalid_texture_tag_silent_invalid_ref shape tag s :
  tag_is_invalid tag = true ->
  transform_value (VK_TEXTURE shape tag) s =
  Ok (E_literal (V_invalid_ref (Some (T_texture shape))), s).
Proof.
  intros Htag.
  destruct (create_type_name_texture shape s) as [tn Htn].
  cbn [transform_value].
  rewrite (bind_Ok _ _ _ _ _ Htn).
  rewrite (bind_Ok _ _ s (m_trans s) s) by reflexivity.
  rewrite Htag. reflexivity.
Qed.

Lemma invalid_texture_tag_silent_invalid_ref_witness :
  transform_value (VK_TEXTURE TS_2D 0%N) (new_builder empty_transaction []) =
  Ok (E_literal (V_invalid_ref (Some (T_texture TS_2D))),
      new_builder empty_transaction []).
Proof.
  apply (invalid_texture_tag_silent_invalid_ref TS_2D 0%N). reflexivity.
Defined.

(** C3, as the specification states it, fails: the run on a texture with
    the invalid tag emits no diagnostic, not one. *)
Lemma invalid_texture_tag_one_diagnostic_counterexample :
  ~ (exists e s',
       transform_value (VK_TEXTURE TS_2D 0%N)
         (new_builder empty_transaction []) = Ok (e, s')
       /\ length (mod_log s') =
          S (length (mod_log (new_builder empty_transaction [])))).
Proof.
  intros (e & s' & Hrun & Hlog).
  vm_compute in Hrun. inversion Hrun; subst. discriminate Hlog.
Qed.

(** ** Arguments transformed one after the other *)

Lemma transform_argument_run rec (args : IExpression_list) i n a s e s' :
  args !! i = Some (n, a) -> rec a s = Ok (e, s') ->
  transform_argument rec args i s = Ok (e, s').
Proof.
  intros Hi H. unfold transform_argument, get_expression. rewrite Hi.
  simpl. unfold mbind, M_bind. simpl. exact H.
Qed.

Lemma supplied_argument_run named_args (args : IExpression_list) i n a e s :
  args !! i = Some (n, a) ->
  supplied_argument named_args args i e s
  = Ok (wrap_argument named_args n e, s).
Proof.
  intros Hi. unfold supplied_argument, wrap_argument, get_name. rewrite Hi.
  now destruct named_args.
Qed.

Ltac run_argument args i H :=
  rewrite (transform_argument_run _ args i _ _ _ _ _ eq_refl H);
  cbv beta iota.

Ltac run_supplied args i :=
  rewrite (supplied_argument_run _ args i _ _ _ _ eq_refl);
  cbv beta iota.

(** Closes the goals in which the lists of [transformed_in_order] differ
    in length. *)
Ltac absurd_order H :=
  try contradiction;
  try (now destruct H as (? & _ & []));
  try (now destruct H as (? & _ & ? & _ & []));
  try (now destruct H as (? & _ & ? & _ & ? & _ & [])).

(** ** Operators *)

Lemma semantic_is_operator_spec sema :
  semantic_is_operator sema = true <-> exists op, sema = DS_OP op.
Proof.
  split.
  - destruct sema; try discriminate. intros _. now eexists.
  - intros [op ->]. reflexivity.
Qed.

(** C4: a call with operator semantics whose operands are present is
    lowered to the unary, binary or conditional expression over its
    operands, transformed from left to right; the callee name, the
    parameter count and the calling convention, on which the version
    conversions and the structural cases depend, play no role. *)
Theorem operator_call_lowered
    fuel ret_type sema op callee_name n_params args named_args s s0
    operands s1 :
  semantic_is_operator sema = true ->
  sema = DS_OP op ->
  operand_count op <= length args ->
  record_used_user_type ret_type s = Ok (tt, s0) ->
  transformed_in_order (transform_expr fuel)
    (snd <$> take (operand_count op) args) s0 operands s1 ->
  transform_call (transform_expr fuel) ret_type sema callee_name n_params
    args named_args s
  = Ok (operator_expression op operands, s1).
Proof.
  intros _ -> Hlen Hrecord Hops.
  unfold transform_call. rewrite (bind_Ok _ _ _ _ _ Hrecord).
  unfold transform_call_dispatch.
  unfold transform_operator, mbind, M_bind, mret, M_ret.
  destruct op as [u|bop|]; simpl in Hlen, Hops.
  - destruct args as [|[n0 a0] rest]; [simpl in Hlen; lia|].
    simpl in Hops. destruct operands as [|e0 [|? ?]]; absurd_order Hops.
    destruct Hops as (s1' & H0 & ->).
    run_argument ((n0, a0) :: rest) 0 H0. reflexivity.
  - destruct args as [|[n0 a0] [|[n1 a1] rest]]; simpl in Hlen; try lia.
    simpl in Hops.
    destruct operands as [|e0 [|e1 [|? ?]]]; absurd_order Hops.
    destruct Hops as (s1' & H0 & s2 & H1 & ->).
    run_argument ((n0, a0) :: (n1, a1) :: rest) 0 H0.
    run_argument ((n0, a0) :: (n1, a1) :: rest) 1 H1. reflexivity.
  - destruct args as [|[n0 a0] [|[n1 a1] [|[n2 a2] rest]]];
      simpl in Hlen; try lia.
    simpl in Hops.
    destruct operands as [|e0 [|e1 [|e2 [|? ?]]]]; absurd_order Hops.
    destruct Hops as (s1' & H0 & s2 & H1 & s3 & H2 & ->).
    run_argument ((n0, a0) :: (n1, a1) :: (n2, a2) :: rest) 0 H0.
    run_argument ((n0, a0) :: (n1, a1) :: (n2, a2) :: rest) 1 H1.
    run_argument ((n0, a0) :: (n1, a1) :: (n2, a2) :: rest) 2 H2.
    reflexivity.
Qed.

(** The conditional [c ? 5 : 6], given as a call of the ternary operator
    under the name of a version-sensitive function and with a parameter
    count that would trigger a conversion. *)
Lemma operator_call_lowered_witness :
  transform_call (transform_expr 1) TK_INT (DS_OP OK_TERNARY)
    "::df::measured_edf$1.0" 4
    [("cond", int_constant 1 1); ("true_exp", int_constant 2 5);
     ("false_exp", int_constant 3 6)] true
    (new_builder empty_transaction [])
  = Ok (E_conditional (E_literal (V_int 1)) (E_literal (V_int 5))
          (E_literal (V_int 6)),
        new_builder empty_transaction []).
Proof.
  apply (operator_call_lowered 1 TK_INT (DS_OP OK_TERNARY) OK_TERNARY
           "::df::measured_edf$1.0" 4 _ true _
           (new_builder empty_transaction [])
           [E_literal (V_int 1); E_literal (V_int 5); E_literal (V_int 6)]).
  - reflexivity.
  - reflexivity.
  - simpl. lia.
  - reflexivity.
  - simpl. eexists. split; [reflexivity|].
    eexists. split; [reflexivity|].
    eexists. split; [reflexivity|]. reflexivity.
Defined.

(** ** The measured EDF conversion *)

Lemma for_loop_step {A} count i (body : nat -> A -> M A) acc :
  for_loop (S count) i body acc
  = (body i acc ≫= fun acc' => for_loop count (S i) body acc').
Proof. reflexivity. Qed.

(** C5: a measured EDF call with four parameters becomes a call of the
    callee without its deprecation suffix with six arguments: the literal
    1.0 as second and [state::texture_tangent_u(0)] as fifth argument, the
    four supplied arguments transformed from left to right around them, all
    named (the inserted ones "multiplier" and "tangent_u") or all
    positional as the call is. *)
Theorem measured_edf_4_conversion
    fuel ret_type callee_name named_args n0 a0 n1 a1 n2 a2 n3 a3 rest
    s s0 e0 e1 e2 e3 s4 :
  record_used_user_type ret_type s = Ok (tt, s0) ->
  transformed_in_order (transform_expr fuel) [a0; a1; a2; a3] s0
    [e0; e1; e2; e3] s4 ->
  transform_call (transform_expr fuel) ret_type DS_INTRINSIC_DF_MEASURED_EDF
    callee_name 4 ((n0, a0) :: (n1, a1) :: (n2, a2) :: (n3, a3) :: rest)
    named_args s
  = Ok (E_call
          (reference_of (qualified_name_of (remove_deprecated callee_name))
             None)
          [wrap_argument named_args n0 e0;
           wrap_argument named_args "multiplier"
             (E_literal (V_float F32.one));
           wrap_argument named_args n1 e1;
           wrap_argument named_args n2 e2;
           wrap_argument named_args "tangent_u" texture_tangent_u_0;
           wrap_argument named_args n3 e3],
        s4).
Proof.
  intros Hrecord (s1 & H0 & s2 & H1 & s3 & H2 & s4' & H3 & ->).
  unfold transform_call. rewrite (bind_Ok _ _ _ _ _ Hrecord).
  unfold transform_call_dispatch.
  unfold convert_to_latest.
  destruct (decide (4 = 4)) as [_|]; [|congruence].
  set (args := (n0, a0) :: (n1, a1) :: (n2, a2) :: (n3, a3) :: rest).
  erewrite (bind_Ok _ _ s0 (Some _) s4'); [reflexivity|].
  rewrite (bind_Ok _ _ s0 texture_tangent_u_0 s0) by reflexivity.
  rewrite (bind_Ok _ _ s0 _ s0) by apply create_qualified_name_run.
  match goal with
  | |- (for_loop _ _ ?b _ ≫= _) _ = _ => set (body := b)
  end.
  erewrite (bind_Ok _ _ s0 (6, _) s4'); [reflexivity|].
  rewrite for_loop_step.
  erewrite (bind_Ok _ _ s0 (1, _) s1);
    [|unfold body, mbind, M_bind, mret, M_ret; simpl;
      run_argument args 0 H0; run_supplied args 0; reflexivity].
  rewrite for_loop_step.
  erewrite (bind_Ok _ _ s1 (3, _) s2);
    [|unfold body, mbind, M_bind, mret, M_ret; simpl;
      run_argument args 1 H1; run_supplied args 1; reflexivity].
  rewrite for_loop_step.
  erewrite (bind_Ok _ _ s2 (4, _) s3);
    [|unfold body, mbind, M_bind, mret, M_ret; simpl;
      run_argument args 2 H2; run_supplied args 2; reflexivity].
  rewrite for_loop_step.
  erewrite (bind_Ok _ _ s3 (6, _) s4');
    [|unfold body, mbind, M_bind, mret, M_ret; simpl;
      run_argument args 3 H3; run_supplied args 3; reflexivity].
  reflexivity.
Qed.

Lemma measured_edf_4_conversion_witness :
  transform_call (transform_expr 1) TK_EDF DS_INTRINSIC_DF_MEASURED_EDF
    "::df::measured_edf$1.0" 4 measured_edf_arguments true
    (new_builder empty_transaction [])
  = Ok (E_call
          (reference_of
             {| qn_components := ["df"; "measured_edf"];
                qn_absolute := true |} None)
          [named_argument "profile"
             (E_literal (V_invalid_ref (Some T_light_profile)));
           named_argument "multiplier" (E_literal (V_float F32.one));
           named_argument "global_distribution" (E_literal (V_bool true));
           named_argument "global_frame" (E_literal (V_int 0));
           named_argument "tangent_u" texture_tangent_u_0;
           named_argument "handle" (E_literal (V_string "glow"))],
        new_builder empty_transaction []).
Proof.
  apply (measured_edf_4_conversion 1 TK_EDF "::df::measured_edf$1.0" true
           _ _ _ _ _ _ _ _ [] _ (new_builder empty_transaction [])).
  - reflexivity.
  - simpl. eexists. split; [reflexivity|].
    eexists. split; [reflexivity|].
    eexists. split; [reflexivity|].
    eexists. split; [reflexivity|]. reflexivity.
Defined.

(** ** Resource values without a path *)

(** C6, as the code has it: a resource value with an invalid tag (and a
    texture value whose tag is not that of a texture record) becomes an
    invalid-reference literal of the mapped type; a resource value with a
    valid tag whose name resolves to the empty string becomes a literal
    resource value with the empty path, the tag, and the hash of the
    version of the tag (for a texture also the gamma mode and the version of
    the image tag). *)
Theorem resource_without_path s :
  (forall tag, tag_is_invalid tag = true ->
     (forall shape,
        transform_value (VK_TEXTURE shape tag) s
        = Ok (E_literal (V_invalid_ref (Some (T_texture shape))), s))
     /\ transform_value (VK_LIGHT_PROFILE tag) s
        = Ok (E_literal (V_invalid_ref (Some T_light_profile)), s)
     /\ transform_value (VK_BSDF_MEASUREMENT tag) s
        = Ok (E_literal (V_invalid_ref (Some T_bsdf_measurement)), s))
  /\ (forall shape tag,
        get_class_id (m_trans s) tag <> ID_TEXTURE ->
        transform_value (VK_TEXTURE shape tag) s
        = Ok (E_literal (V_invalid_ref (Some (T_texture shape))), s))
  /\ (forall shape tag image_tag gamma_override gamma s1,
        tag_is_invalid tag = false ->
        db_elements (m_trans s) !! tag
        = Some (Texture image_tag gamma_override) ->
        get_texture_resource_name_and_gamma (m_trans s) tag s
        = Ok (("", gamma), s1) ->
        transform_value (VK_TEXTURE shape tag) s
        = Ok (E_literal
                (V_texture (Some (T_texture shape)) "" gamma tag
                   (get_hash_texture None F32.zero
                      (get_tag_version (m_trans s) tag)
                      (get_tag_version (m_trans s) image_tag))), s1))
  /\ (forall tag s1,
        tag_is_invalid tag = false ->
        get_light_profile_resource_name (m_trans s) tag s = Ok ("", s1) ->
        transform_value (VK_LIGHT_PROFILE tag) s
        = Ok (E_literal
                (V_light_profile (Some T_light_profile) "" tag
                   (get_hash_resource None
                      (get_tag_version (m_trans s) tag))), s1))
  /\ (forall tag s1,
        tag_is_invalid tag = false ->
        get_bsdf_measurement_resource_name (m_trans s) tag s
        = Ok ("", s1) ->
        transform_value (VK_BSDF_MEASUREMENT tag) s
        = Ok (E_literal
                (V_bsdf_measurement (Some T_bsdf_measurement) "" tag
                   (get_hash_resource None
                      (get_tag_version (m_trans s) tag))), s1)).
Proof.
  repeat split.
  - intros shape.
    destruct (create_type_name_texture shape s) as [tn Htn].
    cbn [transform_value].
    rewrite (bind_Ok _ _ _ _ _ Htn).
    rewrite (bind_Ok _ _ s (m_trans s) s) by reflexivity.
    rewrite H. reflexivity.
  - cbn [transform_value].
    rewrite (bind_Ok _ _ s _ s) by reflexivity.
    rewrite H. reflexivity.
  - cbn [transform_value].
    rewrite (bind_Ok _ _ s _ s) by reflexivity.
    rewrite H. reflexivity.
  - intros shape tag Hclass.
    destruct (create_type_name_texture shape s) as [tn Htn].
    cbn [transform_value].
    rewrite (bind_Ok _ _ _ _ _ Htn).
    rewrite (bind_Ok _ _ s (m_trans s) s) by reflexivity.
    destruct (tag_is_invalid tag) eqn:Htag; [reflexivity|].
    rewrite bool_decide_eq_true_2 by exact Hclass. reflexivity.
  - intros shape tag image_tag gamma_override gamma s1 Htag Hel Hname.
    destruct (create_type_name_texture shape s) as [tn Htn].
    cbn [transform_value].
    rewrite (bind_Ok _ _ _ _ _ Htn).
    rewrite (bind_Ok _ _ s (m_trans s) s) by reflexivity.
    rewrite Htag.
    assert (Hclass : get_class_id (m_trans s) tag = ID_TEXTURE)
      by (unfold get_class_id; now rewrite Hel).
    rewrite Hclass.
    rewrite bool_decide_eq_false_2 by (intros Hne; now apply Hne).
    cbn [orb].
    rewrite (bind_Ok _ _ _ _ _ Hname). cbn [fst snd string_empty].
    unfold access_texture. rewrite Hel. reflexivity.
  - intros tag s1 Htag Hname.
    cbn [transform_value].
    rewrite (bind_Ok _ _ s _ s) by reflexivity.
    rewrite Htag.
    rewrite (bind_Ok _ _ s (m_trans s) s) by reflexivity.
    rewrite (bind_Ok _ _ _ _ _ Hname). reflexivity.
  - intros tag s1 Htag Hname.
    cbn [transform_value].
    rewrite (bind_Ok _ _ s _ s) by reflexivity.
    rewrite Htag.
    rewrite (bind_Ok _ _ s (m_trans s) s) by reflexivity.
    rewrite (bind_Ok _ _ _ _ _ Hname). reflexivity.
Qed.

(** The texture without image and the light profile value that points to
    a record of another class. *)
Lemma resource_without_path_witness :
  transform_value (VK_TEXTURE TS_2D 7%N) (new_builder sample_transaction [])
  = Ok (E_literal
          (V_texture (Some (T_texture TS_2D)) "" gamma_default 7%N
             (get_hash_texture None F32.zero 3%N 0%N)),
        new_builder sample_transaction [])
  /\ transform_value (VK_LIGHT_PROFILE 5%N) (new_builder sample_transaction [])
     = Ok (E_literal
             (V_light_profile (Some T_light_profile) "" 5%N
                (get_hash_resource None 0%N)),
           logged (log_error "Incorrect type for light profile resource"
                     "lights")
             (new_builder sample_transaction [])).
Proof.
  pose proof (resource_without_path (new_builder sample_transaction []))
    as (_ & _ & Htexture & Hlight & _).
  split.
  - apply (Htexture TS_2D 7%N 0%N F32.two_point_two); reflexivity.
  - apply (Hlight 5%N); reflexivity.
Defined.

(** C6, as the specification states it, fails for the invalid tag: the
    literal is an invalid reference, not a texture value with tag and
    hash. *)
Lemma invalid_tag_resource_value_counterexample :
  ~ (exists t_tp url gamma tag_value hash s',
       transform_value (VK_TEXTURE TS_2D 0%N)
         (new_builder sample_transaction [])
       = Ok (E_literal (V_texture t_tp url gamma tag_value hash), s')).
Proof.
  intros (t_tp & url & gamma & tag_value & hash & s' & H).
  vm_compute in H. discriminate H.
Qed.

(** ** Gamma modes *)

(** [2.2f] is the binary32 number nearest to 2.2: it differs from 2.2 by
    less than half a unit in the last place (2^-23). *)
Lemma two_point_two_nearest :
  (2 * Z.abs (10 * 9227469 - 22 * 2 ^ 22) < 10)%Z.
Proof. reflexivity. Qed.

(** The constants are binary32 numbers (24 bits of precision, exponents
    up to 128). *)
Lemma F32_constants_valid :
  Forall (fun f => valid_binary 24 128 f = true)
    [F32.one; F32.two_point_two; F32.zero; F32.pi; F32.one_plus_ulp].
Proof. repeat constructor. Qed.

(** C7, as the code has it: the gamma mode of a texture whose image tag
    is valid and is that of an image is decided by comparing the gamma
    value of the texture with [1.0f] and with [2.2f] for equality: equal to
    [1.0f] gives the linear mode, equal to [2.2f] the sRGB mode, anything
    else the default mode, so the neighbour 1.0000001 of 1.0, zero and NaN
    give the default mode.  A texture without image, or whose image tag is
    that of a record of another class, has the default mode whatever its
    gamma value, and the empty name. *)
Theorem gamma_mode_by_exact_comparison
    trans tag image_tag gamma_override s :
  db_elements trans !! tag = Some (Texture image_tag gamma_override) ->
  (forall name,
      tag_is_invalid image_tag = false ->
      db_elements trans !! image_tag = Some (Image name) ->
      exists gamma_mode,
        get_texture_resource_name_and_gamma trans tag s
        = Ok ((name, gamma_mode), s)
        /\ (SFeqb gamma_override F32.one = true -> gamma_mode = gamma_linear)
        /\ (SFeqb gamma_override F32.one = false ->
            SFeqb gamma_override F32.two_point_two = true ->
            gamma_mode = gamma_srgb)
        /\ (SFeqb gamma_override F32.one = false ->
            SFeqb gamma_override F32.two_point_two = false ->
            gamma_mode = gamma_default)
        /\ (gamma_override = F32.one -> gamma_mode = gamma_linear)
        /\ (gamma_override = F32.two_point_two -> gamma_mode = gamma_srgb)
        /\ (gamma_override = F32.one_plus_ulp -> gamma_mode = gamma_default)
        /\ (gamma_override = F32.zero -> gamma_mode = gamma_default)
        /\ (gamma_override = S754_nan -> gamma_mode = gamma_default))
  /\ (tag_is_invalid image_tag = true ->
      get_texture_resource_name_and_gamma trans tag s
      = Ok (("", gamma_default), s))
  /\ (tag_is_invalid image_tag = false ->
      get_class_id trans image_tag <> ID_IMAGE ->
      get_texture_resource_name_and_gamma trans tag s
      = Ok (("", gamma_default),
            logged (log_error "Incorrect type for image resource"
                      (default "" (tag_to_name trans image_tag))) s)).
Proof.
  intros Htex.
  assert (Hclass : get_class_id trans tag = ID_TEXTURE)
    by (unfold get_class_id; now rewrite Htex).
  assert (Hrun :
    get_texture_resource_name_and_gamma trans tag s
    = (if tag_is_invalid image_tag then mret ("", gamma_default)
       else if decide (get_class_id trans image_tag <> ID_IMAGE) then
         mod_log_error "Incorrect type for image resource"
                       (default "" (tag_to_name trans image_tag)) ;;
         mret ("", gamma_default)
       else
         name ← access_original_filename trans image_tag;
         mret (name, classify_gamma gamma_override)) s).
  { unfold get_texture_resource_name_and_gamma. rewrite Hclass.
    destruct (decide (ID_TEXTURE <> ID_TEXTURE)) as [Hne|_];
      [now contradiction Hne|].
    unfold access_texture. rewrite Htex.
    now rewrite (bind_Ok _ _ s (image_tag, gamma_override) s)
      by reflexivity. }
  split; [|split].
  - intros name Himg Hel.
    exists (classify_gamma gamma_override). split.
    + assert (Hclass' : get_class_id trans image_tag = ID_IMAGE)
        by (unfold get_class_id; now rewrite Hel).
      rewrite Hrun, Himg, Hclass'.
      destruct (decide (ID_IMAGE <> ID_IMAGE)) as [Hne|_];
        [now contradiction Hne|].
      unfold access_original_filename. rewrite Hel. reflexivity.
    + unfold classify_gamma. repeat split.
      * intros ->. reflexivity.
      * intros -> ->. reflexivity.
      * intros -> ->. reflexivity.
      * intros ->. reflexivity.
      * intros ->. reflexivity.
      * intros ->. reflexivity.
      * intros ->. reflexivity.
      * intros ->. reflexivity.
  - intros Himg. now rewrite Hrun, Himg.
  - intros Himg Hic. rewrite Hrun, Himg.
    destruct (decide (get_class_id trans image_tag <> ID_IMAGE));
      [reflexivity|contradiction].
Qed.

Lemma gamma_mode_by_exact_comparison_witness :
  exists gamma_mode,
    get_texture_resource_name_and_gamma sample_transaction 8%N
      (new_builder sample_transaction [])
    = Ok (("wood.png", gamma_mode), new_builder sample_transaction [])
    /\ gamma_mode = gamma_srgb.
Proof.
  destruct (proj1 (gamma_mode_by_exact_comparison sample_transaction 8%N 9%N
                     F32.two_point_two
                     (new_builder sample_transaction []) eq_refl)
              "wood.png" eq_refl eq_refl)
    as (gamma_mode & Hrun & _ & _ & _ & _ & Hsrgb & _).
  exists gamma_mode. split; [exact Hrun|]. now apply Hsrgb.
Defined.

(** C7, where the claim fails: the texture of tag 7 has a gamma value of
    exactly [2.2f] and no image; its mode is the default mode, not the
    sRGB mode, and so is the mode of the texture value made from it. *)
Lemma gamma_mode_without_image_counterexample :
  db_elements sample_transaction !! 7%N
  = Some (Texture 0%N F32.two_point_two)
  /\ SFeqb F32.two_point_two F32.two_point_two = true
  /\ get_texture_resource_name_and_gamma sample_transaction 7%N
       (new_builder sample_transaction [])
     = Ok (("", gamma_default), new_builder sample_transaction [])
  /\ gamma_default <> gamma_srgb
  /\ transform_value (VK_TEXTURE TS_2D 7) (new_builder sample_transaction [])
     = Ok (E_literal
             (V_texture (Some (T_texture TS_2D)) "" gamma_default 7%N
                (get_hash_texture None F32.zero 3%N 0%N)),
           new_builder sample_transaction []).
Proof.
  split; [reflexivity|]. split; [reflexivity|]. split; [reflexivity|].
  split; [discriminate|reflexivity].
Qed.

(** ** The array length *)

Lemma to_int_small z : (0 <= z < 2 ^ 31)%Z -> to_int z = z.
Proof.
  intros Hz. unfold to_int.
  rewrite Z.mod_small by lia. lia.
Qed.

(** C8, as the code has it: the length of an array whose type says its
    size is the integer literal of that size converted to [int], which is
    the size itself below 2^31; the length of an array of deferred size is
    a reference to the name of the size; an argument whose type is not an
    array type violates the assertion and gives the invalid expression. *)
Theorem array_length_of_argument_type
    fuel ret_type callee_name n_params n0 a0 rest named_args s s0 :
  record_used_user_type ret_type s = Ok (tt, s0) ->
  (forall e_tp size,
      expr_type a0 = TK_ARRAY e_tp (Immediate_size size) ->
      transform_call (transform_expr fuel) ret_type
        DS_INTRINSIC_DAG_ARRAY_LENGTH callee_name n_params
        ((n0, a0) :: rest) named_args s
      = Ok (E_literal (V_int (to_int (Z.of_N size))), s0)
      /\ ((size < 2 ^ 31)%N -> to_int (Z.of_N size) = Z.of_N size))
  /\ (forall e_tp d,
        expr_type a0 = TK_ARRAY e_tp (Deferred_size d) ->
        transform_call (transform_expr fuel) ret_type
          DS_INTRINSIC_DAG_ARRAY_LENGTH callee_name n_params
          ((n0, a0) :: rest) named_args s
        = Ok (reference_of (qualified_name_of d) None, s0))
  /\ ((forall e_tp size, expr_type a0 <> TK_ARRAY e_tp size) ->
      transform_call (transform_expr fuel) ret_type
        DS_INTRINSIC_DAG_ARRAY_LENGTH callee_name n_params
        ((n0, a0) :: rest) named_args s
      = Ok (E_invalid, assert_failed "false" s0)).
Proof.
  intros Hrecord.
  assert (Hrun :
    transform_call (transform_expr fuel) ret_type
      DS_INTRINSIC_DAG_ARRAY_LENGTH callee_name n_params
      ((n0, a0) :: rest) named_args s
    = (match expr_type a0 with
       | TK_ARRAY _ (Immediate_size size) =>
           mret (E_literal (V_int (to_int (Z.of_N size))))
       | TK_ARRAY _ (Deferred_size d) =>
           qname ← create_qualified_name d;
           mret (to_reference qname None)
       | _ => ASSERT false "false" ;; mret E_invalid
       end) s0).
  { unfold transform_call. rewrite (bind_Ok _ _ _ _ _ Hrecord).
    unfold transform_call_dispatch.
    unfold convert_to_latest.
    rewrite (bind_Ok _ _ s0 None s0) by reflexivity.
    unfold transform_structural.
    rewrite (bind_Ok _ _ s0 a0 s0) by reflexivity. reflexivity. }
  repeat split.
  - rewrite Hrun, H. reflexivity.
  - intros Hsize. apply to_int_small.
    change (2 ^ 31)%N with 2147483648%N in Hsize. lia.
  - intros e_tp d Htype. rewrite Hrun, Htype.
    rewrite (bind_Ok _ _ s0 _ s0) by apply create_qualified_name_run.
    reflexivity.
  - intros Hnot. rewrite Hrun.
    destruct (expr_type a0)
      as [? ?| | |?| | | | | | | |? ?|? ? ?| |?|?| |e_tp size] eqn:Htype;
      try reflexivity.
    now contradiction (Hnot e_tp size).
Qed.

(** An array of five integers, and an array whose size is named "n". *)
Lemma array_length_of_argument_type_witness :
  transform_call (transform_expr 1) TK_INT DS_INTRINSIC_DAG_ARRAY_LENGTH
    "operator_len" 1
    [("a", EK_PARAMETER 1 (TK_ARRAY TK_INT (Immediate_size 5)) 0)] false
    (new_builder empty_transaction [])
  = Ok (E_literal (V_int 5), new_builder empty_transaction [])
  /\ transform_call (transform_expr 1) TK_INT DS_INTRINSIC_DAG_ARRAY_LENGTH
       "operator_len" 1
       [("a", EK_PARAMETER 1 (TK_ARRAY TK_INT (Deferred_size "n")) 0)] false
       (new_builder empty_transaction [])
     = Ok (symbol_reference "n", new_builder empty_transaction []).
Proof.
  split.
  - refine (proj1 (proj1 (array_length_of_argument_type 1 TK_INT
             "operator_len" 1 "a" _ [] false _
             (new_builder empty_transaction []) _) TK_INT 5%N _));
      reflexivity.
  - refine (proj1 (proj2 (array_length_of_argument_type 1 TK_INT
             "operator_len" 1 "a" _ [] false _
             (new_builder empty_transaction []) _)) TK_INT "n" _);
      reflexivity.
Defined.

(** C8, as the specification states it, fails for a size that [int]
    does not hold: the literal for the size 2^31 is -2^31. *)
Lemma array_length_literal_counterexample :
  transform_call (transform_expr 1) TK_INT DS_INTRINSIC_DAG_ARRAY_LENGTH
    "operator_len" 1
    [("a", EK_PARAMETER 1 (TK_ARRAY TK_INT (Immediate_size 2147483648)) 0)]
    false (new_builder empty_transaction [])
  = Ok (E_literal (V_int (-2147483648)), new_builder empty_transaction [])
  /\ E_literal (V_int (-2147483648)) <> E_literal (V_int 2147483648).
Proof. split; [reflexivity|discriminate]. Qed.

(** ** Parameters *)

(** C9: a parameter expression that is not bound in the parameter map
    and whose index has no argument violates the assertion and gives the
    invalid expression, the builder being otherwise as before; when the
    index has an argument, the result is that of transforming the
    argument. *)
Theorem parameter_without_argument_fails fuel addr type index s :
  m_param_map s !! addr = None ->
  (get_expression (m_args s) index = None ->
   transform_expr (S fuel) (EK_PARAMETER addr type index) s
   = Ok (E_invalid,
         assert_failed "unexpected expression kind"
           (assert_failed "parameter has no argument" s)))
  /\ (forall arg,
        get_expression (m_args s) index = Some arg ->
        transform_expr (S fuel) (EK_PARAMETER addr type index) s
        = transform_expr fuel arg s).
Proof.
  intros Hmap.
  assert (Hrun :
    transform_expr (S fuel) (EK_PARAMETER addr type index) s
    = match get_expression (m_args s) index with
      | Some arg => transform_expr fuel arg s
      | None =>
          (ASSERT false "parameter has no argument" ;;
           ASSERT false "unexpected expression kind" ;;
           mret E_invalid) s
      end).
  { cbn [transform_expr expr_addr].
    rewrite (bind_Ok _ _ s (m_param_map s) s) by reflexivity.
    rewrite Hmap.
    rewrite (bind_Ok _ _ s (m_args s) s) by reflexivity.
    now destruct (get_expression (m_args s) index). }
  split.
  - intros Hnone. rewrite Hrun, Hnone. reflexivity.
  - intros arg Hsome. rewrite Hrun, Hsome. reflexivity.
Qed.

Lemma parameter_without_argument_fails_witness :
  transform_expr 1 (EK_PARAMETER 1 TK_INT 2)
    (new_builder empty_transaction [("x", int_constant 2 4)])
  = Ok (E_invalid,
        assert_failed "unexpected expression kind"
          (assert_failed "parameter has no argument"
             (new_builder empty_transaction [("x", int_constant 2 4)])))
  /\ transform_expr 2 (EK_PARAMETER 1 TK_INT 0)
       (new_builder empty_transaction [("x", int_constant 2 4)])
     = Ok (E_literal (V_int 4),
           new_builder empty_transaction [("x", int_constant 2 4)]).
Proof.
  split.
  - apply (parameter_without_argument_fails 0 1%N TK_INT 2
             (new_builder empty_transaction [("x", int_constant 2 4)]));
      reflexivity.
  - rewrite (proj2 (parameter_without_argument_fails 1 1%N TK_INT 0
               (new_builder empty_transaction [("x", int_constant 2 4)])
               eq_refl) (int_constant 2 4) eq_refl).
    reflexivity.
Defined.

(** ** The parameter map *)

Lemma declare_parameter_lookup sym init s :
  m_param_map (declare_parameter sym init s) !! expr_addr init = Some sym.
Proof. unfold declare_parameter. simpl. apply lookup_insert_eq. Qed.

(** C10: an expression that is bound in the parameter map is
    transformed to a reference to the symbol it is bound to, whatever its
    kind; one unit of the recursion budget is enough, so no sub-expression
    is transformed, the builder is as before, and the result is the same on
    every transaction. *)
Theorem bound_expression_is_reference fuel expr sym s :
  m_param_map s !! expr_addr expr = Some sym ->
  transform_expr (S fuel) expr s = Ok (symbol_reference sym, s)
  /\ transform_expr 1 expr s = Ok (symbol_reference sym, s)
  /\ forall trans,
       transform_expr (S fuel) expr (with_transaction trans s)
       = Ok (symbol_reference sym, with_transaction trans s).
Proof.
  intros Hmap.
  assert (Hrun : forall n s',
             m_param_map s' = m_param_map s ->
             transform_expr (S n) expr s' = Ok (symbol_reference sym, s')).
  { intros n s' Hs'. cbn [transform_expr].
    rewrite (bind_Ok _ _ s' (m_param_map s') s') by reflexivity.
    rewrite Hs', Hmap. reflexivity. }
  repeat split; intros; now apply Hrun.
Qed.

(** A call expression on a record that does not exist, declared as the
    parameter "p": the reference to "p", without a look at the record. *)
Lemma bound_expression_is_reference_witness :
  transform_expr 1 (EK_CALL 3 TK_COLOR 99)
    (declare_parameter "p" (EK_CALL 3 TK_COLOR 99)
       (new_builder empty_transaction []))
  = Ok (symbol_reference "p",
        declare_parameter "p" (EK_CALL 3 TK_COLOR 99)
          (new_builder empty_transaction [])).
Proof.
  apply (bound_expression_is_reference 0 (EK_CALL 3 TK_COLOR 99) "p").
  apply declare_parameter_lookup.
Defined.

(** ** The other conversions, on sample calls *)

Example spot_edf_4_conversion :
  transform_call (transform_expr 1) TK_EDF DS_INTRINSIC_DF_SPOT_EDF
    "::df::spot_edf$1.0" 4 four_arguments false
    (new_builder empty_transaction [])
  = Ok (E_call (reference_to true ["df"; "spot_edf"])
          [positional_argument (E_literal (V_int 10));
           positional_argument (E_literal (V_float F32.pi));
           positional_argument (E_literal (V_int 20));
           positional_argument (E_literal (V_int 30));
           positional_argument (E_literal (V_int 40))],
        new_builder empty_transaction []).
Proof. reflexivity. Qed.

Example rounded_corner_normal_2_conversion :
  transform_call (transform_expr 1) TK_EDF
    DS_INTRINSIC_STATE_ROUNDED_CORNER_NORMAL
    "::state::rounded_corner_normal$1.2" 2 four_arguments true
    (new_builder empty_transaction [])
  = Ok (E_call (reference_to true ["state"; "rounded_corner_normal"])
          [named_argument "a" (E_literal (V_int 10));
           named_argument "b" (E_literal (V_int 20));
           named_argument "roundness" (E_literal (V_float F32.one))],
        new_builder empty_transaction []).
Proof. reflexivity. Qed.

Example fresnel_layer_conversion :
  transform_call (transform_expr 1) TK_BSDF DS_INTRINSIC_DF_FRESNEL_LAYER
    "::df::fresnel_layer$1.3" 4 four_arguments false
    (new_builder empty_transaction [])
  = Ok (E_call (reference_to true ["df"; "color_fresnel_layer"])
          [positional_argument (E_literal (V_int 10));
           positional_argument
             (E_call (reference_to false ["color"])
                [positional_argument (E_literal (V_int 20))]);
           positional_argument (E_literal (V_int 30));
           positional_argument (E_literal (V_int 40))],
        new_builder empty_transaction []).
Proof. reflexivity. Qed.

Example measured_edf_5_conversion :
  transform_call (transform_expr 1) TK_EDF DS_INTRINSIC_DF_MEASURED_EDF
    "::df::measured_edf$1.1" 5
    (four_arguments ++ [("e", int_constant 5 50)])%list
    false (new_builder empty_transaction [])
  = Ok (E_call (reference_to true ["df"; "measured_edf"])
          [positional_argument (E_literal (V_int 10));
           positional_argument (E_literal (V_int 20));
           positional_argument (E_literal (V_int 30));
           positional_argument (E_literal (V_int 40));
           positional_argument texture_tangent_u_0;
           positional_argument (E_literal (V_int 50))],
        new_builder empty_transaction []).
Proof. reflexivity. Qed.

Example tex_width_1_conversion :
  transform_call (transform_expr 1) TK_INT DS_INTRINSIC_TEX_WIDTH
    "::tex::width$1.3" 1 [("tex", EK_CONSTANT 1 (VK_TEXTURE TS_2D 0%N))]
    true (new_builder empty_transaction [])
  = Ok (E_call (reference_to true ["tex"; "width"])
          [named_argument "tex"
             (E_literal (V_invalid_ref (Some (T_texture TS_2D))));
           named_argument "uv_tile" (E_literal create_int2_zero)],
        new_builder empty_transaction []).
Proof. reflexivity. Qed.

(** A call of a user function: the plain call, on every argument. *)
Example plain_call :
  transform_call (transform_expr 1) user_struct (DS_OTHER 0)
    "::mod::make_info" 2 four_arguments true
    (new_builder empty_transaction [])
  = Ok (E_call (reference_to true ["mod"; "make_info"])
          [named_argument "a" (E_literal (V_int 10));
           named_argument "b" (E_literal (V_int 20))],
        pushed "::mod::surface_info" (new_builder empty_transaction [])).
Proof. reflexivity. Qed.

(** * Further properties of the code *)

(** ** What a transformation may change *)

Lemma only_appends_refl s : only_appends s s.
Proof.
  repeat split; try (exists []; now rewrite app_nil_r).
Qed.

Lemma only_appends_trans s1 s2 s3 :
  only_appends s1 s2 -> only_appends s2 s3 -> only_appends s1 s3.
Proof.
  intros (Ht & Hi & Hp & Ha & [l1 Hu] & [l2 Hl] & [l3 Hf])
         (Ht' & Hi' & Hp' & Ha' & [l1' Hu'] & [l2' Hl'] & [l3' Hf']).
  repeat split; try congruence.
  - exists (l1 ++ l1')%list. rewrite Hu', Hu. now rewrite <- app_assoc.
  - exists (l2 ++ l2')%list. rewrite Hl', Hl. now rewrite <- app_assoc.
  - exists (l3 ++ l3')%list. rewrite Hf', Hf. now rewrite <- app_assoc.
Qed.

Lemma only_appends_assert_failed text s : only_appends s (assert_failed text s).
Proof.
  repeat split; simpl; try (exists []; now rewrite app_nil_r). now eexists.
Qed.

Lemma only_appends_logged msg s : only_appends s (logged msg s).
Proof.
  repeat split; simpl; try (exists []; now rewrite app_nil_r). now eexists.
Qed.

Lemma only_appends_pushed sym s : only_appends s (pushed sym s).
Proof.
  repeat split; simpl; try (exists []; now rewrite app_nil_r). now eexists.
Qed.

Lemma appends_ret {A} (a : A) : appends (mret a : M A).
Proof. intros s a' s' H. inversion H; subst. apply only_appends_refl. Qed.

Lemma appends_bind {A B} (m : M A) (f : A -> M B) :
  appends m -> (forall a, appends (f a)) -> appends (m ≫= f).
Proof.
  intros Hm Hf s b s' H.
  apply bind_Ok_inv in H as (a & s1 & H1 & H2).
  exact (only_appends_trans _ _ _ (Hm _ _ _ H1) (Hf a _ _ _ H2)).
Qed.

Lemma appends_fault {A} : appends (fault : M A).
Proof. intros s a s' H. discriminate. Qed.

Lemma appends_out_of_fuel {A} : appends (out_of_fuel : M A).
Proof. intros s a s' H. discriminate. Qed.

Lemma appends_gets {A} (f : Mdl_ast_builder -> A) : appends (gets f).
Proof. intros s a s' H. inversion H; subst. apply only_appends_refl. Qed.

Lemma appends_deref {A} (h : option A) : appends (deref h).
Proof. destruct h; [apply appends_ret|apply appends_fault]. Qed.

Lemma appends_ASSERT cond text : appends (ASSERT cond text).
Proof.
  intros s a s' H. unfold ASSERT in H.
  destruct cond; inversion H; subst;
    [apply only_appends_refl|apply only_appends_assert_failed].
Qed.

Lemma appends_mod_log_error text name : appends (mod_log_error text name).
Proof. intros s a s' H. inversion H; subst. apply only_appends_logged. Qed.

Lemma appends_push_used_user_type sym : appends (push_used_user_type sym).
Proof. intros s a s' H. inversion H; subst. apply only_appends_pushed. Qed.

Lemma appends_for_loop {A} (body : nat -> A -> M A) count :
  (forall i acc, appends (body i acc)) ->
  forall i acc, appends (for_loop count i body acc).
Proof.
  intros Hbody. induction count as [|count IH]; intros i acc.
  - apply appends_ret.
  - simpl. apply appends_bind; [apply Hbody|]. intros acc'. apply IH.
Qed.

Create HintDb appends.

#[local] Hint Resolve appends_ret appends_fault appends_gets appends_deref
  appends_ASSERT appends_mod_log_error appends_push_used_user_type
  appends_out_of_fuel : appends.

Ltac appends_step :=
  first [ solve [auto with appends]
        | apply appends_for_loop; intros
        | apply appends_bind; [|intros]
        | match goal with
          | |- appends (if ?b then _ else _) => destruct b
          | |- appends (match ?x with _ => _ end) => destruct x
          | |- appends (let '(_, _) := ?x in _) => destruct x
          end ].

Lemma appends_add_simple_names names :
  forall q, appends (add_simple_names q names).
Proof.
  induction names as [|n rest IH]; intros q; simpl.
  - apply appends_ret.
  - apply appends_bind; [|intros; apply IH].
    unfold create_simple_name. repeat appends_step.
Qed.

Lemma appends_create_simple_name name : appends (create_simple_name name).
Proof. unfold create_simple_name. repeat appends_step. Qed.

Lemma appends_create_qualified_name name :
  appends (create_qualified_name name).
Proof.
  unfold create_qualified_name. destruct (strip_absolute name).
  apply appends_add_simple_names.
Qed.

Lemma appends_create_scope_name name : appends (create_scope_name name).
Proof.
  unfold create_scope_name. destruct (strip_absolute name).
  apply appends_add_simple_names.
Qed.

#[local] Hint Resolve appends_create_simple_name appends_create_qualified_name
  appends_create_scope_name : appends.

Lemma appends_get_type_name t : appends (get_type_name t).
Proof. induction t; simpl; repeat appends_step. Qed.

#[local] Hint Resolve appends_get_type_name : appends.

Lemma appends_create_type_name_with t :
  forall mods, appends (create_type_name_with mods t).
Proof.
  induction t; intros mods; simpl; repeat appends_step.
Qed.

Lemma appends_create_type_name t : appends (create_type_name t).
Proof. apply appends_create_type_name_with. Qed.

Lemma appends_transform_type t : appends (transform_type t).
Proof. induction t; simpl; repeat appends_step. Qed.

Lemma appends_access_texture trans tag : appends (access_texture trans tag).
Proof. unfold access_texture. repeat appends_step. Qed.

Lemma appends_access_original_filename trans tag :
  appends (access_original_filename trans tag).
Proof. unfold access_original_filename. repeat appends_step. Qed.

#[local] Hint Resolve appends_create_type_name appends_transform_type
  appends_access_texture appends_access_original_filename : appends.

Lemma appends_get_texture_resource_name_and_gamma trans tag :
  appends (get_texture_resource_name_and_gamma trans tag).
Proof. unfold get_texture_resource_name_and_gamma. repeat appends_step. Qed.

Lemma appends_get_light_profile_resource_name trans tag :
  appends (get_light_profile_resource_name trans tag).
Proof. unfold get_light_profile_resource_name. repeat appends_step. Qed.

Lemma appends_get_bsdf_measurement_resource_name trans tag :
  appends (get_bsdf_measurement_resource_name trans tag).
Proof. unfold get_bsdf_measurement_resource_name. repeat appends_step. Qed.

#[local] Hint Resolve appends_get_texture_resource_name_and_gamma
  appends_get_light_profile_resource_name
  appends_get_bsdf_measurement_resource_name : appends.

Lemma appends_transform_value : forall v, appends (transform_value v).
Proof.
  fix IH 1. intros v.
  assert (Hel : forall vs call,
             Forall (fun v => appends (transform_value v)) vs ->
             appends
               ((fix transform_elements (call : mdl_IExpression)
                   (vs : list IValue) {struct vs} : M mdl_IExpression :=
                   match vs with
                   | [] => mret call
                   | e_v :: rest =>
                       e ← transform_value e_v;
                       transform_elements
                         (add_argument call (positional_argument e)) rest
                   end) call vs)).
  { induction vs as [|e_v rest IHvs]; intros call Hall.
    - apply appends_ret.
    - inversion Hall; subst. apply appends_bind; [assumption|].
      intros e. now apply IHvs. }
  destruct v as [b|i|e_tp index|f|d|str|k c_tp elements
                |e_tp size elements|r_tp|shape tag|tag|tag];
    cbn [transform_value].
  - apply appends_ret.
  - apply appends_ret.
  - clear IH Hel. repeat appends_step.
  - apply appends_ret.
  - apply appends_ret.
  - apply appends_ret.
  - apply appends_bind; [apply appends_create_type_name|]. intros tn.
    apply Hel. clear Hel.
    induction elements as [|e_v rest IHel]; constructor;
      [apply IH|exact IHel].
  - apply appends_bind; [apply appends_create_type_name|]. intros tn.
    apply Hel. clear Hel.
    induction elements as [|e_v rest IHel]; constructor;
      [apply IH|exact IHel].
  - clear IH Hel. repeat appends_step.
  - clear IH Hel. repeat appends_step.
  - clear IH Hel. repeat appends_step.
  - clear IH Hel. repeat appends_step.
Qed.

Lemma appends_record_used_user_type ret_type :
  appends (record_used_user_type ret_type).
Proof. unfold record_used_user_type. repeat appends_step. Qed.

Lemma appends_transform_call rec :
  (forall a, appends (rec a)) ->
  forall ret_type sema callee_name n_params args named_args,
    appends
      (transform_call rec ret_type sema callee_name n_params args named_args).
Proof.
  intros Hrec ret_type sema callee_name n_params args named_args.
  pose proof appends_record_used_user_type.
  unfold transform_call, transform_call_dispatch, transform_operator,
    convert_to_latest, transform_structural, transform_argument,
    supplied_argument, tangent_u_call.
  apply appends_bind; [auto|]. intros _.
  destruct sema; repeat first [apply Hrec | appends_step].
Qed.

Lemma appends_transform_expr fuel :
  forall expr, appends (transform_expr fuel expr).
Proof.
  induction fuel as [|fuel IH]; intros expr.
  - apply appends_out_of_fuel.
  - pose proof appends_transform_value.
    pose proof (appends_transform_call _ IH).
    cbn [transform_expr].
    repeat first [ apply IH | solve [auto] | appends_step ].
Qed.

(** ** Mangled names *)

Lemma append_assoc (a b c : string) : (a +:+ b) +:+ c = a +:+ (b +:+ c).
Proof.
  induction a as [|x a IH]; [reflexivity|].
  change (String x ((a +:+ b) +:+ c) = String x (a +:+ (b +:+ c))).
  now rewrite IH.
Qed.

Lemma append_empty_r (a : string) : a +:+ "" = a.
Proof.
  induction a as [|x a IH]; [reflexivity|].
  change (String x (a +:+ "") = String x a). now rewrite IH.
Qed.

Lemma find_append_first n c rest :
  Cstr.find n c = None ->
  Cstr.find (n +:+ String c rest) c = Some (String.length n).
Proof.
  induction n as [|a n IH]; simpl; intros H.
  - now rewrite Ascii.eqb_refl.
  - destruct (Ascii.eqb a c); [discriminate|].
    destruct (Cstr.find n c); [discriminate|]. now rewrite IH.
Qed.

Lemma find_append_none a b c :
  Cstr.find a c = None -> Cstr.find b c = None ->
  Cstr.find (a +:+ b) c = None.
Proof.
  induction a as [|x a IH]; simpl; intros Ha Hb; [exact Hb|].
  destruct (Ascii.eqb x c); [discriminate|].
  destruct (Cstr.find a c); [discriminate|]. now rewrite IH.
Qed.

Lemma take_append n rest : Cstr.take (String.length n) (n +:+ rest) = n.
Proof. induction n as [|a n IH]; simpl; [now destruct rest|now rewrite IH]. Qed.

Lemma find_take s c p :
  Cstr.find s c = Some p -> Cstr.find (Cstr.take p s) c = None.
Proof.
  revert p. induction s as [|a s IH]; intros p; simpl; [discriminate|].
  destruct (Ascii.eqb a c) eqn:E.
  - intros H. inversion H; subst. reflexivity.
  - destruct (Cstr.find s c) as [q|] eqn:F; [|discriminate].
    intros H. inversion H; subst. simpl. rewrite E.
    now rewrite (IH q eq_refl).
Qed.

Lemma rfind_none_find s c : Cstr.find s c = None -> Cstr.rfind s c = None.
Proof.
  induction s as [|a s IH]; simpl; [reflexivity|].
  destruct (Ascii.eqb a c); [discriminate|].
  destruct (Cstr.find s c); [discriminate|]. intros _. now rewrite IH.
Qed.

Lemma rfind_append_last n c v :
  Cstr.find v c = None ->
  Cstr.rfind (n +:+ String c v) c = Some (String.length n).
Proof.
  intros Hv. induction n as [|a n IH]; simpl.
  - rewrite (rfind_none_find _ _ Hv). now rewrite Ascii.eqb_refl.
  - now rewrite IH.
Qed.

Lemma dag_unmangle_strips_signature_aux name sig :
  Cstr.find name "(" = None ->
  dag_unmangle (name +:+ "(" +:+ sig) = name.
Proof.
  intros H. unfold dag_unmangle.
  change ("(" +:+ sig) with (String "(" sig).
  rewrite (find_append_first _ _ _ H). apply take_append.
Qed.

(** X1: [dag_unmangle] gives back the name a parameter signature was
    appended to: from a name without parenthesis followed by "(" and
    anything, the name. *)
Theorem dag_unmangle_strips_signature name sig :
  Cstr.find name "(" = None ->
  dag_unmangle (name +:+ "(" +:+ sig) = name.
Proof.
  apply dag_unmangle_strips_signature_aux.
Qed.

Lemma dag_unmangle_strips_signature_witness :
  dag_unmangle ("::df::measured_edf$1.0" +:+ "("
                  +:+ "light_profile,bool,float3x3,string)")
  = "::df::measured_edf$1.0".
Proof. apply dag_unmangle_strips_signature. reflexivity. Defined.

(** X2: the result of [dag_unmangle] holds no opening parenthesis, so
    unmangling twice is unmangling once. *)
Theorem dag_unmangle_idempotent name :
  Cstr.find (dag_unmangle name) "(" = None
  /\ dag_unmangle (dag_unmangle name) = dag_unmangle name.
Proof.
  assert (H : Cstr.find (dag_unmangle name) "(" = None).
  { unfold dag_unmangle. destruct (Cstr.find name "(") as [p|] eqn:E.
    - now apply find_take.
    - exact E. }
  split; [exact H|].
  unfold dag_unmangle at 1. now rewrite H.
Qed.

(** X3: [remove_deprecated] cuts at the last dollar sign: from a name
    followed by "$" and a version without dollar sign it gives the name,
    whatever dollar signs the name holds itself; a name without dollar
    sign is left as it is. *)
Theorem remove_deprecated_cuts_last_suffix name version :
  Cstr.find version "$" = None ->
  remove_deprecated (name +:+ "$" +:+ version) = name
  /\ remove_deprecated version = version.
Proof.
  intros H. unfold remove_deprecated. split.
  - change ("$" +:+ version) with (String "$" version).
    rewrite (rfind_append_last _ _ _ H). apply take_append.
  - now rewrite (rfind_none_find _ _ H).
Qed.

Lemma remove_deprecated_cuts_last_suffix_witness :
  remove_deprecated ("::my$mod::f" +:+ "$" +:+ "1.3") = "::my$mod::f"
  /\ remove_deprecated "1.3" = "1.3".
Proof. apply remove_deprecated_cuts_last_suffix. reflexivity. Defined.

(** X4: [dag_unmangle] keeps the version suffix of a deprecated name, and
    [remove_deprecated] after it gives the plain name: the two steps the
    conversions apply to the name of a definition. *)
Theorem unmangle_then_remove_deprecated name version sig :
  Cstr.find name "(" = None ->
  Cstr.find version "(" = None ->
  Cstr.find version "$" = None ->
  dag_unmangle (name +:+ "$" +:+ version +:+ "(" +:+ sig)
  = name +:+ "$" +:+ version
  /\ remove_deprecated
       (dag_unmangle (name +:+ "$" +:+ version +:+ "(" +:+ sig))
     = name.
Proof.
  intros Hn Hv Hd.
  assert (E : dag_unmangle (name +:+ "$" +:+ version +:+ "(" +:+ sig)
              = name +:+ "$" +:+ version).
  { replace (name +:+ "$" +:+ version +:+ "(" +:+ sig)
      with ((name +:+ "$" +:+ version) +:+ "(" +:+ sig)
      by (rewrite (append_assoc name); rewrite (append_assoc "$");
          reflexivity).
    apply dag_unmangle_strips_signature_aux.
    apply find_append_none; [exact Hn|].
    change ("$" +:+ version) with (String "$" version).
    simpl. now rewrite Hv. }
  split; [exact E|]. rewrite E.
  unfold remove_deprecated.
  change ("$" +:+ version) with (String "$" version).
  rewrite (rfind_append_last _ _ _ Hd). apply take_append.
Qed.

Lemma unmangle_then_remove_deprecated_witness :
  dag_unmangle ("::df::spot_edf" +:+ "$" +:+ "1.0" +:+ "("
                  +:+ "float,bool,float3x3,string)")
  = "::df::spot_edf" +:+ "$" +:+ "1.0"
  /\ remove_deprecated
       (dag_unmangle ("::df::spot_edf" +:+ "$" +:+ "1.0" +:+ "("
                        +:+ "float,bool,float3x3,string)"))
     = "::df::spot_edf".
Proof. apply unmangle_then_remove_deprecated; reflexivity. Defined.

(** ** Qualified names and their strings *)

Lemma split_scope_nonempty s : forall cur, Cstr.split_scope cur s <> [].
Proof.
  assert (Hboth : (forall cur, Cstr.split_scope cur s <> [])
                  /\ (forall a cur, Cstr.split_scope cur (String a s) <> [])).
  { induction s as [|b r IH].
    - split; intros; discriminate.
    - destruct IH as [IH1 IH2]. split.
      + intros cur. apply IH2.
      + intros a cur.
        change (Cstr.split_scope cur (String a (String b r)))
          with (if Ascii.eqb a ":" && Ascii.eqb b ":"
                then cur :: Cstr.split_scope "" r
                else Cstr.split_scope (cur +:+ String a "") (String b r)).
        destruct (Ascii.eqb a ":" && Ascii.eqb b ":");
          [discriminate|apply IH2]. }
  apply Hboth.
Qed.

Lemma join_scope_cons p rest :
  rest <> [] -> join_scope (p :: rest) = p +:+ "::" +:+ join_scope rest.
Proof. destruct rest; [congruence|reflexivity]. Qed.

Lemma join_split_scope s :
  forall cur, join_scope (Cstr.split_scope cur s) = cur +:+ s.
Proof.
  assert (Hboth :
    (forall cur, join_scope (Cstr.split_scope cur s) = cur +:+ s)
    /\ (forall a cur,
          join_scope (Cstr.split_scope cur (String a s))
          = cur +:+ String a s)).
  { induction s as [|b r IH].
    - split; intros.
      + simpl. now rewrite append_empty_r.
      + reflexivity.
    - destruct IH as [IH1 IH2]. split.
      + intros cur. apply IH2.
      + intros a cur.
        change (Cstr.split_scope cur (String a (String b r)))
          with (if Ascii.eqb a ":" && Ascii.eqb b ":"
                then cur :: Cstr.split_scope "" r
                else Cstr.split_scope (cur +:+ String a "") (String b r)).
        destruct (Ascii.eqb a ":" && Ascii.eqb b ":") eqn:Hab.
        * apply andb_true_iff in Hab as [Ha Hb].
          apply Ascii.eqb_eq in Ha, Hb. subst.
          rewrite join_scope_cons by apply split_scope_nonempty.
          now rewrite IH1.
        * rewrite IH2. now rewrite append_assoc. }
  apply Hboth.
Qed.

Lemma strip_absolute_string name :
  (if (strip_absolute name).1 then "::" else "")
    +:+ (strip_absolute name).2 = name.
Proof.
  destruct name as [|a [|b [|c r]]]; try reflexivity.
  unfold strip_absolute.
  destruct (Ascii.eqb a ":" && Ascii.eqb b ":") eqn:Hab; [|reflexivity].
  apply andb_true_iff in Hab as [Ha Hb].
  apply Ascii.eqb_eq in Ha, Hb. now subst.
Qed.

(** X5: [create_qualified_name] returns for every name, violates no
    assertion and leaves the builder as it is; the name it returns has at
    least one component and stands for the string it was made from: its
    components joined by "::", after a leading "::" when it is absolute,
    are that string. *)
Theorem qualified_name_round_trip name s :
  exists qname,
    create_qualified_name name s = Ok (qname, s)
    /\ qn_components qname <> []
    /\ qualified_name_string qname = name.
Proof.
  exists (qualified_name_of name). split; [|split].
  - apply create_qualified_name_run.
  - apply split_scope_nonempty.
  - unfold qualified_name_string, qualified_name_of. simpl.
    rewrite join_split_scope. apply strip_absolute_string.
Qed.

Lemma Forall_removelast {A} (P : A -> Prop) (l : list A) :
  Forall P l -> Forall P (removelast l).
Proof.
  induction 1 as [|x l Hx Hl IH]; [constructor|].
  simpl. destruct l; [constructor|]. constructor; [exact Hx|exact IH].
Qed.

Lemma split_scope_no_separator s :
  forall cur,
    has_scope_separator s = false ->
    Cstr.split_scope cur s = [cur +:+ s].
Proof.
  assert (Hboth :
    (forall cur, has_scope_separator s = false ->
                 Cstr.split_scope cur s = [cur +:+ s])
    /\ (forall a cur, has_scope_separator (String a s) = false ->
                      Cstr.split_scope cur (String a s)
                      = [cur +:+ String a s])).
  { induction s as [|b r IH].
    - split; intros.
      + simpl. now rewrite append_empty_r.
      + reflexivity.
    - destruct IH as [IH1 IH2]. split.
      + intros cur. apply IH2.
      + intros a cur Hsep.
        rewrite has_scope_separator_cons in Hsep.
        apply orb_false_iff in Hsep as [Hab Hrest].
        change (Cstr.split_scope cur (String a (String b r)))
          with (if Ascii.eqb a ":" && Ascii.eqb b ":"
                then cur :: Cstr.split_scope "" r
                else Cstr.split_scope (cur +:+ String a "") (String b r)).
        simpl in Hab. rewrite Hab.
        rewrite (IH2 _ _ Hrest). now rewrite append_assoc. }
  apply Hboth.
Qed.

Lemma create_scope_name_run name s :
  create_scope_name name s = Ok (scope_name_of name, s).
Proof.
  assert (Hpieces :
    Forall (fun p => has_scope_separator p = false)
      (Cstr.split_scope "" (strip_absolute name).2))
    by (apply split_scope_pieces; [reflexivity|discriminate]).
  unfold create_scope_name, scope_name_of.
  destruct (strip_absolute name) as [abs rest]. simpl in *.
  rewrite add_simple_names_run by (now apply Forall_removelast).
  now destruct abs.
Qed.

(** X6: [create_scope_name] returns for every name, violates no assertion
    and leaves the builder as it is; the qualified name of
    [create_qualified_name] is the scope name followed by one more
    component, with the same absolute flag.  A name without separator has
    the empty scope. *)
Theorem scope_name_is_qualified_name_without_last name s :
  exists scope last,
    create_scope_name name s = Ok (scope, s)
    /\ create_qualified_name name s = Ok (add_component scope last, s)
    /\ (has_scope_separator (strip_absolute name).2 = false ->
        qn_components scope = []).
Proof.
  set (pieces := Cstr.split_scope "" (strip_absolute name).2).
  assert (Hne : pieces <> []) by apply split_scope_nonempty.
  exists (scope_name_of name), (List.last pieces "").
  split; [|split].
  - apply create_scope_name_run.
  - rewrite create_qualified_name_run.
    unfold qualified_name_of, scope_name_of, add_component. fold pieces.
    simpl. now rewrite <- (app_removelast_last "" Hne).
  - intros Hsep. simpl. fold pieces. subst pieces.
    rewrite (split_scope_no_separator _ "" Hsep). reflexivity.
Qed.

Lemma scope_name_is_qualified_name_without_last_witness :
  exists scope,
    create_scope_name "color" (new_builder empty_transaction [])
    = Ok (scope, new_builder empty_transaction [])
    /\ qn_components scope = [].
Proof.
  destruct (scope_name_is_qualified_name_without_last "color"
              (new_builder empty_transaction []))
    as (scope & last & Hscope & _ & Hempty).
  exists scope. split; [exact Hscope|]. apply Hempty. reflexivity.
Defined.

(** ** Type names and types *)

Lemma or_modifiers_assoc a b c :
  or_modifiers (or_modifiers a b) c = or_modifiers a (or_modifiers b c).
Proof. unfold or_modifiers. simpl. now rewrite !orb_assoc. Qed.

Lemma or_modifiers_none_r a : or_modifiers a no_modifiers = a.
Proof. destruct a. unfold or_modifiers. simpl. now rewrite !orb_false_r. Qed.

Lemma create_type_name_with_aliases t :
  forall mods,
    create_type_name_with mods t
    = create_type_name_with
        (or_modifiers mods (get_all_type_modifiers t))
        (skip_all_type_aliases t).
Proof.
  induction t; intros mods; simpl;
    try (now rewrite or_modifiers_none_r).
  rewrite IHt. now rewrite or_modifiers_assoc.
Qed.

Lemma apply_modifiers_qualifier mods q :
  tn_qualifier (apply_modifiers mods (create_type_name_of q))
  = qualifier_of mods
  /\ tn_array_size (apply_modifiers mods (create_type_name_of q)) = None.
Proof.
  unfold apply_modifiers, qualifier_of.
  destruct (MK_UNIFORM mods), (MK_VARYING mods); split; reflexivity.
Qed.

Lemma get_type_name_returns t :
  forall s, exists name s', get_type_name t s = Ok (name, s').
Proof.
  induction t as [? ? ?| | |?| | | | | | | |? IH ?|? IH ? ?| |?|?| |? IH ?];
    intros s; simpl; try (now eexists _, _).
  - destruct (IH s) as (name & s' & H). eexists _, _.
    rewrite (bind_Ok _ _ _ _ _ H). reflexivity.
  - destruct (IH s) as (name & s' & H). eexists _, _.
    rewrite (bind_Ok _ _ _ _ _ H). reflexivity.
  - destruct (IH s) as (name & s' & H). eexists _, _.
    rewrite (bind_Ok _ _ _ _ _ H). reflexivity.
Qed.

Lemma skip_all_type_aliases_no_alias t a m :
  skip_all_type_aliases t <> TK_ALIAS a m.
Proof. induction t; simpl; try discriminate. exact IHt. Qed.

(** X8: [create_type_name] returns for every type that is no array type;
    the type name has no array size, and its qualifier is uniform when an
    alias of the chain is uniform, else varying when one is varying, else
    none: uniform goes before varying. *)
Theorem type_name_qualifier_uniform_first t s :
  is_array_type t = false ->
  exists tn s',
    create_type_name t s = Ok (tn, s')
    /\ tn_qualifier tn = qualifier_of (get_all_type_modifiers t)
    /\ tn_array_size tn = None.
Proof.
  intros Harr. unfold is_array_type in Harr.
  unfold create_type_name.
  rewrite create_type_name_with_aliases.
  replace (or_modifiers no_modifiers (get_all_type_modifiers t))
    with (get_all_type_modifiers t)
    by (unfold or_modifiers; simpl; now destruct (get_all_type_modifiers t)).
  pose proof (skip_all_type_aliases_no_alias t) as Hna.
  destruct (get_type_name_returns (skip_all_type_aliases t) s)
    as (name & s1 & Hname).
  exists (apply_modifiers (get_all_type_modifiers t)
            (create_type_name_of (qualified_name_of name))), s1.
  split; [|apply apply_modifiers_qualifier].
  destruct (skip_all_type_aliases t) eqn:E;
    try discriminate Harr;
    try (now contradiction (Hna _ _ eq_refl));
    cbn [create_type_name_with];
    rewrite (bind_Ok _ _ _ _ _ Hname);
    rewrite (bind_Ok _ _ _ _ _ (create_qualified_name_run _ _));
    reflexivity.
Qed.

Lemma type_name_qualifier_uniform_first_witness :
  exists tn s',
    create_type_name
      (TK_ALIAS
         (TK_ALIAS TK_FLOAT {| MK_UNIFORM := true; MK_VARYING := false |})
         {| MK_UNIFORM := false; MK_VARYING := true |})
      (new_builder empty_transaction [])
    = Ok (tn, s')
    /\ tn_qualifier tn = FQ_UNIFORM
    /\ tn_array_size tn = None.
Proof.
  apply (type_name_qualifier_uniform_first
           (TK_ALIAS
              (TK_ALIAS TK_FLOAT
                 {| MK_UNIFORM := true; MK_VARYING := false |})
              {| MK_UNIFORM := false; MK_VARYING := true |})
           (new_builder empty_transaction [])).
  reflexivity.
Defined.

(** ** Values *)

Lemma transform_elements_run vs :
  forall ref args s es s',
    values_in_order vs s es s' ->
    (fix transform_elements (call : mdl_IExpression) (vs : list IValue)
       {struct vs} : M mdl_IExpression :=
       match vs with
       | [] => mret call
       | e_v :: rest =>
           e ← transform_value e_v;
           transform_elements (add_argument call (positional_argument e))
             rest
       end) (E_call ref args) vs s
    = Ok (E_call ref (args ++ (positional_argument <$> es))%list, s').
Proof.
  induction vs as [|v vs IH]; intros ref args s es s' H.
  - destruct es; [|contradiction]. simpl in H. subst.
    simpl. now rewrite app_nil_r.
  - destruct es as [|e es]; [contradiction|].
    destruct H as (s1 & Hv & Hrest).
    rewrite (bind_Ok _ _ _ _ _ Hv). cbn [add_argument].
    rewrite (IH _ _ _ _ _ Hrest). simpl. now rewrite <- app_assoc.
Qed.

(** X10: a vector, matrix, color or struct value becomes a call of its
    type name, an array value a call of the type name of its elements
    marked as incomplete array; the arguments are the materialized
    elements, all of them, in their order, each positional. *)
Theorem compound_value_is_constructor_call k c_tp size elements s tn s0 es s' :
  create_type_name c_tp s = Ok (tn, s0) ->
  values_in_order elements s0 es s' ->
  transform_value (VK_COMPOUND k c_tp elements) s
  = Ok (E_call (E_reference tn) (positional_argument <$> es), s')
  /\ transform_value (VK_ARRAY c_tp size elements) s
     = Ok (E_call (E_reference (set_incomplete_array tn))
             (positional_argument <$> es), s').
Proof.
  intros Htn Hes. split; cbn [transform_value];
    rewrite (bind_Ok _ _ _ _ _ Htn); unfold create_call;
    now rewrite (transform_elements_run _ _ _ _ _ _ Hes).
Qed.

Lemma compound_value_is_constructor_call_witness :
  transform_value
    (VK_COMPOUND VK_VECTOR float3
       [VK_FLOAT F32.one; VK_FLOAT F32.zero; VK_FLOAT F32.pi])
    (new_builder empty_transaction [])
  = Ok (E_call (reference_to false ["float3"])
          [positional_argument (E_literal (V_float F32.one));
           positional_argument (E_literal (V_float F32.zero));
           positional_argument (E_literal (V_float F32.pi))],
        new_builder empty_transaction []).
Proof.
  refine (proj1 (compound_value_is_constructor_call VK_VECTOR float3
                   (Immediate_size 3) _ (new_builder empty_transaction [])
                   _ (new_builder empty_transaction [])
                   [E_literal (V_float F32.one); E_literal (V_float F32.zero);
                    E_literal (V_float F32.pi)]
                   (new_builder empty_transaction []) _ _)).
  - reflexivity.
  - simpl. eexists. split; [reflexivity|].
    eexists. split; [reflexivity|].
    eexists. split; [reflexivity|]. reflexivity.
Defined.

(** X11: materializing a value changes nothing but the diagnostic sink and
    the trace of violated assertions, to which it appends: the list of used
    user types stays as it is, also for a value of a user struct or user
    enum, and so do the transaction, the parameter map, the arguments and
    the counter of temporaries. *)
Theorem transform_value_touches_sinks_only v s e s' :
  transform_value v s = Ok (e, s') ->
  only_appends s s' /\ m_used_user_types s' = m_used_user_types s.
Proof.
  intros H. split.
  - exact (appends_transform_value v _ _ _ H).
  - exact (keeps_transform_value v _ _ _ H).
Qed.

Lemma transform_value_touches_sinks_only_witness :
  only_appends (new_builder resource_transaction [])
    (logged (log_error "Incorrect type for light profile resource"
               "not_an_image")
       (new_builder resource_transaction []))
  /\ m_used_user_types
       (logged (log_error "Incorrect type for light profile resource"
                  "not_an_image")
          (new_builder resource_transaction []))
     = m_used_user_types (new_builder resource_transaction []).
Proof.
  exact (transform_value_touches_sinks_only (VK_LIGHT_PROFILE 2)
           (new_builder resource_transaction []) _ _ eq_refl).
Defined.

(** X12: a light profile or BSDF measurement value whose valid tag is
    that of a record of another class gives one diagnostic, which names the
    record, and the literal resource value without path, with the tag and
    the hash of the version of the tag. *)
Theorem resource_of_wrong_class_degrades tag s :
  tag_is_invalid tag = false ->
  (get_class_id (m_trans s) tag <> ID_LIGHTPROFILE ->
   transform_value (VK_LIGHT_PROFILE tag) s
   = Ok (E_literal
           (V_light_profile (Some T_light_profile) "" tag
              (get_hash_resource None (get_tag_version (m_trans s) tag))),
         logged (log_error "Incorrect type for light profile resource"
                   (default "" (tag_to_name (m_trans s) tag))) s))
  /\ (get_class_id (m_trans s) tag <> ID_BSDF_MEASUREMENT ->
      transform_value (VK_BSDF_MEASUREMENT tag) s
      = Ok (E_literal
              (V_bsdf_measurement (Some T_bsdf_measurement) "" tag
                 (get_hash_resource None (get_tag_version (m_trans s) tag))),
            logged (log_error "Incorrect type for BSDF measurement resource"
                      (default "" (tag_to_name (m_trans s) tag))) s)).
Proof.
  intros Htag. split; intros Hclass; cbn [transform_value];
    rewrite (bind_Ok _ _ s _ s) by reflexivity;
    rewrite Htag;
    rewrite (bind_Ok _ _ s (m_trans s) s) by reflexivity.
  - unfold get_light_profile_resource_name.
    destruct (decide (get_class_id (m_trans s) tag <> ID_LIGHTPROFILE));
      [reflexivity|contradiction].
  - unfold get_bsdf_measurement_resource_name.
    destruct (decide (get_class_id (m_trans s) tag <> ID_BSDF_MEASUREMENT));
      [reflexivity|contradiction].
Qed.

Lemma resource_of_wrong_class_degrades_witness :
  transform_value (VK_BSDF_MEASUREMENT 2) (new_builder resource_transaction [])
  = Ok (E_literal
          (V_bsdf_measurement (Some T_bsdf_measurement) "" 2%N
             (get_hash_resource None 7%N)),
        logged (log_error "Incorrect type for BSDF measurement resource"
                  "not_an_image")
          (new_builder resource_transaction [])).
Proof.
  apply (proj2 (resource_of_wrong_class_degrades 2%N
                  (new_builder resource_transaction []) eq_refl)).
  discriminate.
Defined.

(** X13: a texture value on a texture record without image gives no
    diagnostic, one whose image tag is that of a record of another class
    gives one diagnostic, which names that record; both give the literal
    texture value without path, with the default gamma mode whatever the
    gamma of the texture, with the tag and the hash of the versions of the
    tag and of the image tag. *)
Theorem texture_without_usable_image shape tag image_tag gamma_override s :
  tag_is_invalid tag = false ->
  db_elements (m_trans s) !! tag = Some (Texture image_tag gamma_override) ->
  (tag_is_invalid image_tag = true ->
   transform_value (VK_TEXTURE shape tag) s
   = Ok (E_literal
           (V_texture (Some (T_texture shape)) "" gamma_default tag
              (get_hash_texture None F32.zero
                 (get_tag_version (m_trans s) tag)
                 (get_tag_version (m_trans s) image_tag))), s))
  /\ (tag_is_invalid image_tag = false ->
      get_class_id (m_trans s) image_tag <> ID_IMAGE ->
      transform_value (VK_TEXTURE shape tag) s
      = Ok (E_literal
              (V_texture (Some (T_texture shape)) "" gamma_default tag
                 (get_hash_texture None F32.zero
                    (get_tag_version (m_trans s) tag)
                    (get_tag_version (m_trans s) image_tag))),
            logged (log_error "Incorrect type for image resource"
                      (default "" (tag_to_name (m_trans s) image_tag))) s)).
Proof.
  intros Htag Hel.
  destruct (create_type_name_texture shape s) as [tn Htn].
  assert (Hclass : get_class_id (m_trans s) tag = ID_TEXTURE)
    by (unfold get_class_id; now rewrite Hel).
  assert (Hrun : forall res s1,
    get_texture_resource_name_and_gamma (m_trans s) tag s
    = Ok (("", res), s1) ->
    transform_value (VK_TEXTURE shape tag) s
    = Ok (E_literal
            (V_texture (Some (T_texture shape)) "" res tag
               (get_hash_texture None F32.zero
                  (get_tag_version (m_trans s) tag)
                  (get_tag_version (m_trans s) image_tag))), s1)).
  { intros res s1 Hname. cbn [transform_value].
    rewrite (bind_Ok _ _ _ _ _ Htn).
    rewrite (bind_Ok _ _ s (m_trans s) s) by reflexivity.
    rewrite Htag, Hclass.
    rewrite bool_decide_eq_false_2 by (intros Hne; now apply Hne).
    cbn [orb].
    rewrite (bind_Ok _ _ _ _ _ Hname). cbn [fst snd string_empty].
    unfold access_texture. rewrite Hel. reflexivity. }
  split.
  - intros Himg. apply Hrun.
    unfold get_texture_resource_name_and_gamma. rewrite Hclass.
    destruct (decide (ID_TEXTURE <> ID_TEXTURE)) as [Hne|_];
      [now contradiction Hne|].
    unfold access_texture. rewrite Hel.
    rewrite (bind_Ok _ _ s (image_tag, gamma_override) s) by reflexivity.
    cbn [fst snd]. now rewrite Himg.
  - intros Himg Hic. apply Hrun.
    unfold get_texture_resource_name_and_gamma. rewrite Hclass.
    destruct (decide (ID_TEXTURE <> ID_TEXTURE)) as [Hne|_];
      [now contradiction Hne|].
    unfold access_texture. rewrite Hel.
    rewrite (bind_Ok _ _ s (image_tag, gamma_override) s) by reflexivity.
    cbn [fst snd]. rewrite Himg.
    destruct (decide (get_class_id (m_trans s) image_tag <> ID_IMAGE));
      [reflexivity|contradiction].
Qed.

Lemma texture_without_usable_image_witness :
  transform_value (VK_TEXTURE TS_CUBE 6) (new_builder resource_transaction [])
  = Ok (E_literal
          (V_texture (Some (T_texture TS_CUBE)) "" gamma_default 6%N
             (get_hash_texture None F32.zero 5%N 7%N)),
        logged (log_error "Incorrect type for image resource" "not_an_image")
          (new_builder resource_transaction [])).
Proof.
  apply (proj2 (texture_without_usable_image TS_CUBE 6%N 2%N F32.one
                  (new_builder resource_transaction []) eq_refl eq_refl)).
  - reflexivity.
  - discriminate.
Defined.



(** X15: an enum value becomes the reference to the name of the value in
    the scope of the enum type, that is the type's qualified name with the
    value's name in place of its last component, typed with the converted
    enum type; the builder is as before. *)
Theorem enum_value_is_scoped_reference e_tp index v_name code s :
  e_values e_tp !! index = Some (v_name, code) ->
  has_scope_separator v_name = false ->
  transform_value (VK_ENUM e_tp index) s
  = Ok (reference_of
          (add_component (scope_name_of (e_symbol e_tp)) v_name)
          (Some (convert_enum_type e_tp)), s).
Proof.
  intros Hv Hsep. cbn [transform_value].
  rewrite Hv. simpl fmap.
  rewrite (bind_Ok _ _ s v_name s) by reflexivity.
  rewrite (bind_Ok _ _ s v_name s)
    by (unfold create_simple_name, ASSERT, mbind, M_bind;
        now rewrite Hsep).
  rewrite (bind_Ok _ _ _ _ _ (create_scope_name_run _ _)).
  reflexivity.
Qed.

Lemma enum_value_is_scoped_reference_witness :
  transform_value (VK_ENUM user_enum 1) (new_builder empty_transaction [])
  = Ok (reference_of
          {| qn_components := ["mod"; "exact"]; qn_absolute := true |}
          (Some (T_enum "::mod::Mode" [("fast", 0%Z); ("exact", 1%Z)])),
        new_builder empty_transaction []).
Proof.
  apply (enum_value_is_scoped_reference user_enum 1 "exact" 1%Z
           (new_builder empty_transaction []));
    reflexivity.
Defined.

(** ** Calls: loops over the supplied arguments *)

Lemma arguments_from_zip_with f i names es :
  arguments_from (fun _ => f) i names es = zip_with f names es.
Proof.
  revert i es. induction names as [|n names IH]; intros i [|e es];
    simpl; try reflexivity. now rewrite IH.
Qed.

Lemma for_loop_arguments rec (args : IExpression_list)
    (body : nat -> mdl_IExpression -> M mdl_IExpression) w :
  (forall i name a call s e s1,
      args !! i = Some (name, a) ->
      rec a s = Ok (e, s1) ->
      body i call s = Ok (add_argument call (w i name e), s1)) ->
  forall n i ref acc s es s',
    i + n <= length args ->
    transformed_in_order rec (snd <$> take n (drop i args)) s es s' ->
    for_loop n i body (E_call ref acc) s
    = Ok (E_call ref
            (acc ++ arguments_from w i (fst <$> take n (drop i args)) es)%list,
          s').
Proof.
  intros Hbody. induction n as [|n IH]; intros i ref acc s es s' Hlen Hes.
  - simpl in Hes. destruct es; [|contradiction]. subst.
    simpl. now rewrite app_nil_r.
  - assert (Hi : is_Some (args !! i)) by (apply lookup_lt_is_Some_2; lia).
    destruct Hi as [[name a] Hi].
    rewrite (drop_S _ _ _ Hi) in Hes |- *.
    simpl in Hes. destruct es as [|e es]; [contradiction|].
    destruct Hes as (s1 & Ha & Hrest).
    rewrite for_loop_step.
    rewrite (bind_Ok _ _ _ _ _ (Hbody _ _ _ _ _ _ _ Hi Ha)).
    cbn [add_argument].
    rewrite (IH (S i) ref _ s1 es s') by (try lia; exact Hrest).
    simpl. now rewrite <- app_assoc.
Qed.

Lemma supplied_body_run rec named_args (args : IExpression_list)
    i name a call s e s1 :
  args !! i = Some (name, a) ->
  rec a s = Ok (e, s1) ->
  (expr ← transform_argument rec args i;
   arg ← supplied_argument named_args args i expr;
   mret (add_argument call arg)) s
  = Ok (add_argument call (wrap_argument named_args name e), s1).
Proof.
  intros Hi Ha.
  rewrite (bind_Ok _ _ _ _ _ (transform_argument_run _ _ _ _ _ _ _ _ Hi Ha)).
  rewrite (bind_Ok _ _ _ _ _ (supplied_argument_run _ _ _ _ _ _ _ Hi)).
  reflexivity.
Qed.

Lemma convert_to_latest_plain rec sema callee_name n_params args
    named_args s :
  is_plain_call sema callee_name n_params = true ->
  convert_to_latest rec sema callee_name n_params args named_args s
  = Ok (None, s).
Proof.
  intros H. unfold convert_to_latest.
  destruct sema; simpl in H; try discriminate H; try reflexivity.
  - apply andb_true_iff in H as [H4 H5].
    apply negb_true_iff, Nat.eqb_neq in H4, H5.
    destruct (decide (n_params = 4)); [contradiction|].
    destruct (decide (n_params = 5)); [contradiction|]. reflexivity.
  - destruct (Cstr.rfind callee_name "$"); [discriminate|reflexivity].
  - apply negb_true_iff, Nat.eqb_neq in H.
    destruct (decide (n_params = 4)); [contradiction|reflexivity].
  - apply negb_true_iff, Nat.eqb_neq in H.
    destruct (decide (n_params = 2)); [contradiction|reflexivity].
  - apply negb_true_iff, Nat.eqb_neq in H.
    destruct (decide (n_params = 1)); [contradiction|reflexivity].
  - apply negb_true_iff, Nat.eqb_neq in H.
    destruct (decide (n_params = 1)); [contradiction|reflexivity].
  - apply negb_true_iff, Nat.eqb_neq in H.
    destruct (decide (n_params = 2)); [contradiction|reflexivity].
  - apply negb_true_iff, Nat.eqb_neq in H.
    destruct (decide (n_params = 2)); [contradiction|reflexivity].
  - apply negb_true_iff, Nat.eqb_neq in H.
    destruct (decide (n_params = 2)); [contradiction|reflexivity].
  - apply negb_true_iff, Nat.eqb_neq in H.
    destruct (decide (n_params = 2)); [contradiction|reflexivity].
  - apply negb_true_iff, Nat.eqb_neq in H.
    destruct (decide (n_params = 2)); [contradiction|reflexivity].
Qed.

Lemma plain_call_run rec ret_type sema callee_name n_params args named_args
    s s0 es s' :
  is_plain_call sema callee_name n_params = true ->
  n_params <= length args ->
  record_used_user_type ret_type s = Ok (tt, s0) ->
  transformed_in_order rec (snd <$> take n_params args) s0 es s' ->
  transform_call rec ret_type sema callee_name n_params args named_args s
  = Ok (E_call (reference_of (qualified_name_of callee_name) None)
          (zip_with (wrap_argument named_args)
             (fst <$> take n_params args) es),
        s').
Proof.
  intros Hplain Hlen Hrecord Hes.
  unfold transform_call. rewrite (bind_Ok _ _ _ _ _ Hrecord).
  assert (Hloop :
    (qname ← create_qualified_name callee_name;
     for_loop n_params 0
       (fun i call =>
          expr ← transform_argument rec args i;
          arg ← supplied_argument named_args args i expr;
          mret (add_argument call arg))
       (create_call (to_reference qname None))) s0
    = Ok (E_call (reference_of (qualified_name_of callee_name) None)
            (zip_with (wrap_argument named_args)
               (fst <$> take n_params args) es), s')).
  { rewrite (bind_Ok _ _ _ _ _ (create_qualified_name_run _ _)).
    unfold create_call.
    rewrite (for_loop_arguments rec args _
               (fun _ => wrap_argument named_args)
               (supplied_body_run rec named_args args)
               n_params 0 _ [] s0 es s' Hlen Hes).
    now rewrite arguments_from_zip_with. }
  pose proof (convert_to_latest_plain rec sema callee_name n_params args
                named_args s0 Hplain) as Hconv.
  unfold transform_call_dispatch.
  destruct sema; simpl in Hplain; try discriminate Hplain;
    rewrite (bind_Ok _ _ _ _ _ Hconv); exact Hloop.
Qed.

(** X16: a call that is no operator and no DAG intrinsic and for which no
    conversion is made (a user function, a material, or a version-sensitive
    function with another number of parameters) becomes the call of the
    callee name as it is, deprecation suffix included, on the first
    [n_params] arguments, transformed from left to right, all named or all
    positional as the call is. *)
Theorem plain_call_on_all_arguments
    fuel ret_type sema callee_name n_params args named_args s s0 es s' :
  is_plain_call sema callee_name n_params = true ->
  n_params <= length args ->
  record_used_user_type ret_type s = Ok (tt, s0) ->
  transformed_in_order (transform_expr fuel)
    (snd <$> take n_params args) s0 es s' ->
  transform_call (transform_expr fuel) ret_type sema callee_name n_params
    args named_args s
  = Ok (E_call (reference_of (qualified_name_of callee_name) None)
          (zip_with (wrap_argument named_args)
             (fst <$> take n_params args) es),
        s').
Proof. apply plain_call_run. Qed.

(** A measured EDF call with three parameters: no conversion, and the
    name keeps its suffix. *)
Lemma plain_call_on_all_arguments_witness :
  transform_call (transform_expr 1) TK_EDF DS_INTRINSIC_DF_MEASURED_EDF
    "::df::measured_edf$1.0" 3 four_arguments true
    (new_builder empty_transaction [])
  = Ok (E_call (reference_to true ["df"; "measured_edf$1.0"])
          [named_argument "a" (E_literal (V_int 10));
           named_argument "b" (E_literal (V_int 20));
           named_argument "c" (E_literal (V_int 30))],
        new_builder empty_transaction []).
Proof.
  apply (plain_call_on_all_arguments 1 TK_EDF DS_INTRINSIC_DF_MEASURED_EDF
           "::df::measured_edf$1.0" 3 four_arguments true _
           (new_builder empty_transaction [])
           [E_literal (V_int 10); E_literal (V_int 20); E_literal (V_int 30)]).
  - reflexivity.
  - simpl. lia.
  - reflexivity.
  - simpl. eexists. split; [reflexivity|].
    eexists. split; [reflexivity|].
    eexists. split; [reflexivity|]. reflexivity.
Defined.

(** ** Calls: the conversions to the latest MDL version *)

(** X17: a spot EDF call with four parameters becomes the call of the
    callee without its deprecation suffix on five arguments: pi as "spread"
    in second place, the four supplied arguments around it, transformed
    from left to right. *)
Theorem spot_edf_4_inserts_spread
    fuel ret_type callee_name named_args n0 a0 n1 a1 n2 a2 n3 a3 rest
    s s0 e0 e1 e2 e3 s4 :
  record_used_user_type ret_type s = Ok (tt, s0) ->
  transformed_in_order (transform_expr fuel) [a0; a1; a2; a3] s0
    [e0; e1; e2; e3] s4 ->
  transform_call (transform_expr fuel) ret_type DS_INTRINSIC_DF_SPOT_EDF
    callee_name 4 ((n0, a0) :: (n1, a1) :: (n2, a2) :: (n3, a3) :: rest)
    named_args s
  = Ok (E_call
          (reference_of (qualified_name_of (remove_deprecated callee_name))
             None)
          [wrap_argument named_args n0 e0;
           wrap_argument named_args "spread" (E_literal (V_float F32.pi));
           wrap_argument named_args n1 e1;
           wrap_argument named_args n2 e2;
           wrap_argument named_args n3 e3],
        s4).
Proof.
  intros Hrecord (s1 & H0 & s2 & H1 & s3 & H2 & s4' & H3 & ->).
  unfold transform_call. rewrite (bind_Ok _ _ _ _ _ Hrecord).
  unfold transform_call_dispatch.
  unfold convert_to_latest.
  destruct (decide (4 = 4)) as [_|]; [|congruence].
  set (args := (n0, a0) :: (n1, a1) :: (n2, a2) :: (n3, a3) :: rest).
  erewrite (bind_Ok _ _ s0 (Some _) s4'); [reflexivity|].
  rewrite (bind_Ok _ _ s0 _ s0) by apply create_qualified_name_run.
  match goal with
  | |- (for_loop _ _ ?b _ ≫= _) _ = _ => set (body := b)
  end.
  erewrite (bind_Ok _ _ s0 _ s4'); [reflexivity|].
  rewrite for_loop_step.
  erewrite (bind_Ok _ _ s0 _ s1);
    [|unfold body, mbind, M_bind, mret, M_ret; simpl;
      run_argument args 0 H0; run_supplied args 0; reflexivity].
  rewrite for_loop_step.
  erewrite (bind_Ok _ _ s1 _ s2);
    [|unfold body, mbind, M_bind, mret, M_ret; simpl;
      run_argument args 1 H1; run_supplied args 1; reflexivity].
  rewrite for_loop_step.
  erewrite (bind_Ok _ _ s2 _ s3);
    [|unfold body, mbind, M_bind, mret, M_ret; simpl;
      run_argument args 2 H2; run_supplied args 2; reflexivity].
  rewrite for_loop_step.
  erewrite (bind_Ok _ _ s3 _ s4');
    [|unfold body, mbind, M_bind, mret, M_ret; simpl;
      run_argument args 3 H3; run_supplied args 3; reflexivity].
  reflexivity.
Qed.

Lemma spot_edf_4_inserts_spread_witness :
  transform_call (transform_expr 1) TK_EDF DS_INTRINSIC_DF_SPOT_EDF
    "::df::spot_edf$1.0" 4 four_arguments true
    (new_builder empty_transaction [])
  = Ok (E_call (reference_to true ["df"; "spot_edf"])
          [named_argument "a" (E_literal (V_int 10));
           named_argument "spread" (E_literal (V_float F32.pi));
           named_argument "b" (E_literal (V_int 20));
           named_argument "c" (E_literal (V_int 30));
           named_argument "d" (E_literal (V_int 40))],
        new_builder empty_transaction []).
Proof.
  apply (spot_edf_4_inserts_spread 1 TK_EDF "::df::spot_edf$1.0" true
           _ _ _ _ _ _ _ _ [] _ (new_builder empty_transaction [])).
  - reflexivity.
  - simpl. eexists. split; [reflexivity|].
    eexists. split; [reflexivity|].
    eexists. split; [reflexivity|].
    eexists. split; [reflexivity|]. reflexivity.
Defined.

(** X18: a measured EDF call with five parameters becomes the call of the
    callee without its deprecation suffix on six arguments:
    [state::texture_tangent_u(0)] as "tangent_u" in fifth place, before the
    last supplied argument. *)
Theorem measured_edf_5_inserts_tangent_u
    fuel ret_type callee_name named_args n0 a0 n1 a1 n2 a2 n3 a3 n4 a4 rest
    s s0 e0 e1 e2 e3 e4 s5 :
  record_used_user_type ret_type s = Ok (tt, s0) ->
  transformed_in_order (transform_expr fuel) [a0; a1; a2; a3; a4] s0
    [e0; e1; e2; e3; e4] s5 ->
  transform_call (transform_expr fuel) ret_type DS_INTRINSIC_DF_MEASURED_EDF
    callee_name 5
    ((n0, a0) :: (n1, a1) :: (n2, a2) :: (n3, a3) :: (n4, a4) :: rest)
    named_args s
  = Ok (E_call
          (reference_of (qualified_name_of (remove_deprecated callee_name))
             None)
          [wrap_argument named_args n0 e0;
           wrap_argument named_args n1 e1;
           wrap_argument named_args n2 e2;
           wrap_argument named_args n3 e3;
           wrap_argument named_args "tangent_u" texture_tangent_u_0;
           wrap_argument named_args n4 e4],
        s5).
Proof.
  intros Hrecord (s1 & H0 & s2 & H1 & s3 & H2 & s4 & H3 & s5' & H4 & ->).
  unfold transform_call. rewrite (bind_Ok _ _ _ _ _ Hrecord).
  unfold transform_call_dispatch.
  unfold convert_to_latest.
  destruct (decide (5 = 4)) as [|_]; [congruence|].
  destruct (decide (5 = 5)) as [_|]; [|congruence].
  set (args :=
         (n0, a0) :: (n1, a1) :: (n2, a2) :: (n3, a3) :: (n4, a4) :: rest).
  erewrite (bind_Ok _ _ s0 (Some _) s5'); [reflexivity|].
  rewrite (bind_Ok _ _ s0 texture_tangent_u_0 s0) by reflexivity.
  rewrite (bind_Ok _ _ s0 _ s0) by apply create_qualified_name_run.
  match goal with
  | |- (for_loop _ _ ?b _ ≫= _) _ = _ => set (body := b)
  end.
  erewrite (bind_Ok _ _ s0 (6, _) s5'); [reflexivity|].
  rewrite for_loop_step.
  erewrite (bind_Ok _ _ s0 (1, _) s1);
    [|unfold body, mbind, M_bind, mret, M_ret; simpl;
      run_argument args 0 H0; run_supplied args 0; reflexivity].
  rewrite for_loop_step.
  erewrite (bind_Ok _ _ s1 (2, _) s2);
    [|unfold body, mbind, M_bind, mret, M_ret; simpl;
      run_argument args 1 H1; run_supplied args 1; reflexivity].
  rewrite for_loop_step.
  erewrite (bind_Ok _ _ s2 (3, _) s3);
    [|unfold body, mbind, M_bind, mret, M_ret; simpl;
      run_argument args 2 H2; run_supplied args 2; reflexivity].
  rewrite for_loop_step.
  erewrite (bind_Ok _ _ s3 (4, _) s4);
    [|unfold body, mbind, M_bind, mret, M_ret; simpl;
      run_argument args 3 H3; run_supplied args 3; reflexivity].
  rewrite for_loop_step.
  erewrite (bind_Ok _ _ s4 (6, _) s5');
    [|unfold body, mbind, M_bind, mret, M_ret; simpl;
      run_argument args 4 H4; run_supplied args 4; reflexivity].
  reflexivity.
Qed.

Lemma measured_edf_5_inserts_tangent_u_witness :
  transform_call (transform_expr 1) TK_EDF DS_INTRINSIC_DF_MEASURED_EDF
    "::df::measured_edf$1.1" 5
    (four_arguments ++ [("e", int_constant 5 50)])%list
    true (new_builder empty_transaction [])
  = Ok (E_call (reference_to true ["df"; "measured_edf"])
          [named_argument "a" (E_literal (V_int 10));
           named_argument "b" (E_literal (V_int 20));
           named_argument "c" (E_literal (V_int 30));
           named_argument "d" (E_literal (V_int 40));
           named_argument "tangent_u" texture_tangent_u_0;
           named_argument "e" (E_literal (V_int 50))],
        new_builder empty_transaction []).
Proof.
  apply (measured_edf_5_inserts_tangent_u 1 TK_EDF "::df::measured_edf$1.1"
           true _ _ _ _ _ _ _ _ _ _ [] _ (new_builder empty_transaction [])).
  - reflexivity.
  - simpl. eexists. split; [reflexivity|].
    eexists. split; [reflexivity|].
    eexists. split; [reflexivity|].
    eexists. split; [reflexivity|].
    eexists. split; [reflexivity|]. reflexivity.
Defined.

(** X19: a rounded corner normal call with two parameters becomes the call
    of the callee without its deprecation suffix on its two arguments
    followed by a third one, the literal 1.0 as "roundness". *)
Theorem rounded_corner_normal_2_appends_roundness
    fuel ret_type callee_name named_args n0 a0 n1 a1 rest s s0 e0 e1 s2 :
  record_used_user_type ret_type s = Ok (tt, s0) ->
  transformed_in_order (transform_expr fuel) [a0; a1] s0 [e0; e1] s2 ->
  transform_call (transform_expr fuel) ret_type
    DS_INTRINSIC_STATE_ROUNDED_CORNER_NORMAL
    callee_name 2 ((n0, a0) :: (n1, a1) :: rest) named_args s
  = Ok (E_call
          (reference_of (qualified_name_of (remove_deprecated callee_name))
             None)
          [wrap_argument named_args n0 e0;
           wrap_argument named_args n1 e1;
           wrap_argument named_args "roundness"
             (E_literal (V_float F32.one))],
        s2).
Proof.
  intros Hrecord Hes.
  unfold transform_call. rewrite (bind_Ok _ _ _ _ _ Hrecord).
  unfold transform_call_dispatch, convert_to_latest.
  destruct (decide (2 = 2)) as [_|]; [|congruence].
  set (args := (n0, a0) :: (n1, a1) :: rest).
  erewrite (bind_Ok _ _ s0 (Some _) s2); [reflexivity|].
  rewrite (bind_Ok _ _ s0 _ s0) by apply create_qualified_name_run.
  unfold create_call.
  rewrite (bind_Ok _ _ _ _ _
             (for_loop_arguments (transform_expr fuel) args _
                (fun _ => wrap_argument named_args)
                (supplied_body_run (transform_expr fuel) named_args args)
                2 0 _ [] s0 [e0; e1] s2 ltac:(simpl; lia) Hes)).
  reflexivity.
Qed.

Lemma rounded_corner_normal_2_appends_roundness_witness :
  transform_call (transform_expr 1) (TK_VECTOR TK_FLOAT 3)
    DS_INTRINSIC_STATE_ROUNDED_CORNER_NORMAL
    "::state::rounded_corner_normal$1.2" 2 four_arguments false
    (new_builder empty_transaction [])
  = Ok (E_call (reference_to true ["state"; "rounded_corner_normal"])
          [positional_argument (E_literal (V_int 10));
           positional_argument (E_literal (V_int 20));
           positional_argument (E_literal (V_float F32.one))],
        new_builder empty_transaction []).
Proof.
  apply (rounded_corner_normal_2_appends_roundness 1 (TK_VECTOR TK_FLOAT 3)
           "::state::rounded_corner_normal$1.2" false
           _ _ _ _ _ _ (new_builder empty_transaction [])).
  - reflexivity.
  - simpl. eexists. split; [reflexivity|].
    eexists. split; [reflexivity|]. reflexivity.
Defined.

Lemma fresnel_body_run rec named_args (args : IExpression_list)
    i name a call s e s1 :
  args !! i = Some (name, a) ->
  rec a s = Ok (e, s1) ->
  (expr ← transform_argument rec args i;
   expr ← (if decide (i = 1) then
             qname ← create_qualified_name "color";
             mret (add_argument (create_call (to_reference qname None))
                     (positional_argument expr))
           else mret expr);
   arg ← supplied_argument named_args args i expr;
   mret (add_argument call arg)) s
  = Ok (add_argument call (fresnel_argument named_args i name e), s1).
Proof.
  intros Hi Ha.
  rewrite (bind_Ok _ _ _ _ _ (transform_argument_run _ _ _ _ _ _ _ _ Hi Ha)).
  unfold fresnel_argument.
  destruct (decide (i = 1)).
  - erewrite (bind_Ok _ _ s1 _ s1) by reflexivity.
    rewrite (bind_Ok _ _ _ _ _ (supplied_argument_run _ _ _ _ _ _ _ Hi)).
    reflexivity.
  - rewrite (bind_Ok _ _ s1 e s1) by reflexivity.
    rewrite (bind_Ok _ _ _ _ _ (supplied_argument_run _ _ _ _ _ _ _ Hi)).
    reflexivity.
Qed.

(** X20: a fresnel layer call whose callee name contains a '$' becomes,
    whatever its version suffix and its number of parameters, the call of
    [::df::color_fresnel_layer] on the same arguments, the second one
    inside a call of the color constructor. *)
Theorem fresnel_layer_becomes_color_fresnel_layer
    fuel ret_type callee_name n_params args named_args s s0 es s' :
  is_Some (Cstr.rfind callee_name "$") ->
  n_params <= length args ->
  record_used_user_type ret_type s = Ok (tt, s0) ->
  transformed_in_order (transform_expr fuel)
    (snd <$> take n_params args) s0 es s' ->
  transform_call (transform_expr fuel) ret_type
    DS_INTRINSIC_DF_FRESNEL_LAYER callee_name n_params args named_args s
  = Ok (E_call (reference_to true ["df"; "color_fresnel_layer"])
          (arguments_from (fresnel_argument named_args) 0
             (fst <$> take n_params args) es),
        s').
Proof.
  intros [p Hp] Hlen Hrecord Hes.
  unfold transform_call. rewrite (bind_Ok _ _ _ _ _ Hrecord).
  unfold transform_call_dispatch, convert_to_latest. rewrite Hp.
  erewrite (bind_Ok _ _ s0 (Some _) s'); [reflexivity|].
  rewrite (bind_Ok _ _ s0 _ s0) by apply create_qualified_name_run.
  unfold create_call.
  rewrite (bind_Ok _ _ _ _ _
             (for_loop_arguments (transform_expr fuel) args _
                (fresnel_argument named_args)
                (fresnel_body_run (transform_expr fuel) named_args args)
                n_params 0 _ [] s0 es s' Hlen Hes)).
  reflexivity.
Qed.

Lemma fresnel_layer_becomes_color_fresnel_layer_witness :
  transform_call (transform_expr 1) TK_BSDF DS_INTRINSIC_DF_FRESNEL_LAYER
    "::df::fresnel_layer$1.3" 3 four_arguments true
    (new_builder empty_transaction [])
  = Ok (E_call (reference_to true ["df"; "color_fresnel_layer"])
          [named_argument "a" (E_literal (V_int 10));
           named_argument "b"
             (E_call (reference_to false ["color"])
                [positional_argument (E_literal (V_int 20))]);
           named_argument "c" (E_literal (V_int 30))],
        new_builder empty_transaction []).
Proof.
  apply (fresnel_layer_becomes_color_fresnel_layer 1 TK_BSDF
           "::df::fresnel_layer$1.3" 3 four_arguments true _
           (new_builder empty_transaction [])
           [E_literal (V_int 10); E_literal (V_int 20);
            E_literal (V_int 30)]).
  - simpl. eexists. reflexivity.
  - simpl. lia.
  - reflexivity.
  - simpl. eexists. split; [reflexivity|].
    eexists. split; [reflexivity|].
    eexists. split; [reflexivity|]. reflexivity.
Defined.

(** ** Calls: the DAG intrinsics *)

Lemma transformed_in_order_length rec exprs s es s' :
  transformed_in_order rec exprs s es s' -> length es = length exprs.
Proof.
  revert s es. induction exprs as [|a exprs IH]; intros s [|e es] H;
    simpl in H; try contradiction; try reflexivity.
  destruct H as (s1 & _ & H). simpl. f_equal. exact (IH _ _ H).
Qed.

Lemma arguments_from_positional i (names : list string) es :
  length es = length names ->
  arguments_from (fun _ _ => positional_argument) i names es
  = positional_argument <$> es.
Proof.
  revert i es. induction names as [|n names IH]; intros i [|e es] H;
    simpl in H; try discriminate; try reflexivity.
  simpl. f_equal. apply IH. congruence.
Qed.

Lemma positional_body_run rec (args : IExpression_list)
    i name a call s e s1 :
  args !! i = Some (name, a) ->
  rec a s = Ok (e, s1) ->
  (expr ← transform_argument rec args i;
   mret (add_argument call (positional_argument expr))) s
  = Ok (add_argument call (positional_argument e), s1).
Proof.
  intros Hi Ha.
  rewrite (bind_Ok _ _ _ _ _ (transform_argument_run _ _ _ _ _ _ _ _ Hi Ha)).
  reflexivity.
Qed.

(** X22: an array constructor call whose return type is an array type
    becomes the call of the element type's name on the arguments,
    transformed from left to right and always positional, also when the
    call has named arguments. *)
Theorem array_constructor_is_positional
    fuel e_tp size callee_name n_params args named_args s tn s0 es s' :
  n_params <= length args ->
  create_type_name e_tp s = Ok (tn, s0) ->
  transformed_in_order (transform_expr fuel)
    (snd <$> take n_params args) s0 es s' ->
  transform_call (transform_expr fuel) (TK_ARRAY e_tp size)
    DS_INTRINSIC_DAG_ARRAY_CONSTRUCTOR callee_name n_params args
    named_args s
  = Ok (E_call (E_reference tn) (positional_argument <$> es), s').
Proof.
  intros Hlen Htn Hes.
  unfold transform_call.
  rewrite (bind_Ok _ _ s tt s) by reflexivity.
  unfold transform_call_dispatch.
  rewrite (bind_Ok _ _ s None s) by reflexivity.
  unfold transform_structural.
  rewrite (bind_Ok _ _ _ _ _ Htn). unfold create_call.
  rewrite (for_loop_arguments (transform_expr fuel) args _
             (fun _ _ => positional_argument)
             (positional_body_run (transform_expr fuel) args)
             n_params 0 _ [] s0 es s' Hlen Hes).
  rewrite arguments_from_positional; [reflexivity|].
  rewrite (transformed_in_order_length _ _ _ _ _ Hes).
  now rewrite !length_fmap.
Qed.

Lemma array_constructor_is_positional_witness :
  transform_call (transform_expr 1) (TK_ARRAY TK_INT (Immediate_size 2))
    DS_INTRINSIC_DAG_ARRAY_CONSTRUCTOR "T[](...)" 2 four_arguments true
    (new_builder empty_transaction [])
  = Ok (E_call (E_reference
                  (create_type_name_of
                     {| qn_components := ["int"]; qn_absolute := false |}))
          [positional_argument (E_literal (V_int 10));
           positional_argument (E_literal (V_int 20))],
        new_builder empty_transaction []).
Proof.
  apply (array_constructor_is_positional 1 TK_INT (Immediate_size 2)
           "T[](...)" 2 four_arguments true _ _
           (new_builder empty_transaction [])
           [E_literal (V_int 10); E_literal (V_int 20)]).
  - simpl. lia.
  - reflexivity.
  - simpl. eexists. split; [reflexivity|].
    eexists. split; [reflexivity|]. reflexivity.
Defined.

(** X23: an index access call becomes the array index expression over its
    first two arguments, transformed from left to right, whatever the
    callee name, the number of parameters and the calling convention; a
    call to one of the two DAG intrinsics reserved for lambda functions
    violates an assertion and gives the invalid expression without
    transforming any argument. *)
Theorem index_access_and_reserved_intrinsics
    fuel ret_type sema callee_name n_params args named_args s s0 :
  record_used_user_type ret_type s = Ok (tt, s0) ->
  (forall n0 a0 n1 a1 rest e0 e1 s2,
      sema = DS_INTRINSIC_DAG_INDEX_ACCESS ->
      args = (n0, a0) :: (n1, a1) :: rest ->
      transformed_in_order (transform_expr fuel) [a0; a1] s0 [e0; e1] s2 ->
      transform_call (transform_expr fuel) ret_type sema callee_name
        n_params args named_args s
      = Ok (E_binary OK_ARRAY_INDEX e0 e1, s2))
  /\ (is_reserved_intrinsic sema = true ->
      transform_call (transform_expr fuel) ret_type sema callee_name
        n_params args named_args s
      = Ok (E_invalid, assert_failed "unexpected DAG intrinsic" s0)).
Proof.
  intros Hrecord. split.
  - intros n0 a0 n1 a1 rest e0 e1 s2 -> -> (s1 & H0 & s2' & H1 & ->).
    unfold transform_call. rewrite (bind_Ok _ _ _ _ _ Hrecord).
    unfold transform_call_dispatch.
    rewrite (bind_Ok _ _ s0 None s0) by reflexivity.
    unfold transform_structural.
    set (args := (n0, a0) :: (n1, a1) :: rest).
    rewrite (bind_Ok _ _ _ _ _
               (transform_argument_run _ args 0 _ _ _ _ _ eq_refl H0)).
    rewrite (bind_Ok _ _ _ _ _
               (transform_argument_run _ args 1 _ _ _ _ _ eq_refl H1)).
    reflexivity.
  - intros Hsema.
    unfold transform_call. rewrite (bind_Ok _ _ _ _ _ Hrecord).
    destruct sema; try discriminate Hsema; reflexivity.
Qed.

Lemma index_access_and_reserved_intrinsics_witness :
  transform_call (transform_expr 1) user_struct
    DS_INTRINSIC_DAG_SET_OBJECT_ID "set:object_id" 4 four_arguments false
    (new_builder empty_transaction [])
  = Ok (E_invalid,
        assert_failed "unexpected DAG intrinsic"
          (pushed "::mod::surface_info" (new_builder empty_transaction []))).
Proof.
  apply (proj2 (index_access_and_reserved_intrinsics 1 user_struct
                  DS_INTRINSIC_DAG_SET_OBJECT_ID "set:object_id" 4
                  four_arguments false (new_builder empty_transaction [])
                  _ eq_refl)).
  reflexivity.
Defined.

(** X24: an array constructor call whose return type is not itself an
    array type (an alias of one included) dereferences an invalid handle:
    the run ends in a fault, whatever the arguments. *)
Theorem array_constructor_needs_array_type
    fuel ret_type callee_name n_params args named_args s :
  (forall e_tp size, ret_type <> TK_ARRAY e_tp size) ->
  transform_call (transform_expr fuel) ret_type
    DS_INTRINSIC_DAG_ARRAY_CONSTRUCTOR callee_name n_params args
    named_args s
  = Fault.
Proof.
  intros Hno.
  destruct (record_used_user_type_run ret_type s) as [s0 Hrecord].
  unfold transform_call. rewrite (bind_Ok _ _ _ _ _ Hrecord).
  unfold transform_call_dispatch.
  rewrite (bind_Ok _ _ s0 None s0) by reflexivity.
  unfold transform_structural.
  destruct ret_type; try reflexivity.
  exfalso. eapply Hno. reflexivity.
Qed.

Lemma array_constructor_needs_array_type_witness :
  transform_call (transform_expr 1)
    (TK_ALIAS (TK_ARRAY TK_INT (Immediate_size 2))
       {| MK_UNIFORM := true; MK_VARYING := false |})
    DS_INTRINSIC_DAG_ARRAY_CONSTRUCTOR "T[](...)" 2 four_arguments false
    (new_builder empty_transaction [])
  = Fault.
Proof.
  apply (array_constructor_needs_array_type 1). discriminate.
Defined.

(** ** Expressions *)

(** X25: whatever expression is transformed, the transaction, the counter
    of temporaries, the parameter map and the arguments of the builder are
    afterwards as before, and the list of used user types, the diagnostic
    sink and the trace of violated assertions have only been appended
    to. *)
Theorem transform_expr_touches_sinks_only fuel expr s e s' :
  transform_expr fuel expr s = Ok (e, s') ->
  only_appends s s'.
Proof. apply appends_transform_expr. Qed.

Lemma transform_expr_touches_sinks_only_witness :
  only_appends (new_builder scattering_transaction [])
    (assert_failed "unexpected expression kind"
       (assert_failed "unexpected temporary"
          (new_builder scattering_transaction []))).
Proof.
  exact (transform_expr_touches_sinks_only 1 (EK_TEMPORARY 1 TK_INT 0)
           (new_builder scattering_transaction []) E_invalid _ eq_refl).
Defined.

(** X26: a parameter that is not bound in the parameter map and whose
    argument is an unbound parameter of the same index is never resolved:
    the transformation follows the argument list for ever, no budget is
    enough. *)
Theorem parameter_bound_to_itself_never_returns
    fuel addr type addr' type' index s :
  m_param_map s !! addr = None ->
  m_param_map s !! addr' = None ->
  get_expression (m_args s) index = Some (EK_PARAMETER addr' type' index) ->
  transform_expr fuel (EK_PARAMETER addr type index) s = OutOfFuel.
Proof.
  intros Hp Hp' Harg.
  revert addr type Hp.
  induction fuel as [|fuel IH]; intros addr type Hp; [reflexivity|].
  cbn [transform_expr].
  rewrite (bind_Ok _ _ s (m_param_map s) s) by reflexivity.
  cbn [expr_addr]. rewrite Hp.
  rewrite (bind_Ok _ _ s (m_args s) s) by reflexivity.
  rewrite Harg. now apply IH.
Qed.

Lemma parameter_bound_to_itself_never_returns_witness :
  transform_expr 100 (EK_PARAMETER 1 TK_INT 0)
    (new_builder empty_transaction [("x", EK_PARAMETER 2 TK_INT 0)])
  = OutOfFuel.
Proof.
  apply (parameter_bound_to_itself_never_returns 100 1%N TK_INT 2%N TK_INT 0
           (new_builder empty_transaction [("x", EK_PARAMETER 2 TK_INT 0)]));
    reflexivity.
Defined.

(** X27: an unbound call whose tag is that of no function call and no
    material instance, and an unbound direct call whose tag is that of no
    function or material definition, violate the assertion on the callee
    kind and give the invalid expression; no argument is transformed and
    no user type is recorded. *)
Theorem unsupported_callee_is_invalid fuel addr type tag args s :
  m_param_map s !! addr = None ->
  (get_class_id (m_trans s) tag <> ID_MDL_FUNCTION_CALL ->
   get_class_id (m_trans s) tag <> ID_MDL_MATERIAL_INSTANCE ->
   transform_expr (S fuel) (EK_CALL addr type tag) s
   = Ok (E_invalid, assert_failed "unsupported callee kind" s))
  /\ (get_class_id (m_trans s) tag <> ID_MDL_FUNCTION_DEFINITION ->
      get_class_id (m_trans s) tag <> ID_MDL_MATERIAL_DEFINITION ->
      transform_expr (S fuel) (EK_DIRECT_CALL addr type tag args) s
      = Ok (E_invalid, assert_failed "unsupported callee kind" s)).
Proof.
  intros Hp. split; intros H1 H2; cbn [transform_expr];
    rewrite (bind_Ok _ _ s (m_param_map s) s) by reflexivity;
    cbn [expr_addr]; rewrite Hp;
    rewrite (bind_Ok _ _ s (m_trans s) s) by reflexivity;
    unfold get_class_id in H1, H2;
    destruct (db_elements (m_trans s) !! tag) as [[]|];
    simpl in H1, H2; try congruence; reflexivity.
Qed.

Lemma unsupported_callee_is_invalid_witness :
  transform_expr 1 (EK_CALL 1 user_struct 4) (new_builder resource_transaction [])
  = Ok (E_invalid,
        assert_failed "unsupported callee kind"
          (new_builder resource_transaction [])).
Proof.
  apply (proj1 (unsupported_callee_is_invalid 0 1%N user_struct 4%N []
                  (new_builder resource_transaction []) eq_refl));
    discriminate.
Defined.

(** X28: an unbound call of a material instance becomes the call of the
    material definition's original name when it is re-exported, of its
    own name otherwise, cut at the parameter signature, on the first
    [n_params] arguments of the instance, all named; no conversion applies
    to a material, whatever its name. *)
Theorem material_instance_is_named_call
    fuel addr type tag def_tag args name orig_sig n_params s s0 es s' :
  m_param_map s !! addr = None ->
  db_elements (m_trans s) !! tag = Some (Mdl_material_instance def_tag args) ->
  db_elements (m_trans s) !! def_tag
  = Some (Mdl_material_definition name orig_sig n_params) ->
  n_params <= length args ->
  record_used_user_type type s = Ok (tt, s0) ->
  transformed_in_order (transform_expr fuel)
    (snd <$> take n_params args) s0 es s' ->
  transform_expr (S fuel) (EK_CALL addr type tag) s
  = Ok (E_call
          (reference_of
             (qualified_name_of (dag_unmangle (default name orig_sig)))
             None)
          (zip_with (fun n e => named_argument (to_simple_name n) e)
             (fst <$> take n_params args) es),
        s').
Proof.
  intros Hp Htag Hdef Hlen Hrecord Hes.
  cbn [transform_expr].
  rewrite (bind_Ok _ _ s (m_param_map s) s) by reflexivity.
  cbn [expr_addr]. rewrite Hp.
  rewrite (bind_Ok _ _ s (m_trans s) s) by reflexivity.
  rewrite Htag, Hdef. cbv zeta.
  now rewrite (plain_call_run (transform_expr fuel) type DS_UNKNOWN
                 (dag_unmangle (default name orig_sig)) n_params args true
                 s s0 es s' eq_refl Hlen Hrecord Hes).
Qed.

Lemma material_instance_is_named_call_witness :
  transform_expr 2 (EK_CALL 40 TK_BSDF 30) (new_builder material_transaction [])
  = Ok (E_call (reference_to true ["base"; "plastic"])
          [named_argument "tint" (E_literal (V_int 10));
           named_argument "roughness" (E_literal (V_int 20))],
        new_builder material_transaction []).
Proof.
  apply (material_instance_is_named_call 1 40%N TK_BSDF 30%N 31%N
           [("tint", int_constant 1 10); ("roughness", int_constant 2 20)]
           "::mod::plastic(color,float)"
           (Some "::base::plastic(color,float)") 2
           (new_builder material_transaction [])
           (new_builder material_transaction [])
           [E_literal (V_int 10); E_literal (V_int 20)]).
  - reflexivity.
  - reflexivity.
  - reflexivity.
  - simpl. lia.
  - reflexivity.
  - simpl. eexists. split; [reflexivity|].
    eexists. split; [reflexivity|]. reflexivity.
Defined.

(** ** Temporaries *)

Lemma tmp_name_inj (a b : N) :
  "tmp" +:+ pretty a = "tmp" +:+ pretty b -> a = b.
Proof.
  intros H. simpl in H. injection H as H. now apply (inj pretty).
Qed.

Lemma mod_2_32_inj (i k1 k2 : N) :
  (k1 < 2 ^ 32)%N -> (k2 < 2 ^ 32)%N ->
  ((i + k1) mod 2 ^ 32 = (i + k2) mod 2 ^ 32)%N -> k1 = k2.
Proof.
  intros H1 H2 H.
  pose proof (N.div_mod' (i + k1) (2 ^ 32)) as E1.
  pose proof (N.div_mod' (i + k2) (2 ^ 32)) as E2.
  rewrite H in E1.
  set (M := (2 ^ 32)%N) in *.
  assert (HM : (0 < M)%N) by (subst M; reflexivity).
  nia.
Qed.

Lemma temporary_symbols_run n :
  forall s,
    (m_tmp_idx s < 2 ^ 32)%N ->
    exists s',
      temporary_symbols n s
      = Ok ((fun k => "tmp" +:+ pretty
                        ((m_tmp_idx s + N.of_nat k) mod 2 ^ 32)%N)
              <$> seq 0 n, s')
      /\ m_tmp_idx s' = ((m_tmp_idx s + N.of_nat n) mod 2 ^ 32)%N
      /\ m_trans s' = m_trans s /\ m_param_map s' = m_param_map s
      /\ m_args s' = m_args s
      /\ m_used_user_types s' = m_used_user_types s
      /\ mod_log s' = mod_log s /\ failed_asserts s' = failed_asserts s.
Proof.
  induction n as [|n IH]; intros s Hs.
  - exists s. simpl. rewrite N.add_0_r, N.mod_small by exact Hs.
    repeat split; reflexivity.
  - set (s1 := {| m_trans := m_trans s;
                  m_tmp_idx := to_unsigned (m_tmp_idx s + 1);
                  m_param_map := m_param_map s; m_args := m_args s;
                  m_used_user_types := m_used_user_types s;
                  mod_log := mod_log s;
                  failed_asserts := failed_asserts s |}).
    assert (Hs1 : (m_tmp_idx s1 < 2 ^ 32)%N)
      by (apply N.mod_lt; discriminate).
    destruct (IH s1 Hs1) as (s' & Hrun & Hidx & Hrest).
    exists s'. split; [|split].
    + cbn [temporary_symbols].
      rewrite (bind_Ok _ _ s ("tmp" +:+ pretty (m_tmp_idx s)) s1)
        by reflexivity.
      rewrite (bind_Ok _ _ _ _ _ Hrun).
      unfold mret, M_ret. f_equal. f_equal.
      cbn [seq fmap list_fmap]. f_equal.
      * change (N.of_nat 0) with 0%N.
        now rewrite N.add_0_r, N.mod_small by exact Hs.
      * rewrite <- (fmap_S_seq 0 n), <- list_fmap_compose.
        apply list_fmap_ext. intros _ k _. simpl.
        f_equal. f_equal. unfold to_unsigned.
        rewrite N.Div0.add_mod_idemp_l. f_equal. lia.
    + rewrite Hidx. simpl. unfold to_unsigned.
      rewrite N.Div0.add_mod_idemp_l. f_equal. lia.
    + exact Hrest.
Qed.

(** X29: [n] successive calls of [get_temporary_symbol], with [n] at most
    2^32, give [n] names that differ from each other, and change nothing
    but the counter; after exactly 2^32 calls the counter is back at its
    value, so the next name is one already given. *)
Theorem temporary_symbols_differ n s :
  (m_tmp_idx s < 2 ^ 32)%N ->
  (N.of_nat n <= 2 ^ 32)%N ->
  exists names s',
    temporary_symbols n s = Ok (names, s')
    /\ length names = n
    /\ NoDup names
    /\ m_tmp_idx s' = ((m_tmp_idx s + N.of_nat n) mod 2 ^ 32)%N
    /\ (N.of_nat n = 2 ^ 32 -> m_tmp_idx s' = m_tmp_idx s)%N
    /\ m_trans s' = m_trans s /\ m_param_map s' = m_param_map s
    /\ m_args s' = m_args s
    /\ m_used_user_types s' = m_used_user_types s
    /\ mod_log s' = mod_log s /\ failed_asserts s' = failed_asserts s.
Proof.
  intros Hs Hn.
  destruct (temporary_symbols_run n s Hs) as (s' & Hrun & Hidx & Hrest).
  eexists _, s'. split; [exact Hrun|].
  split; [now rewrite length_fmap, length_seq|].
  split; [|split; [exact Hidx|split; [|exact Hrest]]].
  - apply NoDup_fmap_2_strong; [|apply NoDup_seq].
    intros k1 k2 H1 H2 Heq.
    apply elem_of_seq in H1, H2.
    apply tmp_name_inj, mod_2_32_inj in Heq; lia.
  - intros Hfull. rewrite Hidx, Hfull.
    rewrite <- (N.mul_1_l (2 ^ 32)) at 1.
    rewrite N.Div0.mod_add. now apply N.mod_small.
Qed.

Lemma temporary_symbols_differ_witness :
  exists names s',
    temporary_symbols 3 (new_builder empty_transaction []) = Ok (names, s')
    /\ length names = 3
    /\ NoDup names
    /\ m_tmp_idx s' = ((0 + N.of_nat 3) mod 2 ^ 32)%N
    /\ (N.of_nat 3 = 2 ^ 32 -> m_tmp_idx s' = 0)%N
    /\ m_trans s' = empty_transaction /\ m_param_map s' = ∅
    /\ m_args s' = []
    /\ m_used_user_types s' = []
    /\ mod_log s' = [] /\ failed_asserts s' = [].
Proof.
  apply (temporary_symbols_differ 3 (new_builder empty_transaction []));
    simpl; lia.
Defined.

(** ** Declaring and removing parameters *)

(** X30: after [declare_parameter] the declared expression is transformed
    to the reference to its symbol, the symbol of the last declaration
    when it is declared twice; a constant of another identity is
    materialized as before, and so is the declared constant itself once
    [remove_parameters] has been called. *)
Theorem declared_parameter_until_removed fuel sym sym' init addr v s :
  expr_addr init <> addr ->
  m_param_map s !! addr = None ->
  transform_expr (S fuel) init
    (declare_parameter sym' init (declare_parameter sym init s))
  = Ok (symbol_reference sym',
        declare_parameter sym' init (declare_parameter sym init s))
  /\ transform_expr (S fuel) (EK_CONSTANT addr v)
       (declare_parameter sym init s)
     = transform_value v (declare_parameter sym init s)
  /\ transform_expr (S fuel) (EK_CONSTANT addr v)
       (remove_parameters (declare_parameter sym (EK_CONSTANT addr v) s))
     = transform_value v
         (remove_parameters (declare_parameter sym (EK_CONSTANT addr v) s)).
Proof.
  intros Hne Hnone. split; [|split]; cbn [transform_expr].
  - rewrite (bind_Ok _ _ _ _ _ eq_refl).
    now rewrite declare_parameter_lookup.
  - rewrite (bind_Ok _ _ _ _ _ eq_refl).
    cbn [expr_addr declare_parameter m_param_map].
    now rewrite lookup_insert_ne, Hnone.
  - rewrite (bind_Ok _ _ _ _ _ eq_refl).
    cbn [expr_addr remove_parameters m_param_map].
    now rewrite lookup_empty.
Qed.

Lemma declared_parameter_until_removed_witness :
  transform_expr 1 (int_constant 1 10)
    (declare_parameter "q" (int_constant 1 10)
       (declare_parameter "p" (int_constant 1 10)
          (new_builder empty_transaction [])))
  = Ok (symbol_reference "q",
        declare_parameter "q" (int_constant 1 10)
          (declare_parameter "p" (int_constant 1 10)
             (new_builder empty_transaction []))).
Proof.
  apply (declared_parameter_until_removed 0 "p" "q" (int_constant 1 10)
           2%N (VK_INT 20) (new_builder empty_transaction [])).
  - discriminate.
  - reflexivity.
Defined.
